(** * gossie: the struct <-> Cassandra row mapping engine (src/gossie/mapping.go)

    A shallow embedding of the mapping engine of gossie: the composite
    column-name codec, the sparse and the compact mapping (Map / Unmap),
    mapping construction from struct tags (NewMapping) and the RowProvider
    protocol consumed by Unmap.

    Go values that the engine only passes around ([]byte, string, error,
    interface{}) are modelled by lists of bytes, strings, an inductive type
    of errors and a small universe of Go values.  The primitive type codec
    (Marshal / Unmarshal of types.go) is a parameter of the development. *)

From Stdlib Require Import ZArith NArith Lia List String Ascii.
From Stdlib.Strings Require Import Byte.
From stdpp Require Import base option list gmap strings.

Import ListNotations.
Local Open Scope string_scope.
Local Open Scope list_scope.

(** ** Byte strings *)

Abbreviation bytes := (list byte).

(** Conversion [byte(n)]: keeps the low eight bits. *)
Definition byte_of_N (n : N) : byte :=
  match Byte.of_N (n mod 256) with
  | Some b => b
  | None => x00
  end.

(** Conversion [uint16(n)] of a Go [int]: keeps the low sixteen bits. *)
Definition uint16 (n : N) : N := (n mod 65536)%N.

(** [binary.BigEndian.PutUint16] and [binary.BigEndian.Uint16]. *)
Definition putUint16 (n : N) : bytes :=
  [byte_of_N (n / 256); byte_of_N (n mod 256)].

Definition getUint16 (hi lo : byte) : N :=
  (Byte.to_N hi * 256 + Byte.to_N lo)%N.

(** ** Composite codec *)

(** Modelled from the spec: [packComposite], which mapping.go calls and does
    not define.  Section 4.1 gives the layout of one component: a 2-byte
    big-endian length prefix, the raw bytes of the component, then a 1-byte
    end-of-component marker.  The length is stored the way Go stores an [int]
    in two bytes, [uint16(len(component))]. *)
Definition packComposite (component : bytes) (eoc : byte) : bytes :=
  putUint16 (uint16 (N.of_nat (length component))) ++ component ++ [eoc].

(** Modelled from the spec: [pack] of section 4.1, the concatenation of the
    packed components, every one closed by the same marker. *)
Definition pack (eoc : byte) (components : list bytes) : bytes :=
  concat (map (fun c => packComposite c eoc) components).

(** Modelled from the spec: [unpackComposite], which mapping.go calls and
    does not define.  It reads the layout of section 4.1 back: while bytes
    remain, a 2-byte big-endian length [l], then [l] raw bytes, then one
    marker byte that is skipped.  [None] stands for a byte string that is
    not laid out that way (the slices would be taken out of range).  Every
    round consumes at least three bytes, so [length composite] rounds are
    always enough ([unpackLoop_enough] below). *)
Fixpoint unpackLoop (fuel : nat) (composite : bytes) : option (list bytes) :=
  match composite with
  | [] => Some []
  | [_] => None
  | hi :: lo :: rest =>
      match fuel with
      | O => None
      | S fuel' =>
          let l := N.to_nat (getUint16 hi lo) in
          if Nat.leb (l + 1) (length rest) then
            match unpackLoop fuel' (drop (l + 1) rest) with
            | Some components => Some (take l rest :: components)
            | None => None
            end
          else None
      end
  end.

Definition unpackComposite (composite : bytes) : option (list bytes) :=
  unpackLoop (length composite) composite.

(** ** Errors and results *)

(** The [error] values of the package.  The three exhaustion signals are the
    package's sentinel values ([Done] is declared next to the queries,
    [EndBeforeLimit] and [EndAtLimit] in mapping.go) and are compared by
    identity; the other constructors stand for the messages built with
    [errors.New(fmt.Sprint(...))], one constructor per message, carrying the
    values printed in it. *)
Inductive error : Type :=
| Done
| EndBeforeLimit
| EndAtLimit
| ErrNotAStruct
| ErrTagNotFound (tag typeName : string)
| ErrKeyFieldNotFound (key typeName : string)
| ErrCompositeFieldNotFound (c typeName : string)
| ErrValueFieldNotFound (value typeName : string)
| ErrUnrecognizedMapping (mapping typeName : string)
| ErrMappingKeyFieldNotFound (key typeName : string)
| ErrMappingComponentFieldNotFound (c typeName : string)
| ErrComponentCount (typeName : string)
| ErrFieldNameNotUTF8 (typeName : string) (cause : error)
| ErrUnmarshalColumn (name : string) (cause : error)
| ErrCompactValue (cause : error)
| ErrField (fieldName : string) (cause : error)
| ErrCodec (msg : string)
| ErrProvider (msg : string).

(** What a call produces: a value, an [error], or a run-time panic (a slice
    or an index taken out of range). *)
Inductive result (A : Type) : Type :=
| Ok (a : A)
| Err (e : error)
| Panic.

Arguments Ok {A} a.
Arguments Err {A} e.
Arguments Panic {A}.

Definition bind {A B : Type} (r : result A) (k : A -> result B) : result B :=
  match r with
  | Ok a => k a
  | Err e => Err e
  | Panic => Panic
  end.

Notation "'let*' x ':=' r 'in' k" := (bind r (fun x => k))
  (at level 10, x pattern, r at level 100, k at level 200).

(** ** Go values and the primitive type codec *)

(** The values a struct field holds, as far as the engine tells them
    apart, and their Go types. *)
Inductive GoValue : Type :=
| VString (s : string)
| VInt (z : Z)
| VBool (b : bool)
| VBytes (b : bytes).

Inductive GoType : Type := TString | TInt | TBool | TBytes.

Definition goTypeOf (x : GoValue) : GoType :=
  match x with
  | VString _ => TString
  | VInt _ => TInt
  | VBool _ => TBool
  | VBytes _ => TBytes
  end.

(** Modelled from the spec: the type tags of the primitive codec
    ("per-field type tag"); mapping.go names [UTF8Type] only. *)
Inductive TypeDesc : Type :=
| UnknownType | BytesType | AsciiType | UTF8Type | LongType | BooleanType.

(** What mapping.go takes from the rest of the package without defining it:
    [Marshal(value, typeDesc)], [Unmarshal(b, typeDesc, &destination)] (the
    third argument is the current content of the destination, whose Go type
    selects the decoding; the result is its new content) and the constant
    [eocEquals], the end-of-component marker written by Map. *)
Class Primitives : Type := {
  Marshal : GoValue -> TypeDesc -> result bytes;
  Unmarshal : bytes -> TypeDesc -> GoValue -> result GoValue;
  eocEquals : byte
}.

(** ** Rows and columns *)

Record Column : Type := {
  Name : bytes;
  Value : bytes;
  Ttl : Z;
  Timestamp : Z
}.

Record Row : Type := {
  Key : bytes;
  Columns : list Column
}.

(** The composite literal [&Column{Name: n, Value: v}]. *)
Definition mkColumn (n v : bytes) : Column :=
  {| Name := n; Value := v; Ttl := 0; Timestamp := 0 |}.

(** ** Field registry *)

(** Modelled from the spec: the field descriptor of the struct inspection
    ("ordered field descriptors with per-field type tag and
    marshal/unmarshal entry points").  [name] is the Go name of the field,
    [cassandraName] its store-facing name, [index] its position in the
    struct. *)
Record field : Type := {
  name : string;
  index : nat;
  cassandraType : TypeDesc;
  cassandraName : string
}.

(** Modelled from the spec: the inspection of a struct type, with the two
    look-up tables (by Go name and by store-facing name), the fields in
    declaration order and the struct tags. *)
Record structInspection : Type := {
  rtypeName : string;
  goFields : gmap string field;
  cassandraFields : gmap string field;
  orderedFields : list field;
  globalTags : gmap string string
}.

(** The content of a struct: the value of every field, by position. *)
Abbreviation structValue := (list GoValue).

(** An [interface{}] argument: a pointer to a struct, which carries the
    inspection of its type, or anything else. *)
Inductive GoInterface : Type :=
| NotAStructPointer
| StructPointer (si : structInspection) (v : structValue).

(** Modelled from the spec: [validateAndInspectStruct] accepts pointers to
    structs and hands out the content and the inspection of the type. *)
Definition validateAndInspectStruct (source : GoInterface)
  : result (structValue * structInspection) :=
  match source with
  | NotAStructPointer => Err ErrNotAStruct
  | StructPointer si v => Ok (v, si)
  end.

(** Modelled from the spec: [field.marshalName], the store-facing name as a
    UTF-8 byte string. *)
Definition marshalName `{Primitives} (f : field) : result bytes :=
  match Marshal (VString (cassandraName f)) UTF8Type with
  | Ok b => Ok b
  | Err e => Err (ErrField (name f) e)
  | Panic => Panic
  end.

(** Modelled from the spec: [field.marshalValue], the field of the struct
    through the codec of its type tag. *)
Definition marshalValue `{Primitives} (f : field) (v : structValue)
  : result bytes :=
  match v !! index f with
  | None => Panic
  | Some x =>
      match Marshal x (cassandraType f) with
      | Ok b => Ok b
      | Err e => Err (ErrField (name f) e)
      | Panic => Panic
      end
  end.

(** Modelled from the spec: [field.unmarshalValue], the bytes decoded by the
    codec of the type tag and stored in the field of the struct. *)
Definition unmarshalValue `{Primitives} (f : field) (b : bytes)
    (v : structValue) : result structValue :=
  match v !! index f with
  | None => Panic
  | Some d =>
      match Unmarshal b (cassandraType f) d with
      | Ok x => Ok (<[index f := x]> v)
      | Err e => Err (ErrField (name f) e)
      | Panic => Panic
      end
  end.

(** ** RowProvider *)

(** The interface [RowProvider]; a provider is a value of the state type
    [P], and the two methods that move the column pointer return the new
    state. *)
Class RowProvider (P : Type) : Type := {
  ProviderKey : P -> result bytes;
  NextColumn : P -> result Column * P;
  Rewind : P -> P
}.

(** Modelled from the spec: a provider over the columns of one row held in
    memory (section 6: a sequential cursor over the columns of one physical
    row).  [sp_end] is the signal given once the columns are exhausted. *)
Record sliceProvider : Type := {
  sp_key : bytes;
  sp_columns : list Column;
  sp_position : nat;
  sp_end : error
}.

Definition sliceAt (p : sliceProvider) (position : nat) : sliceProvider :=
  {| sp_key := sp_key p; sp_columns := sp_columns p;
     sp_position := position; sp_end := sp_end p |}.

#[export] Instance sliceRowProvider : RowProvider sliceProvider := {
  ProviderKey p := Ok (sp_key p);
  NextColumn p :=
    match sp_columns p !! sp_position p with
    | Some column => (Ok column, sliceAt p (S (sp_position p)))
    | None => (Err (sp_end p), p)
    end;
  Rewind p := sliceAt p (pred (sp_position p))
}.

Definition newSliceProvider (key : bytes) (columns : list Column)
    (signal : error) : sliceProvider :=
  {| sp_key := key; sp_columns := columns; sp_position := 0;
     sp_end := signal |}.

(** ** Mappings *)

Record sparseMapping : Type := {
  m_si : structInspection;
  m_cf : string;
  m_key : string;
  m_components : list string;
  m_componentsMap : gmap string bool
}.

Record compactMapping : Type := {
  m_sparse : sparseMapping;
  m_value : string
}.

(** The two implementations of the interface [Mapping]. *)
Inductive Mapping : Type :=
| Sparse (m : sparseMapping)
| Compact (m : compactMapping).

Definition newSparseMapping (si : structInspection) (cf keyField : string)
    (componentFields : list string) : sparseMapping :=
  {| m_si := si; m_cf := cf; m_key := keyField;
     m_components := componentFields;
     m_componentsMap :=
       foldl (fun cm f => <[f := true]> cm) ∅ componentFields |}.

Definition newCompactMapping (si : structInspection)
    (cf keyField valueField : string) (componentFields : list string)
  : compactMapping :=
  {| m_sparse := newSparseMapping si cf keyField componentFields;
     m_value := valueField |}.

(** [strings.Split(s, ",")]. *)
Fixpoint splitComma (s : string) : list string :=
  match s with
  | EmptyString => [EmptyString]
  | String c rest =>
      if Ascii.eqb c "," then EmptyString :: splitComma rest
      else match splitComma rest with
           | [] => [String c EmptyString]
           | h :: t => String c h :: t
           end
  end.

(** The first element of [colsS] that is not the name of a field: the loop
    of NewMapping over the component names. *)
Fixpoint firstMissing (goFields : gmap string field) (colsS : list string)
  : option string :=
  match colsS with
  | [] => None
  | c :: rest =>
      match goFields !! c with
      | Some _ => firstMissing goFields rest
      | None => Some c
      end
  end.

Definition NewMapping (source : GoInterface) : result Mapping :=
  let* (_, si) := validateAndInspectStruct source in
  match globalTags si !! "cf" with
  | None => Err (ErrTagNotFound "cf" (rtypeName si))
  | Some cf =>
  match globalTags si !! "key" with
  | None => Err (ErrTagNotFound "key" (rtypeName si))
  | Some key =>
  match goFields si !! key with
  | None => Err (ErrKeyFieldNotFound key (rtypeName si))
  | Some _ =>
  let colsS :=
    match globalTags si !! "cols" with
    | Some cols => splitComma cols
    | None => []
    end in
  match firstMissing (goFields si) colsS with
  | Some c => Err (ErrCompositeFieldNotFound c (rtypeName si))
  | None =>
  let value := default "" (globalTags si !! "value") in
  match globalTags si !! "value", goFields si !! value with
  | Some _, None => Err (ErrValueFieldNotFound value (rtypeName si))
  | _, _ =>
  let mapping := default "sparse" (globalTags si !! "mapping") in
  if decide (mapping = "sparse") then
    Ok (Sparse (newSparseMapping si cf key colsS))
  else if decide (mapping = "compact") then
    Ok (Compact (newCompactMapping si cf key value colsS))
  else Err (ErrUnrecognizedMapping mapping (rtypeName si))
  end end end end end.

(** *** Map *)

(** The loop of startMap over [m.components], appending to [composite]. *)
Fixpoint marshalComponents `{Primitives} (si : structInspection)
    (v : structValue) (components : list string) (composite : bytes)
  : result bytes :=
  match components with
  | [] => Ok composite
  | c :: rest =>
      match goFields si !! c with
      | Some f =>
          let* b := marshalValue f v in
          marshalComponents si v rest (composite ++ packComposite b eocEquals)
      | None => Err (ErrMappingComponentFieldNotFound c (rtypeName si))
      end
  end.

Definition startMap `{Primitives} (m : sparseMapping) (source : GoInterface)
  : result (Row * structValue * structInspection * bytes) :=
  let* (v, si) := validateAndInspectStruct source in
  match goFields si !! m_key m with
  | Some f =>
      let* b := marshalValue f v in
      let row := {| Key := b; Columns := [] |} in
      let* composite := marshalComponents si v (m_components m) [] in
      Ok (row, v, si, composite)
  | None => Err (ErrMappingKeyFieldNotFound (m_key m) (rtypeName si))
  end.

(** The loop of Map over [si.orderedFields], appending to [row.Columns]. *)
Fixpoint mapColumns `{Primitives} (m : sparseMapping) (v : structValue)
    (composite : bytes) (fields : list field) (columns : list Column)
  : result (list Column) :=
  match fields with
  | [] => Ok columns
  | f :: rest =>
      if decide (name f = m_key m) then
        mapColumns m v composite rest columns
      else if decide (is_Some (m_componentsMap m !! name f)) then
        mapColumns m v composite rest columns
      else
        let* columnName := marshalName f in
        let cp :=
          if decide (0 < length composite)
          then composite ++ packComposite columnName eocEquals
          else columnName in
        let* columnValue := marshalValue f v in
        mapColumns m v composite rest (columns ++ [mkColumn cp columnValue])
  end.

Definition sparseMapping_Map `{Primitives} (m : sparseMapping)
    (source : GoInterface) : result Row :=
  let* (row, v, si, composite) := startMap m source in
  let* columns := mapColumns m v composite (orderedFields si) (Columns row) in
  Ok {| Key := Key row; Columns := columns |}.

Definition compactMapping_Map `{Primitives} (m : compactMapping)
    (source : GoInterface) : result Row :=
  let* (row, v, si, composite) := startMap (m_sparse m) source in
  match goFields si !! m_value m with
  | Some f =>
      let* columnValue := marshalValue f v in
      Ok {| Key := Key row;
            Columns := Columns row ++ [mkColumn composite columnValue] |}
  | None =>
      Ok {| Key := Key row; Columns := Columns row ++ [mkColumn composite []] |}
  end.

(** *** Unmap *)

Definition startUnmap `{Primitives} {P : Type} `{RowProvider P}
    (m : sparseMapping) (destination : GoInterface) (provider : P)
  : result (structValue * structInspection) :=
  let* (v, si) := validateAndInspectStruct destination in
  match goFields si !! m_key m with
  | Some f =>
      let* key := ProviderKey provider in
      let* v' := unmarshalValue f key v in
      Ok (v', si)
  | None => Err (ErrMappingKeyFieldNotFound (m_key m) (rtypeName si))
  end.

(** The loop of unmapComponents, from position [i] of [m.components] on. *)
Fixpoint unmapComponentsFrom `{Primitives} (si : structInspection) (i : nat)
    (names : list string) (components : list bytes) (v : structValue)
  : result structValue :=
  match names with
  | [] => Ok v
  | c :: rest =>
      match goFields si !! c with
      | Some f =>
          match components !! i with
          | Some b =>
              let* v' := unmarshalValue f b v in
              unmapComponentsFrom si (S i) rest components v'
          | None => Panic
          end
      | None => Err (ErrMappingComponentFieldNotFound c (rtypeName si))
      end
  end.

Definition unmapComponents `{Primitives} (m : sparseMapping) (v : structValue)
    (si : structInspection) (components : list bytes) : result structValue :=
  unmapComponentsFrom si 0 (m_components m) components v.

(** [typeName] is [v.Type().Name()], the only use the function makes of its
    argument [v]. *)
Definition extractComponents (m : sparseMapping) (column : Column)
    (typeName : string) (bias : nat) : result (list bytes) :=
  match (if decide (0 < length (m_components m))
         then unpackComposite (Name column)
         else Some [Name column]) with
  | None => Panic
  | Some components =>
      if decide (length components ≠ length (m_components m) + bias)
      then Err (ErrComponentCount typeName)
      else Ok components
  end.

(** The inner loop of isNewComponents: some byte of [p] differs from the
    byte of [n] at the same place ([p] and [n] have the same length). *)
Fixpoint bytesDiffer (p n : bytes) : bool :=
  match p, n with
  | a :: p', b :: n' => if Byte.eqb a b then bytesDiffer p' n' else true
  | _, _ => false
  end.

(** The outer loop of isNewComponents over the first [count] components. *)
Fixpoint componentsDiffer (count : nat) (prev next : list bytes) : bool :=
  match count, prev, next with
  | S count', p :: prev', n :: next' =>
      if decide (length p ≠ length n) then true
      else if bytesDiffer p n then true
      else componentsDiffer count' prev' next'
  | _, _, _ => false
  end.

Definition isNewComponents (prev next : list bytes) (bias : nat) : bool :=
  if decide (length prev ≠ length next) then true
  else componentsDiffer (length prev - bias) prev next.

(** The variables of the loop of Unmap. *)
Record unmapState (P : Type) : Type := {
  us_v : structValue;
  us_provider : P;
  compositeFieldsAreSet : bool;
  previousComponents : list bytes
}.

Arguments us_v {P} _.
Arguments us_provider {P} _.
Arguments compositeFieldsAreSet {P} _.
Arguments previousComponents {P} _.

(** One round of the loop goes on to the next round or leaves Unmap. *)
Inductive unmapStep (P : Type) : Type :=
| Continue (st : unmapState P)
| Return (r : result structValue) (provider : P).

Arguments Continue {P} st.
Arguments Return {P} r provider.

(** The end of a round of the loop ("lookup field by name"). *)
Definition lookupFieldByName `{Primitives} {P : Type} (si : structInspection)
    (column : Column) (components : list bytes) (v : structValue)
    (provider : P) : unmapStep P :=
  match last components with
  | None => Return Panic provider
  | Some nameBytes =>
      match Unmarshal nameBytes UTF8Type (VString "") with
      | Ok (VString name) =>
          match cassandraFields si !! name with
          | Some f =>
              match unmarshalValue f (Value column) v with
              | Ok v' =>
                  Continue {| us_v := v'; us_provider := provider;
                              compositeFieldsAreSet := true;
                              previousComponents := components |}
              | Err e => Return (Err (ErrUnmarshalColumn name e)) provider
              | Panic => Return Panic provider
              end
          | None =>
              Continue {| us_v := v; us_provider := provider;
                          compositeFieldsAreSet := true;
                          previousComponents := components |}
          end
      | Ok _ => Return Panic provider
      | Err e => Return (Err (ErrFieldNameNotUTF8 (rtypeName si) e)) provider
      | Panic => Return Panic provider
      end
  end.

(** One round of the loop of Unmap. *)
Definition unmapBody `{Primitives} {P : Type} `{RowProvider P}
    (m : sparseMapping) (si : structInspection) (st : unmapState P)
  : unmapStep P :=
  let '(next, provider) := NextColumn (us_provider st) in
  match next with
  | Err Done => Return (Err Done) provider
  | Err EndBeforeLimit =>
      if compositeFieldsAreSet st then Return (Ok (us_v st)) provider
      else Return (Err Done) provider
  | Err EndAtLimit => Return (Err Done) provider
  | Err e => Return (Err e) provider
  | Panic => Return Panic provider
  | Ok column =>
      match extractComponents m column (rtypeName si) 1 with
      | Err e => Return (Err e) provider
      | Panic => Return Panic provider
      | Ok components =>
          if negb (compositeFieldsAreSet st) then
            match unmapComponents m (us_v st) si components with
            | Err e => Return (Err e) provider
            | Panic => Return Panic provider
            | Ok v => lookupFieldByName si column components v provider
            end
          else if isNewComponents (previousComponents st) components 1 then
            Return (Ok (us_v st)) (Rewind provider)
          else lookupFieldByName si column components (us_v st) provider
      end
  end.

(** The loop of Unmap; [None] when [fuel] rounds were not enough. *)
Fixpoint unmapLoop `{Primitives} {P : Type} `{RowProvider P} (fuel : nat)
    (m : sparseMapping) (si : structInspection) (st : unmapState P)
  : option (result structValue * P) :=
  match fuel with
  | O => None
  | S fuel' =>
      match unmapBody m si st with
      | Continue st' => unmapLoop fuel' m si st'
      | Return r provider => Some (r, provider)
      end
  end.

Definition unmapStart {P : Type} (v : structValue) (provider : P)
  : unmapState P :=
  {| us_v := v; us_provider := provider; compositeFieldsAreSet := false;
     previousComponents := [] |}.

(** Unmap of the sparse mapping.  The result is the content of the
    destination when Unmap returns [nil], the error it returns otherwise,
    together with the provider as Unmap leaves it. *)
Definition sparseMapping_Unmap `{Primitives} {P : Type} `{RowProvider P}
    (fuel : nat) (m : sparseMapping) (destination : GoInterface)
    (provider : P) : option (result structValue * P) :=
  match startUnmap m destination provider with
  | Ok (v, si) => unmapLoop fuel m si (unmapStart v provider)
  | Err e => Some (Err e, provider)
  | Panic => Some (Panic, provider)
  end.

Definition compactMapping_Unmap `{Primitives} {P : Type} `{RowProvider P}
    (m : compactMapping) (destination : GoInterface) (provider : P)
  : result structValue * P :=
  match startUnmap (m_sparse m) destination provider with
  | Err e => (Err e, provider)
  | Panic => (Panic, provider)
  | Ok (v, si) =>
      let '(next, provider) := NextColumn provider in
      match next with
      | Err Done => (Err Done, provider)
      | Err EndBeforeLimit => (Err Done, provider)
      | Err EndAtLimit => (Err Done, provider)
      | Err e => (Err e, provider)
      | Panic => (Panic, provider)
      | Ok column =>
          (match extractComponents (m_sparse m) column (rtypeName si) 0 with
           | Err e => Err e
           | Panic => Panic
           | Ok components =>
               let* v := unmapComponents (m_sparse m) v si components in
               match goFields si !! m_value m with
               | Some f =>
                   match unmarshalValue f (Value column) v with
                   | Ok v' => Ok v'
                   | Err e => Err (ErrCompactValue e)
                   | Panic => Panic
                   end
               | None => Ok v
               end
           end, provider)
      end
  end.

(** The variables of the loop of Unmap after [n] rounds that all went on
    to the next one, each having consumed one column; [None] when Unmap
    returns within these rounds. *)
Fixpoint unmapRounds `{Primitives} {P : Type} `{RowProvider P} (n : nat)
    (m : sparseMapping) (si : structInspection) (st : unmapState P)
  : option (unmapState P) :=
  match n with
  | O => Some st
  | S n' =>
      match unmapBody m si st with
      | Continue st' => unmapRounds n' m si st'
      | Return _ _ => None
      end
  end.

(** The components that extractComponents finds in the name of a column. *)
Definition componentsFound (m : sparseMapping) (column : Column)
  : option (list bytes) :=
  if decide (0 < length (m_components m))
  then unpackComposite (Name column)
  else Some [Name column].

(** The component prefix of a column: its components without the trailing
    field-name component. *)
Definition groupOf (components : list bytes) : list bytes :=
  take (length components - 1) components.

(** The interface methods. *)
Definition Map `{Primitives} (m : Mapping) (source : GoInterface)
  : result Row :=
  match m with
  | Sparse sm => sparseMapping_Map sm source
  | Compact cm => compactMapping_Map cm source
  end.

Definition Unmap `{Primitives} {P : Type} `{RowProvider P} (fuel : nat)
    (m : Mapping) (destination : GoInterface) (provider : P)
  : option (result structValue * P) :=
  match m with
  | Sparse sm => sparseMapping_Unmap fuel sm destination provider
  | Compact cm => Some (compactMapping_Unmap cm destination provider)
  end.

(** ** A concrete instance *)

(** Big-endian bytes of a number, [width] of them. *)
Fixpoint bigEndian (width : nat) (n : N) : bytes :=
  match width with
  | O => []
  | S w => bigEndian w (n / 256) ++ [byte_of_N n]
  end.

Definition fromBigEndian (b : bytes) : N :=
  foldl (fun acc x => (acc * 256 + Byte.to_N x)%N) 0%N b.

(** The encodings of the store for the types of the examples: a string is
    its bytes (UTF8Type, AsciiType), an integer its eight big-endian bytes
    in two's complement (LongType), a boolean one byte (BooleanType), a byte
    string itself (BytesType). *)
Definition wireMarshal (x : GoValue) (t : TypeDesc) : result bytes :=
  match x, t with
  | VString s, UTF8Type => Ok (list_byte_of_string s)
  | VString s, AsciiType => Ok (list_byte_of_string s)
  | VInt z, LongType => Ok (bigEndian 8 (Z.to_N (z mod 2 ^ 64)))
  | VBool b, BooleanType => Ok [if b then x01 else x00]
  | VBytes b, BytesType => Ok b
  | _, _ => Err (ErrCodec "type not supported")
  end.

Definition wireUnmarshal (b : bytes) (t : TypeDesc) (d : GoValue)
  : result GoValue :=
  match d, t with
  | VString _, UTF8Type => Ok (VString (string_of_list_byte b))
  | VString _, AsciiType => Ok (VString (string_of_list_byte b))
  | VInt _, LongType =>
      if decide (length b = 8) then
        let n := Z.of_N (fromBigEndian b) in
        Ok (VInt (if decide (n < 2 ^ 63)%Z then n else (n - 2 ^ 64)%Z))
      else Err (ErrCodec "wrong number of bytes")
  | VBool _, BooleanType =>
      match b with
      | [x] => Ok (VBool (negb (Byte.eqb x x00)))
      | _ => Err (ErrCodec "wrong number of bytes")
      end
  | VBytes _, BytesType => Ok (VBytes b)
  | _, _ => Err (ErrCodec "type not supported")
  end.

Definition wirePrimitives : Primitives :=
  {| Marshal := wireMarshal; Unmarshal := wireUnmarshal; eocEquals := x00 |}.

(** A look-up table of fields by the name [key] gives them, filled field
    after field: a later field replaces an earlier one of the same name. *)
Definition fieldTable (key : field -> string) (acc : gmap string field)
    (fields : list field) : gmap string field :=
  foldl (fun t f => <[key f := f]> t) acc fields.

(** A struct inspection from the fields in declaration order and the struct
    tags. *)
Definition newStructInspection (typeName : string) (fields : list field)
    (tags : list (string * string)) : structInspection :=
  {| rtypeName := typeName;
     goFields := fieldTable name ∅ fields;
     cassandraFields := fieldTable cassandraName ∅ fields;
     orderedFields := fields;
     globalTags := list_to_map tags |}.

Definition newField (n : string) (i : nat) (t : TypeDesc) : field :=
  {| name := n; index := i; cassandraType := t; cassandraName := n |}.

(** The record type of the scenario of section 8 of the specification, a
    sparse mapping with one component field. *)
Module Users.

Definition fields : list field :=
  [newField "Id" 0 UTF8Type; newField "Kind" 1 UTF8Type;
   newField "Name" 2 UTF8Type; newField "Age" 3 LongType].

Definition inspection : structInspection :=
  newStructInspection "User" fields
    [("cf", "users"); ("key", "Id"); ("cols", "Kind")].

Definition alice : structValue :=
  [VString "u1"; VString "profile"; VString "Alice"; VInt 30].

Definition blank : structValue :=
  [VString ""; VString ""; VString ""; VInt 0].

Definition mapping : sparseMapping :=
  newSparseMapping inspection "users" "Id" ["Kind"].

(** The column of the field called [fieldName] in the group [kind]. *)
Definition column (kind fieldName : string) (value : bytes) : Column :=
  mkColumn
    (pack x00 [list_byte_of_string kind; list_byte_of_string fieldName])
    value.

Definition long30 : bytes := [x00; x00; x00; x00; x00; x00; x00; x1e].
Definition long31 : bytes := [x00; x00; x00; x00; x00; x00; x00; x1f].

Definition aliceRow : Row :=
  {| Key := list_byte_of_string "u1";
     Columns := [column "profile" "Name" (list_byte_of_string "Alice");
                 column "profile" "Age" long30] |}.

(** One physical row holding two logical records, the groups "profile"
    and "settings". *)
Definition twoGroups : list Column :=
  [column "profile" "Name" (list_byte_of_string "Alice");
   column "profile" "Age" long30;
   column "settings" "Name" (list_byte_of_string "Al");
   column "settings" "Age" long31].

(** The first group with a column of a field the struct does not have. *)
Definition withEmail : list Column :=
  [column "profile" "Name" (list_byte_of_string "Alice");
   column "profile" "Email" (list_byte_of_string "a@example.org");
   column "profile" "Age" long30].

(** A column whose name holds one component, where the mapping has two. *)
Definition short : Column :=
  mkColumn (pack x00 [list_byte_of_string "profile"])
    (list_byte_of_string "Alice").

Definition provider (columns : list Column) (signal : error)
  : sliceProvider :=
  newSliceProvider (list_byte_of_string "u1") columns signal.

Definition keyed : structValue :=
  [VString "u1"; VString ""; VString ""; VInt 0].

Definition named : structValue :=
  [VString "u1"; VString "profile"; VString "Alice"; VInt 0].

End Users.

(** A sparse mapping over a struct that has a key and a component field and
    no other field. *)
Module Tags.

Definition fields : list field :=
  [newField "Id" 0 UTF8Type; newField "Kind" 1 UTF8Type].

Definition inspection : structInspection :=
  newStructInspection "Tag" fields
    [("cf", "tags"); ("key", "Id"); ("cols", "Kind")].

Definition record : structValue := [VString "t1"; VString "red"].
Definition blank : structValue := [VString ""; VString ""].

Definition mapping : sparseMapping :=
  newSparseMapping inspection "tags" "Id" ["Kind"].

End Tags.

(** A compact mapping without component fields. *)
Module Events.

Definition fields : list field :=
  [newField "Id" 0 UTF8Type; newField "Val" 1 UTF8Type].

Definition inspection : structInspection :=
  newStructInspection "Event" fields
    [("cf", "events"); ("key", "Id"); ("value", "Val");
     ("mapping", "compact")].

Definition record : structValue := [VString "e1"; VString "x"].
Definition blank : structValue := [VString ""; VString ""].

Definition mapping : compactMapping :=
  newCompactMapping inspection "events" "Id" "Val" [].

Definition row : Row :=
  {| Key := list_byte_of_string "e1";
     Columns := [mkColumn [] (list_byte_of_string "x")] |}.

End Events.

(** A compact mapping with one component field. *)
Module Readings.

Definition fields : list field :=
  [newField "Id" 0 UTF8Type; newField "Kind" 1 UTF8Type;
   newField "Val" 2 LongType].

Definition inspection : structInspection :=
  newStructInspection "Reading" fields
    [("cf", "readings"); ("key", "Id"); ("cols", "Kind");
     ("value", "Val"); ("mapping", "compact")].

Definition record : structValue :=
  [VString "r1"; VString "temp"; VInt 30].
Definition blank : structValue := [VString ""; VString ""; VInt 0].

Definition mapping : compactMapping :=
  newCompactMapping inspection "readings" "Id" "Val" ["Kind"].

Definition row : Row :=
  {| Key := list_byte_of_string "r1";
     Columns := [mkColumn (pack x00 [list_byte_of_string "temp"])
                   Users.long30] |}.

End Readings.

(** A component fits the 2-byte length prefix. *)
Definition fitsUint16 (c : bytes) : Prop := (N.of_nat (length c) < 65536)%N.

(** A component of 65536 bytes: its length does not fit the prefix. *)
Definition overlong : bytes := repeat x00 (N.to_nat 65536).

(** The configuration errors of section 7 of the specification, read on the
    struct tags and the field table of a struct inspection. *)
Definition configurationError (si : structInspection) : Prop :=
  globalTags si !! "cf" = None
  \/ globalTags si !! "key" = None
  \/ (exists key, globalTags si !! "key" = Some key
                  /\ goFields si !! key = None)
  \/ (exists cols c, globalTags si !! "cols" = Some cols
                     /\ c ∈ splitComma cols /\ goFields si !! c = None)
  \/ (exists value, globalTags si !! "value" = Some value
                    /\ goFields si !! value = None)
  \/ (exists mapping, globalTags si !! "mapping" = Some mapping
                      /\ mapping <> "sparse" /\ mapping <> "compact").

(** *** What the round trips assume *)

(** The codec gives a field of the record [r] back: what Marshal makes of
    the value of the field, Unmarshal reads back into a destination of the
    same Go type. *)
Definition fieldRoundTrips `{Primitives} (r : structValue) (f : field)
  : Prop :=
  forall x b d,
    r !! index f = Some x ->
    Marshal x (cassandraType f) = Ok b ->
    goTypeOf d = goTypeOf x ->
    Unmarshal b (cassandraType f) d = Ok x.

(** The codec gives the store-facing name of a field back. *)
Definition nameRoundTrips `{Primitives} (f : field) : Prop :=
  forall b,
    Marshal (VString (cassandraName f)) UTF8Type = Ok b ->
    Unmarshal b UTF8Type (VString "") = Ok (VString (cassandraName f)).

(** A destination of the struct type of [r]: as many fields, of the same Go
    types. *)
Definition sameShape (dest r : structValue) : Prop :=
  Forall2 (fun d x => goTypeOf d = goTypeOf x) dest r.

(** The destination [v] while the record [r] is decoded into it: it has the
    shape of [r], and the fields at the positions in [I] hold the values
    of [r]. *)
Definition decodedOn (I : nat -> Prop) (r v : structValue) : Prop :=
  length v = length r
  /\ forall i x, r !! i = Some x ->
       exists d, v !! i = Some d /\ goTypeOf d = goTypeOf x /\ (I i -> d = x).

(** Every field of the record [r] is one of the fields called [names]. *)
Definition fieldsAmong (si : structInspection) (names : list string)
    (r : structValue) : Prop :=
  forall i, i < length r ->
    exists n f, n ∈ names /\ goFields si !! n = Some f /\ index f = i.

(** The two look-up tables of the inspection index the declared fields, by
    Go name and by store-facing name. *)
Definition registryConsistent (si : structInspection) : Prop :=
  (forall f, f ∈ orderedFields si ->
     goFields si !! name f = Some f
     /\ cassandraFields si !! cassandraName f = Some f)
  /\ (forall n f, goFields si !! n = Some f -> f ∈ orderedFields si).

(** The marshalled values of the component fields [names] of the record
    [r] fit the length prefix of the composite codec. *)
Definition componentsFit `{Primitives} (si : structInspection)
    (names : list string) (r : structValue) : Prop :=
  forall c f b,
    c ∈ names -> goFields si !! c = Some f -> marshalValue f r = Ok b ->
    fitsUint16 b.

(** The component field called [c] marshals to [b]. *)
Definition marshalsTo `{Primitives} (si : structInspection) (r : structValue)
    (c : string) (b : bytes) : Prop :=
  exists f, goFields si !! c = Some f /\ marshalValue f r = Ok b.

(** The fields for which Map of the sparse mapping writes a column: all
    but the key field and the component fields. *)
Definition isDataField (m : sparseMapping) (f : field) : Prop :=
  name f <> m_key m /\ ~ is_Some (m_componentsMap m !! name f).

#[export] Instance isDataField_dec (m : sparseMapping) (f : field)
  : Decision (isDataField m f).
Proof. unfold isDataField. apply _. Defined.

(** The column that Map of the sparse mapping writes for the field [f] of
    the record [r], after the packed components [composite]. *)
Definition columnOf `{Primitives} (r : structValue) (composite : bytes)
    (f : field) (column : Column) : Prop :=
  exists columnName,
    marshalName f = Ok columnName
    /\ marshalValue f r = Ok (Value column)
    /\ Name column
       = if decide (0 < length composite)
         then composite ++ packComposite columnName eocEquals
         else columnName.

(** Tactics for the examples: case analysis over a list of fields given in
    full, and the round trip of the wire codec on a field given in full. *)
Ltac each_field H :=
  repeat (apply elem_of_cons in H as [->|H]); [..|by apply elem_of_nil in H].

Ltac wire_field_round_trips :=
  let x := fresh "x" in
  let b := fresh "b" in
  let d := fresh "d" in
  let Hx := fresh "Hx" in
  let Hb := fresh "Hb" in
  let Hty := fresh "Hty" in
  intros x b d Hx Hb Hty; vm_compute in Hx; injection Hx as <-;
  vm_compute in Hb; injection Hb as <-;
  destruct d; try discriminate Hty; vm_compute; reflexivity.

Ltac wire_name_round_trips :=
  let b := fresh "b" in
  let Hb := fresh "Hb" in
  intros b Hb; vm_compute in Hb; injection Hb as <-; vm_compute; reflexivity.

(** ** The other functions of mapping.go and schema.go *)

(** The messages of the functions below, one constructor per message built
    with [errors.New(fmt.Sprint(...))], carrying the values printed in it. *)
Inductive message : Type :=
| MsgKeyValue (fieldName : string) (cause : error)
| MsgComponentPosition (componentLength : nat) (position : Z)
| MsgComponentValue (fieldName : string) (cause : error)
| MsgMapKey (key : string) (cause : error)
| MsgMapFieldValue (k : string) (cause : error)
| MsgMapFieldName (k : string) (cause : error)
| MsgRowNil
| MsgRowFieldValue (colName : string) (cause : error)
| MsgRowFieldName (colName : string) (cause : error).

(** What a call of these functions produces: a value, an error with one of
    the messages above, or a run-time panic (a nil pointer dereferenced, an
    index out of range). *)
Inductive outcome (A : Type) : Type :=
| Returns (a : A)
| Fails (msg : message)
| Panics.

Arguments Returns {A} a.
Arguments Fails {A} msg.
Arguments Panics {A}.

(** *** Cf, MarshalKey, MarshalComponent *)

(** The sparse mapping inside a mapping: the compact mapping embeds one, and
    the methods it does not define itself are those of that mapping. *)
Definition sparsePart (m : Mapping) : sparseMapping :=
  match m with
  | Sparse sm => sm
  | Compact cm => m_sparse cm
  end.

Definition Cf (m : Mapping) : string := m_cf (sparsePart m).

(** [m.si.goFields[m.key]] is nil when the key names no field, and the use
    of [f.cassandraType] then panics. *)
Definition sparseMapping_MarshalKey `{Primitives} (m : sparseMapping)
    (key : GoValue) : outcome bytes :=
  match goFields (m_si m) !! m_key m with
  | None => Panics
  | Some f =>
      match Marshal key (cassandraType f) with
      | Ok b => Returns b
      | Err e => Fails (MsgKeyValue (name f) e)
      | Panic => Panics
      end
  end.

(** [position] is a Go [int]; [m.components[position]] panics when it is
    negative. *)
Definition sparseMapping_MarshalComponent `{Primitives} (m : sparseMapping)
    (component : GoValue) (position : Z) : outcome bytes :=
  if decide (Z.of_nat (length (m_components m)) <= position)%Z then
    Fails (MsgComponentPosition (length (m_components m)) position)
  else if decide (position < 0)%Z then Panics
  else
    match m_components m !! Z.to_nat position with
    | None => Panics
    | Some c =>
        match goFields (m_si m) !! c with
        | None => Panics
        | Some f =>
            match Marshal component (cassandraType f) with
            | Ok b => Returns b
            | Err e => Fails (MsgComponentValue (name f) e)
            | Panic => Panics
            end
        end
    end.

Definition MarshalKey `{Primitives} (m : Mapping) (key : GoValue)
  : outcome bytes :=
  sparseMapping_MarshalKey (sparsePart m) key.

Definition MarshalComponent `{Primitives} (m : Mapping)
    (component : GoValue) (position : Z) : outcome bytes :=
  sparseMapping_MarshalComponent (sparsePart m) component position.

(** The provider after [k] calls of NextColumn. *)
Fixpoint advance {P : Type} `{RowProvider P} (k : nat) (p : P) : P :=
  match k with
  | O => p
  | S k' => advance k' (snd (NextColumn p))
  end.

(** *** MapToRow and RowToMap *)

(** [defaultType], which mapping.go calls and does not define: the type tag
    that the codec uses for a Go type. *)
Class Defaults : Type := {
  defaultType : GoType -> TypeDesc
}.

(** The value [reflect.New(t)] points to. *)
Definition zeroValue (t : GoType) : GoValue :=
  match t with
  | TString => VString ""
  | TInt => VInt 0
  | TBool => VBool false
  | TBytes => VBytes []
  end.

(** The loop of MapToRow.  [entries] are the entries of the Go map in the
    order in which the [range] statement visits them; [columns] are the
    columns already stored in [cols]. *)
Fixpoint mapToColumns `{Primitives} `{Defaults} (timeStamp : Z)
    (entries : list (string * GoValue)) (columns : list Column)
  : outcome (list Column) :=
  match entries with
  | [] => Returns columns
  | (k, v) :: rest =>
      let ctype := defaultType (goTypeOf v) in
      match Marshal v ctype with
      | Err e => Fails (MsgMapFieldValue k e)
      | Panic => Panics
      | Ok serializedV =>
          match Marshal (VString k) UTF8Type with
          | Err e => Fails (MsgMapFieldName k e)
          | Panic => Panics
          | Ok serializedK =>
              mapToColumns timeStamp rest
                (columns ++ [{| Name := serializedK; Value := serializedV;
                                Ttl := 0; Timestamp := timeStamp |}])
          end
      end
  end.

(** [timeStamp] is what [now()] returns when MapToRow calls it. *)
Definition MapToRow `{Primitives} `{Defaults} (timeStamp : Z) (key : string)
    (entries : list (string * GoValue)) : outcome Row :=
  match Marshal (VString key) UTF8Type with
  | Err e => Fails (MsgMapKey key e)
  | Panic => Panics
  | Ok serializedKey =>
      match mapToColumns timeStamp entries [] with
      | Returns cols => Returns {| Key := serializedKey; Columns := cols |}
      | Fails msg => Fails msg
      | Panics => Panics
      end
  end.

(** The loop of RowToMap over [r.Columns], filling [ret]. *)
Fixpoint rowToMapColumns `{Primitives} `{Defaults}
    (scheme : gmap string GoValue) (columns : list Column)
    (ret : gmap string GoValue) : outcome (gmap string GoValue) :=
  match columns with
  | [] => Returns ret
  | col :: rest =>
      let colName := string_of_list_byte (Name col) in
      match scheme !! colName with
      | None => rowToMapColumns scheme rest ret
      | Some schVal =>
          let ctype := defaultType (goTypeOf schVal) in
          match Unmarshal (Value col) ctype (zeroValue (goTypeOf schVal)) with
          | Err e => Fails (MsgRowFieldValue colName e)
          | Panic => Panics
          | Ok mapVal =>
              match Unmarshal (Name col) UTF8Type (VString "") with
              | Err e => Fails (MsgRowFieldName colName e)
              | Panic => Panics
              | Ok (VString mapKey) =>
                  rowToMapColumns scheme rest (<[mapKey := mapVal]> ret)
              | Ok _ => Panics
              end
          end
      end
  end.

(** [r] is a pointer to a row, [None] when it is nil. *)
Definition RowToMap `{Primitives} `{Defaults} (scheme : gmap string GoValue)
    (r : option Row) : outcome (gmap string GoValue) :=
  match r with
  | None => Fails MsgRowNil
  | Some row => rowToMapColumns scheme (Columns row) ∅
  end.

(** The column MapToRow writes for an entry of the map. *)
Definition columnOfEntry `{Primitives} `{Defaults} (timeStamp : Z) (entry : string * GoValue)
    (column : Column) : Prop :=
  Marshal (VString entry.1) UTF8Type = Ok (Name column)
  /\ Marshal entry.2 (defaultType (goTypeOf entry.2)) = Ok (Value column)
  /\ Ttl column = 0%Z
  /\ Timestamp column = timeStamp.

(** *** newSchema *)

(** [parseTypeClass] and its result type, which schema.go uses and does not
    define. *)
Class TypeClasses : Type := {
  TypeClass : Type;
  parseTypeClass : string -> TypeClass
}.

(** The keyspace definition as newSchema reads it: the fields it uses, the
    ones it dereferences being pointers that may be nil. *)
Record ColumnDef : Type := {
  ColumnDef_Name : bytes;
  ValidationClass : string
}.

Record CfDef : Type := {
  CfDef_Name : string;
  ColumnType : option string;
  ComparatorType : option string;
  DefaultValidationClass : option string;
  KeyValidationClass : option string;
  ColumnMetadata : option (list (option ColumnDef))
}.

Record KsDef : Type := {
  CfDefs : list (option CfDef)
}.

Record ColumnFamily `{TypeClasses} : Type := {
  DefaultComparator : TypeClass;
  DefaultValidator : TypeClass;
  KeyValidator : TypeClass;
  NamedColumns : gmap string TypeClass
}.

Record Schema `{TypeClasses} : Type := {
  ColumnFamilies : gmap string ColumnFamily
}.

(** The inner loop of newSchema, filling [cf.NamedColumns]. *)
Fixpoint namedColumns `{TypeClasses} (metadata : list (option ColumnDef))
    (named : gmap string TypeClass) : gmap string TypeClass :=
  match metadata with
  | [] => named
  | None :: rest => namedColumns rest named
  | Some colDef :: rest =>
      namedColumns rest
        (<[string_of_list_byte (ColumnDef_Name colDef)
           := parseTypeClass (ValidationClass colDef)]> named)
  end.

(** The outer loop of newSchema, filling [schema.ColumnFamilies]; [None]
    when a nil pointer is dereferenced. *)
Fixpoint columnFamilies `{TypeClasses} (cfDefs : list (option CfDef))
    (families : gmap string ColumnFamily)
  : option (gmap string ColumnFamily) :=
  match cfDefs with
  | [] => Some families
  | None :: rest => columnFamilies rest families
  | Some cfDef :: rest =>
      match ColumnType cfDef with
      | None => None
      | Some columnType =>
          if decide (columnType <> "Standard") then
            columnFamilies rest families
          else
            match ComparatorType cfDef, DefaultValidationClass cfDef,
                  KeyValidationClass cfDef, ColumnMetadata cfDef with
            | Some comparator, Some validator, Some keyValidator,
              Some metadata =>
                columnFamilies rest
                  (<[CfDef_Name cfDef
                     := {| DefaultComparator := parseTypeClass comparator;
                           DefaultValidator := parseTypeClass validator;
                           KeyValidator := parseTypeClass keyValidator;
                           NamedColumns := namedColumns metadata ∅ |}]>
                     families)
            | _, _, _, _ => None
            end
      end
  end.

(** [ksDef] is a pointer to the keyspace definition, [None] when it is
    nil: [ksDef.CfDefs], the first thing newSchema reads, then panics.  The
    result is [None] when newSchema panics. *)
Definition newSchema `{TypeClasses} (ksDef : option KsDef) : option Schema :=
  match ksDef with
  | None => None
  | Some definition =>
      match columnFamilies (CfDefs definition) ∅ with
      | Some families => Some {| ColumnFamilies := families |}
      | None => None
      end
  end.

(** The column families newSchema translates: those of type "Standard". *)
Definition isStandard (cfDef : CfDef) : Prop :=
  ColumnType cfDef = Some "Standard".

(** A column-family definition that newSchema reads without dereferencing
    a nil pointer. *)
Definition readable (cfDef : CfDef) : Prop :=
  match ColumnType cfDef with
  | None => False
  | Some columnType =>
      columnType = "Standard" ->
      is_Some (ComparatorType cfDef)
      /\ is_Some (DefaultValidationClass cfDef)
      /\ is_Some (KeyValidationClass cfDef)
      /\ is_Some (ColumnMetadata cfDef)
  end.

(** The column family newSchema stores for a definition of type
    "Standard"; [None] when one of the pointers it dereferences is nil. *)
Definition translate `{TypeClasses} (cfDef : CfDef) : option ColumnFamily :=
  match ComparatorType cfDef, DefaultValidationClass cfDef,
        KeyValidationClass cfDef, ColumnMetadata cfDef with
  | Some comparator, Some validator, Some keyValidator, Some metadata =>
      Some {| DefaultComparator := parseTypeClass comparator;
              DefaultValidator := parseTypeClass validator;
              KeyValidator := parseTypeClass keyValidator;
              NamedColumns := namedColumns metadata ∅ |}
  | _, _, _, _ => None
  end.

(** *** What Unmap writes *)

(** The destination [v'] has the fields of [v] and holds the same values
    outside the positions in [T]. *)
Definition unchangedOutside (T : nat -> Prop) (v v' : structValue) : Prop :=
  length v' = length v /\ forall i, ~ T i -> v' !! i = v !! i.

(** The positions of the fields Unmap may store into: the key field, the
    component fields, and the fields known by a store-facing name for the
    sparse mapping, the value field for the compact one. *)
Definition writtenBy (m : Mapping) (si : structInspection) (i : nat)
  : Prop :=
  exists f,
    index f = i
    /\ (goFields si !! m_key (sparsePart m) = Some f
        \/ (exists c, c ∈ m_components (sparsePart m)
                      /\ goFields si !! c = Some f)
        \/ match m with
           | Sparse _ => exists n, cassandraFields si !! n = Some f
           | Compact cm => goFields si !! m_value cm = Some f
           end).

(** ** Sample values for the other functions *)

(** The type tag the codec of the examples takes for a Go type. *)
Definition wireDefaults : Defaults :=
  {| defaultType := fun t =>
       match t with
       | TString => UTF8Type
       | TInt => LongType
       | TBool => BooleanType
       | TBytes => BytesType
       end |}.

(** Type classes kept as the names they are parsed from. *)
Definition classNames : TypeClasses :=
  {| TypeClass := string; parseTypeClass := fun n => n |}.

(** A second record of the type of [Users], with the key of [Users.alice]
    and another value in the component field. *)
Module Settings.

Definition record : structValue :=
  [VString "u1"; VString "settings"; VString "Al"; VInt 31].

Definition row : Row :=
  {| Key := list_byte_of_string "u1";
     Columns := [Users.column "settings" "Name" (list_byte_of_string "Al");
                 Users.column "settings" "Age" Users.long31] |}.

(** A record whose field [Age] holds a string, which the codec refuses. *)
Definition mistyped : structValue :=
  [VString "u1"; VString "settings"; VString "Al"; VString "31"].

End Settings.

(** A compact mapping over a struct with a field that is neither key, nor
    component, nor value. *)
Module Notes.

Definition fields : list field :=
  [newField "Id" 0 UTF8Type; newField "Kind" 1 UTF8Type;
   newField "Val" 2 UTF8Type; newField "Draft" 3 UTF8Type].

Definition inspection : structInspection :=
  newStructInspection "Note" fields
    [("cf", "notes"); ("key", "Id"); ("cols", "Kind"); ("value", "Val");
     ("mapping", "compact")].

Definition mapping : compactMapping :=
  newCompactMapping inspection "notes" "Id" "Val" ["Kind"].

Definition kept : structValue :=
  [VString ""; VString ""; VString ""; VString "kept"].

Definition read : structValue :=
  [VString "n1"; VString "todo"; VString "x"; VString "kept"].

Definition row : Row :=
  {| Key := list_byte_of_string "n1";
     Columns := [mkColumn (pack x00 [list_byte_of_string "todo"])
                   (list_byte_of_string "x")] |}.

End Notes.

(** A Go map and a scheme for it. *)
Module Profile.

Definition entries : list (string * GoValue) :=
  [("name", VString "Alice"); ("age", VInt 30)].

Definition scheme : gmap string GoValue :=
  list_to_map [("name", VString ""); ("age", VInt 0)].

Definition row : Row :=
  {| Key := list_byte_of_string "u1";
     Columns := [{| Name := list_byte_of_string "name";
                    Value := list_byte_of_string "Alice";
                    Ttl := 0; Timestamp := 7 |};
                 {| Name := list_byte_of_string "age";
                    Value := Users.long30;
                    Ttl := 0; Timestamp := 7 |}] |}.

End Profile.

(** A keyspace definition with a nil entry, a column family of another
    column type whose other pointers are nil, and two "Standard" column
    families of one name. *)
Module Keyspace.

Definition email : ColumnDef :=
  {| ColumnDef_Name := list_byte_of_string "email";
     ValidationClass := "UTF8Type" |}.

Definition age : ColumnDef :=
  {| ColumnDef_Name := list_byte_of_string "age";
     ValidationClass := "LongType" |}.

Definition counters : CfDef :=
  {| CfDef_Name := "counters";
     ColumnType := Some "Super";
     ComparatorType := None;
     DefaultValidationClass := None;
     KeyValidationClass := None;
     ColumnMetadata := None |}.

Definition early : CfDef :=
  {| CfDef_Name := "users";
     ColumnType := Some "Standard";
     ComparatorType := Some "BytesType";
     DefaultValidationClass := Some "BytesType";
     KeyValidationClass := Some "BytesType";
     ColumnMetadata := Some [] |}.

Definition users : CfDef :=
  {| CfDef_Name := "users";
     ColumnType := Some "Standard";
     ComparatorType := Some "UTF8Type";
     DefaultValidationClass := Some "BytesType";
     KeyValidationClass := Some "UTF8Type";
     ColumnMetadata := Some [Some email; None; Some age] |}.

Definition ksDef : KsDef :=
  {| CfDefs := [None; Some early; Some counters] ++ Some users :: [None] |}.

(** The column family and the schema expected for [ksDef]. *)
Definition family : @ColumnFamily classNames :=
  {| DefaultComparator := "UTF8Type" : @TypeClass classNames;
     DefaultValidator := "BytesType" : @TypeClass classNames;
     KeyValidator := "UTF8Type" : @TypeClass classNames;
     NamedColumns :=
       <["age" := "LongType" : @TypeClass classNames]>
         (<["email" := "UTF8Type" : @TypeClass classNames]> ∅) |}.

Definition schema : @Schema classNames :=
  {| ColumnFamilies := <["users" := family]> ∅ |}.

End Keyspace.

(** * Properties *)

(** *** Facts about the codec *)

Lemma byte_of_N_to_N (n : N) : (n < 256)%N -> Byte.to_N (byte_of_N n) = n.
Proof.
  intros Hn. unfold byte_of_N. rewrite N.mod_small by exact Hn.
  destruct (Byte.of_N n) as [b|] eqn:E.
  - apply Byte.to_of_N. exact E.
  - apply Byte.of_N_None_iff in E. lia.
Qed.

Lemma getUint16_putUint16 (n : N) :
  (n < 65536)%N ->
  match putUint16 n with
  | [hi; lo] => getUint16 hi lo = n
  | _ => False
  end.
Proof.
  intros Hn. unfold putUint16, getUint16.
  assert (n / 256 < 256)%N by (apply N.Div0.div_lt_upper_bound; lia).
  assert (n mod 256 < 256)%N by (apply N.mod_lt; lia).
  rewrite !byte_of_N_to_N by assumption.
  pose proof (N.div_mod n 256). lia.
Qed.

Lemma length_packComposite (c : bytes) (eoc : byte) :
  length (packComposite c eoc) = length c + 3.
Proof. unfold packComposite, putUint16. cbn. rewrite length_app. cbn. lia. Qed.

Lemma length_pack (eoc : byte) (cs : list bytes) :
  length (pack eoc cs) = list_sum (map (fun c => length c + 3) cs).
Proof.
  unfold pack. induction cs as [|c cs IH]; [reflexivity|].
  cbn [map concat list_sum]. rewrite length_app, length_packComposite, IH.
  reflexivity.
Qed.

Lemma pack_app (eoc : byte) (xs ys : list bytes) :
  pack eoc (xs ++ ys) = pack eoc xs ++ pack eoc ys.
Proof. unfold pack. rewrite map_app, concat_app. reflexivity. Qed.

Lemma pack_cons (eoc : byte) (c : bytes) (cs : list bytes) :
  pack eoc (c :: cs) = packComposite c eoc ++ pack eoc cs.
Proof. reflexivity. Qed.

Lemma unpackLoop_pack (eoc : byte) (cs : list bytes) (fuel : nat) :
  Forall fitsUint16 cs ->
  length cs <= fuel ->
  unpackLoop fuel (pack eoc cs) = Some cs.
Proof.
  intros Hfit. revert fuel.
  induction Hfit as [|c cs Hc Hcs IH]; intros fuel Hfuel.
  - destruct fuel; reflexivity.
  - destruct fuel as [|fuel]; [cbn in Hfuel; lia|].
    rewrite pack_cons. unfold packComposite.
    pose proof (getUint16_putUint16 (uint16 (N.of_nat (length c)))) as Hget.
    unfold uint16 in *. unfold fitsUint16 in Hc.
    rewrite N.mod_small in * by exact Hc.
    specialize (Hget Hc).
    destruct (putUint16 (N.of_nat (length c))) as [|hi [|lo [|? ?]]];
      try contradiction.
    cbn [app unpackLoop]. rewrite Hget, Nat2N.id.
    rewrite <- app_assoc.
    destruct (Nat.leb_spec (length c + 1) (length (c ++ [eoc] ++ pack eoc cs)))
      as [_|Hno].
    + replace (length c + 1) with (length (c ++ [eoc])) at 1
        by (rewrite length_app; reflexivity).
      rewrite (app_assoc c [eoc]), drop_app_length.
      rewrite IH by (cbn in Hfuel; lia).
      rewrite <- app_assoc, take_app_length. reflexivity.
    + exfalso. rewrite !length_app in Hno. cbn in Hno. lia.
Qed.

(** More rounds than the bytes of the composite change nothing: the loop of
    [unpackComposite] never stops for want of rounds. *)
Lemma unpackLoop_enough (fuel fuel' : nat) (composite : bytes) :
  length composite <= fuel -> length composite <= fuel' ->
  unpackLoop fuel composite = unpackLoop fuel' composite.
Proof.
  revert fuel' composite.
  induction fuel as [|fuel IH]; intros fuel' composite Hfuel Hfuel'.
  - destruct composite; [by destruct fuel'|cbn in Hfuel; lia].
  - destruct composite as [|hi [|lo rest]];
      [by destruct fuel'|by destruct fuel'|].
    destruct fuel' as [|fuel']; [cbn in Hfuel'; lia|].
    cbn [unpackLoop]. cbn [length] in Hfuel, Hfuel'.
    destruct (Nat.leb _ _); [|reflexivity].
    rewrite (IH fuel'); [reflexivity|rewrite length_drop; lia..].
Qed.

Lemma unpackComposite_pack (eoc : byte) (cs : list bytes) :
  Forall fitsUint16 cs -> unpackComposite (pack eoc cs) = Some cs.
Proof.
  intros Hfit. unfold unpackComposite. apply unpackLoop_pack; [exact Hfit|].
  rewrite length_pack. clear Hfit.
  induction cs as [|c cs IH]; [cbn; lia|].
  change (S (length cs) <= (length c + 3) + list_sum (map (fun c => length c + 3) cs)).
  lia.
Qed.

(** ** The composite codec round trip *)

(** The prefix written for a component of 65536 bytes is [00 00], so the
    first component read back is the empty one. *)
Lemma unpackComposite_wraps (eoc : byte) (c : bytes) :
  N.of_nat (length c) = 65536%N ->
  unpackComposite (pack eoc [c]) <> Some [c].
Proof.
  intros Hlen Hun.
  assert (Hc : c <> []) by (intros ->; discriminate Hlen).
  unfold unpackComposite, pack in Hun.
  cbn [map concat] in Hun. rewrite app_nil_r in Hun.
  unfold packComposite, uint16 in Hun. rewrite Hlen in Hun.
  change (putUint16 (65536 mod 65536)) with [x00; x00] in Hun.
  cbn [app length unpackLoop] in Hun.
  change (N.to_nat (getUint16 x00 x00)) with 0 in Hun.
  cbn [Nat.add take] in Hun.
  repeat match type of Hun with
  | (if ?b then _ else _) = _ => destruct b
  | match ?x with Some _ => _ | None => _ end = _ => destruct x
  end; try discriminate Hun.
  injection Hun as Hhd _. apply Hc. symmetry. exact Hhd.
Qed.

(** C3, as amended: for every finite sequence [cs] of byte strings each
    shorter than 65536 bytes (the empty sequence and zero-length components
    included), unpacking the packed sequence gives [cs] back; whatever the
    lengths, every component occupies [len(c) + 3] bytes of the packed
    string, and the empty sequence packs to the empty byte string. *)
Theorem composite_round_trip (eoc : byte) (cs : list bytes) :
  (Forall fitsUint16 cs -> unpackComposite (pack eoc cs) = Some cs)
  /\ (forall c, length (packComposite c eoc) = length c + 3)
  /\ length (pack eoc cs) = list_sum (map (fun c => length c + 3) cs)
  /\ pack eoc [] = [].
Proof.
  split; [apply unpackComposite_pack|].
  split; [intros c; apply length_packComposite|].
  split; [apply length_pack|reflexivity].
Qed.

Lemma composite_round_trip_witness :
  unpackComposite (pack x00 [[]; [x61; x62]; []]) = Some [[]; [x61; x62]; []].
Proof.
  apply (proj1 (composite_round_trip x00 [[]; [x61; x62]; []])).
  repeat constructor.
Defined.

(** C3, as stated, fails on a component of 65536 bytes: the two bytes of
    the prefix hold zero, and the packed form is not read back as the
    component. *)
Lemma composite_round_trip_overlong :
  unpackComposite (pack x00 [overlong]) <> Some [overlong].
Proof.
  apply unpackComposite_wraps. unfold overlong.
  rewrite repeat_length. apply N2Nat.id.
Qed.

(** ** Construction of a mapping *)

Lemma firstMissing_Some (table : gmap string field) (colsS : list string)
    (c : string) :
  firstMissing table colsS = Some c -> c ∈ colsS /\ table !! c = None.
Proof.
  induction colsS as [|x colsS IH]; cbn; [discriminate|].
  destruct (table !! x) eqn:Ex.
  - intros Hc. destruct (IH Hc). split; [by apply list_elem_of_further|done].
  - intros [= <-]. split; [apply list_elem_of_here|done].
Qed.

Lemma firstMissing_None (table : gmap string field) (colsS : list string) :
  firstMissing table colsS = None ->
  forall c, c ∈ colsS -> table !! c <> None.
Proof.
  induction colsS as [|x colsS IH]; cbn; intros Hnone c Hc.
  - by apply elem_of_nil in Hc.
  - destruct (table !! x) eqn:Ex; [|discriminate].
    apply elem_of_cons in Hc as [->|Hc]; [congruence|by apply IH].
Qed.

Lemma NewMapping_Err_configuration (si : structInspection) (v : structValue)
    (e : error) :
  NewMapping (StructPointer si v) = Err e -> configurationError si.
Proof.
  unfold NewMapping, configurationError. cbn [validateAndInspectStruct bind].
  destruct (globalTags si !! "cf") as [cf|] eqn:Ecf; [|eauto].
  destruct (globalTags si !! "key") as [key|] eqn:Ekey; [|eauto].
  destruct (goFields si !! key) as [fk|] eqn:Efk; [|eauto 10].
  destruct (firstMissing (goFields si) _) as [c|] eqn:Emiss.
  { intros _. apply firstMissing_Some in Emiss as [Hin Hc].
    destruct (globalTags si !! "cols") as [cols|] eqn:Ecols;
      [|by apply elem_of_nil in Hin].
    right; right; right; left. eauto. }
  destruct (globalTags si !! "value") as [value|] eqn:Evalue; cbn [default from_option id].
  - destruct (goFields si !! value) as [fv|] eqn:Efv; [|eauto 12].
    destruct (globalTags si !! "mapping") as [mp|] eqn:Emp; cbn [default from_option id];
      repeat case_decide; try discriminate; try congruence.
    intros _. do 5 right. eauto.
  - destruct (goFields si !! "") eqn:Eempty;
      destruct (globalTags si !! "mapping") as [mp|] eqn:Emp;
      cbn [default from_option id];
      repeat case_decide; try discriminate; try congruence;
      intros _; do 5 right; eauto.
Qed.

Lemma configuration_NewMapping_Err (si : structInspection) (v : structValue) :
  configurationError si -> exists e, NewMapping (StructPointer si v) = Err e.
Proof.
  unfold NewMapping, configurationError. cbn [validateAndInspectStruct bind].
  intros Hconf.
  destruct (globalTags si !! "cf") as [cf|] eqn:Ecf; [|eauto].
  destruct (globalTags si !! "key") as [key|] eqn:Ekey; [|eauto].
  destruct (goFields si !! key) as [fk|] eqn:Efk; [|eauto].
  destruct (firstMissing (goFields si) _) as [c|] eqn:Emiss; [eauto|].
  pose proof (firstMissing_None _ _ Emiss) as Hcols. clear Emiss.
  destruct (globalTags si !! "value") as [value|] eqn:Evalue; cbn [default from_option id].
  - destruct (goFields si !! value) as [fv|] eqn:Efv; [|eauto].
    destruct (globalTags si !! "mapping") as [mp|] eqn:Emp;
      cbn [default from_option id];
      repeat case_decide; eauto;
      exfalso; decompose [or ex and] Hconf; simplify_eq;
      try congruence;
      match goal with
      | Hc : globalTags si !! "cols" = Some _ |- _ =>
          rewrite Hc in Hcols; eapply Hcols; eauto
      end.
  - assert (Hleaf : forall m : Mapping, False -> exists e, Ok m = Err e)
      by (intros ? []).
    destruct (goFields si !! "") eqn:Eempty;
      destruct (globalTags si !! "mapping") as [mp|] eqn:Emp;
      cbn [default from_option id];
      repeat case_decide; eauto;
      exfalso; decompose [or ex and] Hconf; simplify_eq;
      try congruence;
      match goal with
      | Hc : globalTags si !! "cols" = Some _ |- _ =>
          rewrite Hc in Hcols; eapply Hcols; eauto
      end.
Qed.

Lemma NewMapping_default_sparse (si : structInspection) (v : structValue)
    (m : Mapping) :
  globalTags si !! "mapping" = None ->
  NewMapping (StructPointer si v) = Ok m -> exists sm, m = Sparse sm.
Proof.
  unfold NewMapping. cbn [validateAndInspectStruct bind]. intros ->.
  cbn [default from_option id].
  repeat match goal with
  | |- context [match ?x with _ => _ end] =>
      lazymatch x with
      | context [match _ with _ => _ end] => fail
      | _ => destruct x eqn:?
      end
  end; try discriminate; intros [= <-]; eauto.
Qed.

Lemma NewMapping_no_panic (si : structInspection) (v : structValue) :
  NewMapping (StructPointer si v) <> Panic.
Proof.
  unfold NewMapping. cbn [validateAndInspectStruct bind].
  repeat match goal with
  | |- context [match ?x with _ => _ end] =>
      lazymatch x with
      | context [match _ with _ => _ end] => fail
      | _ => destruct x eqn:?
      end
  end; discriminate.
Qed.

(** C8: on a pointer to a struct, NewMapping fails exactly when the 'cf' tag
    is missing, the 'key' tag is missing, the key does not name a field, a
    name listed in 'cols' does not name a field, a 'value' tag is present
    and does not name a field, or the 'mapping' tag is neither 'sparse' nor
    'compact'; and with no 'mapping' tag the mapping built is the sparse
    one. *)
Theorem NewMapping_fails_iff (si : structInspection) (v : structValue) :
  ((exists e, NewMapping (StructPointer si v) = Err e)
   <-> configurationError si)
  /\ NewMapping (StructPointer si v) <> Panic
  /\ (globalTags si !! "mapping" = None ->
      forall m, NewMapping (StructPointer si v) = Ok m ->
                exists sm, m = Sparse sm).
Proof.
  split; [split|split].
  - intros [e He]. exact (NewMapping_Err_configuration si v e He).
  - apply configuration_NewMapping_Err.
  - apply NewMapping_no_panic.
  - intros Hnone m Hm. exact (NewMapping_default_sparse si v m Hnone Hm).
Qed.

Lemma NewMapping_fails_iff_witness :
  exists sm, Sparse Users.mapping = Sparse sm.
Proof.
  apply (proj2 (proj2 (NewMapping_fails_iff Users.inspection Users.alice))).
  - vm_compute. reflexivity.
  - vm_compute. reflexivity.
Defined.

(** ** The scenario of the specification *)

Lemma Users_goFields :
  goFields Users.inspection !! "Id" = Some (newField "Id" 0 UTF8Type)
  /\ goFields Users.inspection !! "Kind" = Some (newField "Kind" 1 UTF8Type).
Proof. split; vm_compute; reflexivity. Qed.

Lemma Users_componentsMap (n : string) :
  is_Some (m_componentsMap Users.mapping !! n) <-> n = "Kind".
Proof.
  unfold Users.mapping, newSparseMapping. cbn [m_componentsMap foldl].
  rewrite lookup_insert_is_Some, lookup_empty, is_Some_alt.
  split; [intros [->|[_ []]]; reflexivity|intros ->; by left].
Qed.

Section Scenario.

Context `{Primitives}.

(** C9: for the sparse mapping built from the tags cf "users", key "Id",
    cols "Kind" and the record (Id "u1", Kind "profile", Name "Alice",
    Age 30), Map gives the row whose key is the marshalled "u1" and whose
    columns are exactly two, in the order of declaration: the one named
    pack [profile; Name] holding the marshalled "Alice", then the one named
    pack [profile; Age] holding the marshalled 30. *)
Theorem Map_users_scenario (key kind nameN ageN nameV ageV : bytes) :
  Marshal (VString "u1") UTF8Type = Ok key ->
  Marshal (VString "profile") UTF8Type = Ok kind ->
  Marshal (VString "Name") UTF8Type = Ok nameN ->
  Marshal (VString "Age") UTF8Type = Ok ageN ->
  Marshal (VString "Alice") UTF8Type = Ok nameV ->
  Marshal (VInt 30) LongType = Ok ageV ->
  exists m,
    NewMapping (StructPointer Users.inspection Users.alice) = Ok m
    /\ Map m (StructPointer Users.inspection Users.alice)
       = Ok {| Key := key;
               Columns := [mkColumn (pack eocEquals [kind; nameN]) nameV;
                           mkColumn (pack eocEquals [kind; ageN]) ageV] |}.
Proof.
  intros Hkey Hkind HnameN HageN HnameV HageV.
  exists (Sparse Users.mapping).
  split; [vm_compute; reflexivity|].
  destruct Users_goFields as [HId HKind].
  cbn [Map]. unfold sparseMapping_Map, startMap.
  cbn [validateAndInspectStruct bind].
  change (m_key Users.mapping) with "Id".
  change (m_components Users.mapping) with ["Kind"].
  rewrite HId. unfold marshalValue at 1.
  cbn [index newField lookup list_lookup Users.alice cassandraType].
  rewrite Hkey. cbn [bind marshalComponents].
  rewrite HKind. unfold marshalValue at 1.
  cbn [index newField lookup list_lookup Users.alice cassandraType].
  rewrite Hkind. cbn [bind app Key Columns].
  change (orderedFields Users.inspection) with Users.fields.
  unfold Users.fields.
  assert (Hcomposite : 0 < length (packComposite kind eocEquals))
    by (rewrite length_packComposite; lia).
  (* Id is the key, Kind a component *)
  cbn [mapColumns name newField]. change (m_key Users.mapping) with "Id".
  destruct (decide ("Id" = "Id")) as [_|Hne]; [|congruence].
  destruct (decide ("Kind" = "Id")) as [Heq|_]; [discriminate Heq|].
  destruct (decide (is_Some (m_componentsMap Users.mapping !! "Kind")))
    as [_|Hno]; [|exfalso; apply Hno; by apply Users_componentsMap].
  (* Name *)
  destruct (decide ("Name" = "Id")) as [Heq|_]; [discriminate Heq|].
  destruct (decide (is_Some (m_componentsMap Users.mapping !! "Name")))
    as [Hyes|_]; [apply Users_componentsMap in Hyes; discriminate Hyes|].
  unfold marshalName at 1, marshalValue at 1.
  cbn [index newField lookup list_lookup Users.alice cassandraType
       cassandraName].
  rewrite HnameN, HnameV. cbn [bind app].
  destruct (decide (0 < length (packComposite kind eocEquals)))
    as [_|Hno]; [|contradiction].
  (* Age *)
  destruct (decide ("Age" = "Id")) as [Heq|_]; [discriminate Heq|].
  destruct (decide (is_Some (m_componentsMap Users.mapping !! "Age")))
    as [Hyes|_]; [apply Users_componentsMap in Hyes; discriminate Hyes|].
  unfold marshalName at 1, marshalValue at 1.
  cbn [index newField lookup list_lookup Users.alice cassandraType
       cassandraName].
  rewrite HageN, HageV. cbn [bind app].
  unfold pack. cbn [map concat]. rewrite !app_nil_r. reflexivity.
Qed.

End Scenario.

Lemma Map_users_scenario_witness :
  exists m,
    NewMapping (StructPointer Users.inspection Users.alice) = Ok m
    /\ @Map wirePrimitives m (StructPointer Users.inspection Users.alice)
       = Ok {| Key := [x75; x31];
               Columns :=
                 [mkColumn (pack x00 [list_byte_of_string "profile";
                                      list_byte_of_string "Name"])
                    (list_byte_of_string "Alice");
                  mkColumn (pack x00 [list_byte_of_string "profile";
                                      list_byte_of_string "Age"])
                    [x00; x00; x00; x00; x00; x00; x00; x1e]] |}.
Proof.
  apply (@Map_users_scenario wirePrimitives); reflexivity.
Defined.

(** ** The loop of Unmap *)

Section Streaming.

Context `{Primitives} {P : Type} `{RowProvider P}.

Implicit Types (m : sparseMapping) (si : structInspection).
Implicit Types (st : unmapState P) (p : P).

Lemma unmapLoop_rounds m si (n fuel : nat) st st' :
  unmapRounds n m si st = Some st' ->
  unmapLoop (n + fuel) m si st = unmapLoop fuel m si st'.
Proof.
  revert st. induction n as [|n IH]; intros st; cbn [unmapRounds].
  - intros [= ->]. reflexivity.
  - cbn [Nat.add unmapLoop].
    destruct (unmapBody m si st) as [st1|r p1]; [apply IH|discriminate].
Qed.

Lemma unmapLoop_return m si (n fuel : nat) st st' r p :
  unmapRounds n m si st = Some st' ->
  unmapBody m si st' = Return r p ->
  n < fuel ->
  unmapLoop fuel m si st = Some (r, p).
Proof.
  intros Hrounds Hbody Hfuel.
  replace fuel with (n + S (fuel - S n)) by lia.
  rewrite (unmapLoop_rounds _ _ _ _ _ _ Hrounds).
  cbn [unmapLoop]. rewrite Hbody. reflexivity.
Qed.

Lemma unmapBody_set m si st st' :
  unmapBody m si st = Continue st' -> compositeFieldsAreSet st' = true.
Proof.
  unfold unmapBody, lookupFieldByName.
  repeat match goal with
  | |- context [match ?x with _ => _ end] =>
      lazymatch x with
      | context [match _ with _ => _ end] => fail
      | _ => destruct x eqn:?
      end
  end; try discriminate; intros [= <-]; reflexivity.
Qed.

(** The flag of the loop tells whether a column was consumed. *)
Lemma unmapRounds_set m si (n : nat) v p st :
  unmapRounds n m si (unmapStart v p) = Some st ->
  compositeFieldsAreSet st = negb (Nat.eqb n 0).
Proof.
  destruct n as [|n]; [intros [= <-]; reflexivity|].
  cbn [Nat.eqb negb]. generalize (unmapStart v p). intros st0.
  revert st0. induction n as [|n IH]; intros st0; cbn [unmapRounds].
  - destruct (unmapBody m si st0) as [st1|] eqn:E; [|discriminate].
    intros [= <-]. exact (unmapBody_set _ _ _ _ E).
  - destruct (unmapBody m si st0) as [st1|] eqn:E; [|discriminate].
    apply IH.
Qed.

Lemma sparseMapping_Unmap_return m (dest : GoInterface) p v si
    (n fuel : nat) st r p' :
  startUnmap m dest p = Ok (v, si) ->
  unmapRounds n m si (unmapStart v p) = Some st ->
  unmapBody m si st = Return r p' ->
  n < fuel ->
  sparseMapping_Unmap fuel m dest p = Some (r, p').
Proof.
  intros Hstart Hrounds Hbody Hfuel. unfold sparseMapping_Unmap.
  rewrite Hstart. exact (unmapLoop_return _ _ _ _ _ _ _ _ Hrounds Hbody Hfuel).
Qed.

(** C5: when the provider has no column to give, Unmap of the sparse
    mapping returns [Done] on the signal [Done], returns [Done] on
    [EndAtLimit] whether or not columns were consumed, and on
    [EndBeforeLimit] returns without error, with the record decoded so
    far, when at least one column was consumed for this record, and
    [Done] when none was. *)
Theorem sparseMapping_Unmap_exhaustion m (dest : GoInterface) p v si
    (n fuel : nat) st (e : error) p' :
  startUnmap m dest p = Ok (v, si) ->
  unmapRounds n m si (unmapStart v p) = Some st ->
  NextColumn (us_provider st) = (Err e, p') ->
  n < fuel ->
  (e = Done -> sparseMapping_Unmap fuel m dest p = Some (Err Done, p'))
  /\ (e = EndAtLimit ->
      sparseMapping_Unmap fuel m dest p = Some (Err Done, p'))
  /\ (e = EndBeforeLimit -> 0 < n ->
      sparseMapping_Unmap fuel m dest p = Some (Ok (us_v st), p'))
  /\ (e = EndBeforeLimit -> n = 0 ->
      sparseMapping_Unmap fuel m dest p = Some (Err Done, p')).
Proof.
  intros Hstart Hrounds Hnext Hfuel.
  pose proof (unmapRounds_set _ _ _ _ _ _ Hrounds) as Hset.
  repeat split; intros -> **;
    eapply sparseMapping_Unmap_return; eauto;
    unfold unmapBody; rewrite Hnext, ?Hset; try reflexivity.
  - destruct n; [lia|reflexivity].
  - subst n. reflexivity.
Qed.

Lemma extractComponents_found m (column : Column) (typeName : string)
    (bias : nat) (components : list bytes) :
  componentsFound m column = Some components ->
  extractComponents m column typeName bias
  = if decide (length components <> length (m_components m) + bias)
    then Err (ErrComponentCount typeName)
    else Ok components.
Proof.
  unfold componentsFound, extractComponents. intros ->. reflexivity.
Qed.

Lemma compactMapping_Unmap_count m (value : string) (dest : GoInterface) p
    v si (column : Column) (components : list bytes) p' :
  startUnmap m dest p = Ok (v, si) ->
  componentsFound m column = Some components ->
  NextColumn p = (Ok column, p') ->
  length components <> length (m_components m) + 0 ->
  compactMapping_Unmap {| m_sparse := m; m_value := value |} dest p
  = (Err (ErrComponentCount (rtypeName si)), p').
Proof.
  intros Hstart Hfound Hnext Hlen. unfold compactMapping_Unmap.
  cbn [m_sparse].
  rewrite Hstart, Hnext, (extractComponents_found _ _ _ _ _ Hfound).
  destruct (decide (length components <> _)) as [_|Hno];
    [reflexivity|contradiction].
Qed.

(** C6: for the sparse and for the compact mapping, a column given by the
    provider in whose name extractComponents finds a number of components
    other than [len(componentFields) + bias] (bias 1 for sparse, 0 for
    compact) makes Unmap return the shape-mismatch error; so does, in
    particular, a count off by one. *)
Theorem Unmap_shape_mismatch m (value : string) (dest : GoInterface) p v si
    (column : Column) (components : list bytes) p' :
  startUnmap m dest p = Ok (v, si) ->
  componentsFound m column = Some components ->
  (forall (n fuel : nat) st,
      unmapRounds n m si (unmapStart v p) = Some st ->
      NextColumn (us_provider st) = (Ok column, p') ->
      length components <> length (m_components m) + 1 ->
      n < fuel ->
      sparseMapping_Unmap fuel m dest p
      = Some (Err (ErrComponentCount (rtypeName si)), p'))
  /\ (NextColumn p = (Ok column, p') ->
      length components <> length (m_components m) + 0 ->
      compactMapping_Unmap {| m_sparse := m; m_value := value |} dest p
      = (Err (ErrComponentCount (rtypeName si)), p')).
Proof.
  intros Hstart Hfound. split.
  - intros n fuel st Hrounds Hnext Hlen Hfuel.
    eapply sparseMapping_Unmap_return; eauto.
    unfold unmapBody.
    rewrite Hnext, (extractComponents_found _ _ _ _ _ Hfound).
    destruct (decide (length components <> _)) as [_|Hno];
      [reflexivity|contradiction].
  - intros Hnext Hlen.
    exact (compactMapping_Unmap_count m value dest p v si column components
             p' Hstart Hfound Hnext Hlen).
Qed.

Lemma compactMapping_Unmap_whole_name (cm : compactMapping)
    (dest : GoInterface) p v si (column : Column) p' :
  m_components (m_sparse cm) = [] ->
  startUnmap (m_sparse cm) dest p = Ok (v, si) ->
  NextColumn p = (Ok column, p') ->
  componentsFound (m_sparse cm) column = Some [Name column]
  /\ compactMapping_Unmap cm dest p
     = (Err (ErrComponentCount (rtypeName si)), p').
Proof.
  intros Hnone Hstart Hnext.
  assert (Hfound : componentsFound (m_sparse cm) column
                   = Some [Name column]).
  { unfold componentsFound. rewrite Hnone. reflexivity. }
  split; [exact Hfound|].
  destruct cm as [m value]. cbn [m_sparse] in *.
  apply (compactMapping_Unmap_count m value dest p v si column
           [Name column] p' Hstart Hfound Hnext).
  rewrite Hnone. discriminate.
Qed.

(** *** The boundary between two groups *)

Lemma bytesDiffer_false (a b : bytes) :
  length a = length b -> bytesDiffer a b = false -> a = b.
Proof.
  revert b. induction a as [|x a IH]; intros [|y b]; cbn;
    try discriminate; [reflexivity|].
  intros [= Hlen]. destruct (Byte.eqb x y) eqn:E; [|discriminate].
  apply Byte.byte_dec_bl in E. intros Hd. f_equal; [exact E|by apply IH].
Qed.

Lemma bytesDiffer_refl (a : bytes) : bytesDiffer a a = false.
Proof.
  induction a as [|x a IH]; cbn; [reflexivity|].
  rewrite (Byte.byte_dec_lb (eq_refl x)). exact IH.
Qed.

Lemma componentsDiffer_false (count : nat) (prev next : list bytes) :
  count <= length prev -> length prev = length next ->
  componentsDiffer count prev next = false <->
  take count prev = take count next.
Proof.
  revert prev next.
  induction count as [|count IH]; intros [|a prev] [|b next]; cbn;
    try lia; try done.
  intros Hcount [= Hlen]. destruct (decide (length a ≠ length b)) as [Hne|He].
  - split; [discriminate|]. intros [= -> _]. contradiction.
  - apply dec_stable in He. destruct (bytesDiffer a b) eqn:Ed.
    + split; [discriminate|]. intros [= -> _].
      by rewrite bytesDiffer_refl in Ed.
    + apply (bytesDiffer_false _ _ He) in Ed as ->.
      rewrite IH by lia. split; [by intros ->|by intros [= ->]].
Qed.

(** isNewComponents with bias 1 compares the number of components and the
    component prefixes. *)
Lemma isNewComponents_false (prev next : list bytes) :
  isNewComponents prev next 1 = false <->
  length prev = length next /\ groupOf prev = groupOf next.
Proof.
  unfold isNewComponents, groupOf.
  destruct (decide (length prev ≠ length next)) as [Hne|He].
  - split; [discriminate|]. intros [? _]. contradiction.
  - apply dec_stable in He. rewrite componentsDiffer_false by lia.
    rewrite <- He. split; [by intros ->|by intros [_ ->]].
Qed.

Lemma isNewComponents_same_group (prev components next : list bytes) :
  isNewComponents prev components 1 = false ->
  isNewComponents components next 1 = isNewComponents prev next 1.
Proof.
  intros [Hlen Hgroup]%isNewComponents_false.
  destruct (isNewComponents prev next 1) eqn:E.
  - apply not_false_iff_true. intros [? ?]%isNewComponents_false.
    apply not_false_iff_true in E. apply E, isNewComponents_false.
    split; congruence.
  - apply isNewComponents_false in E as [? ?].
    apply isNewComponents_false. split; congruence.
Qed.

(** A round that goes on has consumed a column of the current group. *)
Lemma unmapBody_Continue m si st st' :
  unmapBody m si st = Continue st' ->
  exists column components,
    NextColumn (us_provider st) = (Ok column, us_provider st')
    /\ extractComponents m column (rtypeName si) 1 = Ok components
    /\ previousComponents st' = components
    /\ compositeFieldsAreSet st' = true
    /\ (compositeFieldsAreSet st = true ->
        isNewComponents (previousComponents st) components 1 = false).
Proof.
  unfold unmapBody.
  destruct (NextColumn (us_provider st)) as [[column|e|] p1] eqn:Enext;
    [|destruct e; try discriminate; destruct (compositeFieldsAreSet st);
      discriminate|discriminate].
  destruct (extractComponents m column (rtypeName si) 1)
    as [components|e|] eqn:Eext; try discriminate.
  intros Hbody. exists column, components.
  assert (Hlookup : forall v,
             lookupFieldByName si column components v p1 = Continue st' ->
             us_provider st' = p1 /\ previousComponents st' = components
             /\ compositeFieldsAreSet st' = true).
  { unfold lookupFieldByName. intros v.
    repeat match goal with
    | |- context [match ?x with _ => _ end] =>
        lazymatch x with
        | context [match _ with _ => _ end] => fail
        | _ => destruct x eqn:?
        end
    end; try discriminate; intros [= <-]; done. }
  destruct (compositeFieldsAreSet st) eqn:Eset; cbn [negb] in Hbody.
  - destruct (isNewComponents (previousComponents st) components 1) eqn:Enew;
      [discriminate|].
    apply Hlookup in Hbody as (-> & ? & ?). done.
  - destruct (unmapComponents m (us_v st) si components); try discriminate.
    apply Hlookup in Hbody as (-> & ? & ?). done.
Qed.

(** The columns consumed by the rounds of one call all have the component
    prefix of the first one. *)
Lemma unmapRounds_group m si (n : nat) st st' (group : list bytes)
    (count : nat) :
  compositeFieldsAreSet st = true ->
  length (previousComponents st) = count ->
  groupOf (previousComponents st) = group ->
  unmapRounds n m si st = Some st' ->
  compositeFieldsAreSet st' = true
  /\ length (previousComponents st') = count
  /\ groupOf (previousComponents st') = group.
Proof.
  revert st. induction n as [|n IH]; intros st Hset Hlen Hgroup;
    cbn [unmapRounds]; [intros [= <-]; done|].
  destruct (unmapBody m si st) as [st1|] eqn:Ebody; [|discriminate].
  apply unmapBody_Continue in Ebody
    as (column & components & _ & _ & Hprev & Hset1 & Hnew).
  apply Hnew, isNewComponents_false in Hset as [Hl Hg].
  apply IH; [done|congruence|congruence].
Qed.

Lemma unmapRounds_first_group m si (n : nat) v p st (first : Column) p1
    (firstComponents : list bytes) :
  unmapRounds (S n) m si (unmapStart v p) = Some st ->
  NextColumn p = (Ok first, p1) ->
  extractComponents m first (rtypeName si) 1 = Ok firstComponents ->
  compositeFieldsAreSet st = true
  /\ length (previousComponents st) = length firstComponents
  /\ groupOf (previousComponents st) = groupOf firstComponents.
Proof.
  cbn [unmapRounds]. intros Hrounds Hfirst Hext.
  destruct (unmapBody m si (unmapStart v p)) as [st1|] eqn:Ebody;
    [|discriminate].
  apply unmapBody_Continue in Ebody
    as (column & components & Hnext & Hext1 & Hprev & Hset1 & _).
  cbn [unmapStart us_provider] in Hnext. rewrite Hfirst in Hnext.
  injection Hnext as <- _. rewrite Hext in Hext1. injection Hext1 as <-.
  apply (unmapRounds_group m si n st1 st (groupOf firstComponents)
           (length firstComponents) Hset1);
    [by rewrite Hprev|by rewrite Hprev|exact Hrounds].
Qed.

(** C4: once columns of a group were consumed, the first column given by
    the provider whose component prefix (the components without the
    trailing field name) differs from the prefix of the first column ends
    the call: Unmap moves the provider back one step and returns without
    error, with the record decoded so far.  With a provider whose Rewind
    undoes the last NextColumn, the next column given, hence the first
    column of a second call of Unmap on this provider, is that very
    column. *)
Theorem sparseMapping_Unmap_next_group m (dest : GoInterface) p v si
    (n fuel : nat) st (first column : Column) p1 p'
    (firstComponents components : list bytes) :
  (forall q c q', NextColumn q = (Ok c, q') ->
                  NextColumn (Rewind q') = (Ok c, q')) ->
  startUnmap m dest p = Ok (v, si) ->
  NextColumn p = (Ok first, p1) ->
  extractComponents m first (rtypeName si) 1 = Ok firstComponents ->
  unmapRounds (S n) m si (unmapStart v p) = Some st ->
  NextColumn (us_provider st) = (Ok column, p') ->
  extractComponents m column (rtypeName si) 1 = Ok components ->
  groupOf components <> groupOf firstComponents ->
  S n < fuel ->
  sparseMapping_Unmap fuel m dest p = Some (Ok (us_v st), Rewind p')
  /\ NextColumn (Rewind p') = (Ok column, p').
Proof.
  intros Hrewind Hstart Hfirst Hext1 Hrounds Hnext Hext Hgroup Hfuel.
  split; [|exact (Hrewind _ _ _ Hnext)].
  destruct (unmapRounds_first_group _ _ _ _ _ _ _ _ _ Hrounds Hfirst Hext1)
    as (Hset & Hlen & Hg).
  eapply sparseMapping_Unmap_return; eauto.
  unfold unmapBody. rewrite Hnext, Hext, Hset. cbn [negb].
  destruct (isNewComponents (previousComponents st) components 1) eqn:Enew;
    [reflexivity|].
  apply isNewComponents_false in Enew as [_ Hsame]. congruence.
Qed.

(** *** Columns of unknown fields *)

Lemma unmapLoop_previous m si (fuel : nat) v p (prev prev' : list bytes) :
  (forall next, isNewComponents prev' next 1 = isNewComponents prev next 1) ->
  unmapLoop fuel m si
    {| us_v := v; us_provider := p; compositeFieldsAreSet := true;
       previousComponents := prev' |}
  = unmapLoop fuel m si
      {| us_v := v; us_provider := p; compositeFieldsAreSet := true;
         previousComponents := prev |}.
Proof.
  intros Hsame. destruct fuel as [|fuel]; [reflexivity|].
  cbn [unmapLoop]. unfold unmapBody.
  cbn [us_v us_provider compositeFieldsAreSet previousComponents negb].
  destruct (NextColumn p) as [[column|e|] p1]; try reflexivity.
  destruct (extractComponents m column (rtypeName si) 1); try reflexivity.
  rewrite Hsame. reflexivity.
Qed.

(** C7: in Unmap of the sparse mapping, a column whose trailing component
    decodes to a name that is not the store-facing name of a field is
    skipped: the round goes on without error and leaves the destination as
    it was (after the component fields were stored, when the column is the
    first one); and the rounds that follow a skipped column of the current
    group behave as if the provider had never given it. *)
Theorem sparseMapping_Unmap_unknown_column m si st (column : Column) p'
    (components : list bytes) (nameBytes : bytes) (fieldName : string) :
  NextColumn (us_provider st) = (Ok column, p') ->
  extractComponents m column (rtypeName si) 1 = Ok components ->
  last components = Some nameBytes ->
  Unmarshal nameBytes UTF8Type (VString "") = Ok (VString fieldName) ->
  cassandraFields si !! fieldName = None ->
  (compositeFieldsAreSet st = true ->
   isNewComponents (previousComponents st) components 1 = false ->
   unmapBody m si st
   = Continue {| us_v := us_v st; us_provider := p';
                 compositeFieldsAreSet := true;
                 previousComponents := components |}
   /\ forall fuel,
       unmapLoop (S fuel) m si st
       = unmapLoop fuel m si
           {| us_v := us_v st; us_provider := p';
              compositeFieldsAreSet := true;
              previousComponents := previousComponents st |})
  /\ (compositeFieldsAreSet st = false ->
      forall v, unmapComponents m (us_v st) si components = Ok v ->
      unmapBody m si st
      = Continue {| us_v := v; us_provider := p';
                    compositeFieldsAreSet := true;
                    previousComponents := components |}).
Proof.
  intros Hnext Hext Hlast Hname Hunknown.
  assert (Hskip : forall v,
             lookupFieldByName si column components v p'
             = Continue {| us_v := v; us_provider := p';
                           compositeFieldsAreSet := true;
                           previousComponents := components |}).
  { intros v. unfold lookupFieldByName.
    rewrite Hlast, Hname, Hunknown. reflexivity. }
  split.
  - intros Hset Hnew.
    assert (Hbody : unmapBody m si st
                    = Continue {| us_v := us_v st; us_provider := p';
                                  compositeFieldsAreSet := true;
                                  previousComponents := components |}).
    { unfold unmapBody. rewrite Hnext, Hext, Hset, Hnew. apply Hskip. }
    split; [exact Hbody|]. intros fuel. cbn [unmapLoop]. rewrite Hbody.
    apply unmapLoop_previous. intros next.
    by apply isNewComponents_same_group.
  - intros Hset v Hcomp. unfold unmapBody.
    rewrite Hnext, Hext, Hset, Hcomp. apply Hskip.
Qed.

End Streaming.

(** ** Round trips *)

Section RoundTrip.

Context `{Primitives}.

Implicit Types (r v dest : structValue) (si : structInspection).
Implicit Types (f : field) (I J : nat -> Prop).

Lemma decodedOn_start dest r : sameShape dest r -> decodedOn (fun _ => False) r dest.
Proof.
  intros Hshape. split; [exact (Forall2_length _ _ _ Hshape)|].
  intros i x Hx.
  destruct (Forall2_lookup_r _ _ _ _ _ Hshape Hx) as (d & Hd & Hty).
  exists d. split; [exact Hd|]. split; [exact Hty|]. intros [].
Qed.

Lemma decodedOn_weaken I J r v :
  (forall i, J i -> I i) -> decodedOn I r v -> decodedOn J r v.
Proof.
  intros Hsub [Hlen Hv]. split; [exact Hlen|]. intros i x Hx.
  destruct (Hv i x Hx) as (d & Hd & Hty & Heq). eauto 6.
Qed.

Lemma decodedOn_all I r v :
  (forall i, i < length r -> I i) -> decodedOn I r v -> v = r.
Proof.
  intros Hall [Hlen Hv]. apply list_eq. intros i.
  destruct (r !! i) as [x|] eqn:Hx.
  - destruct (Hv i x Hx) as (d & Hd & _ & Heq).
    rewrite Hd, Heq; [reflexivity|].
    apply Hall. by apply lookup_lt_Some in Hx.
  - apply lookup_ge_None in Hx. apply lookup_ge_None. lia.
Qed.

(** Storing the marshalled value of a field of [r] decodes that field. *)
Lemma unmarshalValue_decodes I r v f (b : bytes) :
  decodedOn I r v ->
  fieldRoundTrips r f ->
  marshalValue f r = Ok b ->
  exists v', unmarshalValue f b v = Ok v'
             /\ decodedOn (fun i => I i \/ i = index f) r v'.
Proof.
  intros [Hlen Hv] Hcodec Hmarshal. unfold marshalValue in Hmarshal.
  destruct (r !! index f) as [x|] eqn:Hx; [|discriminate].
  destruct (Marshal x (cassandraType f)) as [b'| |] eqn:Hb;
    try discriminate.
  injection Hmarshal as ->.
  destruct (Hv _ _ Hx) as (d & Hd & Hty & _).
  unfold unmarshalValue. rewrite Hd, (Hcodec x b d Hx Hb Hty).
  eexists. split; [reflexivity|].
  split; [by rewrite length_insert|].
  intros i y Hy. destruct (decide (i = index f)) as [->|Hne].
  - exists x. rewrite list_lookup_insert_eq by (by apply lookup_lt_Some in Hd).
    rewrite Hx in Hy. injection Hy as ->. done.
  - rewrite list_lookup_insert_ne by done.
    destruct (Hv _ _ Hy) as (d' & Hd' & Hty' & Heq').
    exists d'. split; [done|]. split; [done|]. intros [Hi|Hi]; [by apply Heq'|done].
Qed.

(** *** What Map writes *)

Lemma marshalComponents_spec si r (names : list string)
    (acc composite : bytes) :
  marshalComponents si r names acc = Ok composite ->
  exists bs, composite = acc ++ pack eocEquals bs
             /\ Forall2 (marshalsTo si r) names bs.
Proof.
  revert acc. induction names as [|c names IH]; intros acc; cbn.
  - intros [= <-]. exists []. by rewrite app_nil_r.
  - destruct (goFields si !! c) as [f|] eqn:Hf; [|discriminate].
    destruct (marshalValue f r) as [b| |] eqn:Hb; try discriminate.
    cbn [bind]. intros (bs & -> & Hbs)%IH. exists (b :: bs).
    split; [by rewrite pack_cons, app_assoc|].
    constructor; [by exists f|done].
Qed.

Lemma startMap_spec (m : sparseMapping) si r (row : Row) v si'
    (composite : bytes) :
  startMap m (StructPointer si r) = Ok (row, v, si', composite) ->
  v = r /\ si' = si /\ Columns row = []
  /\ marshalsTo si r (m_key m) (Key row)
  /\ exists bs, composite = pack eocEquals bs
                /\ Forall2 (marshalsTo si r) (m_components m) bs.
Proof.
  unfold startMap. cbn [validateAndInspectStruct bind].
  destruct (goFields si !! m_key m) as [fk|] eqn:Hfk; [|discriminate].
  destruct (marshalValue fk r) as [bk| |] eqn:Hbk; try discriminate.
  cbn [bind].
  destruct (marshalComponents si r (m_components m) []) as [c| |] eqn:Hc;
    try discriminate.
  cbn [bind]. intros [= <- <- <- <-].
  apply marshalComponents_spec in Hc as (bs & -> & Hbs).
  repeat split; [by exists fk|by exists bs].
Qed.

(** *** What Unmap reads back *)

Lemma unmapComponentsFrom_decodes I r v si (names : list string)
    (bs pre post : list bytes) :
  Forall2 (marshalsTo si r) names bs ->
  (forall c f, c ∈ names -> goFields si !! c = Some f ->
               fieldRoundTrips r f) ->
  decodedOn I r v ->
  exists v',
    unmapComponentsFrom si (length pre) names (pre ++ bs ++ post) v = Ok v'
    /\ decodedOn (fun i => I i \/ exists c f, c ∈ names
                                /\ goFields si !! c = Some f /\ index f = i)
         r v'.
Proof.
  intros Hbs. revert I v pre.
  induction Hbs as [|c b names bs (f & Hf & Hb) Hbs IH];
    intros I v pre Hcodec Hv; cbn [unmapComponentsFrom].
  - exists v. split; [reflexivity|].
    eapply decodedOn_weaken; [|exact Hv].
    intros i [Hi|(c & f & Hc & _)]; [done|by apply elem_of_nil in Hc].
  - rewrite Hf.
    rewrite lookup_app_r, Nat.sub_diag by done. cbn [app lookup list_lookup].
    destruct (unmarshalValue_decodes I r v f b Hv) as (v1 & -> & Hv1);
      [eapply Hcodec; [apply list_elem_of_here|done]|done|].
    cbn [bind].
    destruct (IH (fun i => I i \/ i = index f) v1 (pre ++ [b]))
      as (v2 & Hun & Hv2); [|exact Hv1|].
    { intros c' f' Hc'. apply Hcodec. by apply list_elem_of_further. }
    rewrite length_app, Nat.add_1_r, <- app_assoc in Hun. cbn [app] in Hun.
    exists v2. split; [exact Hun|].
    eapply decodedOn_weaken; [|exact Hv2].
    intros i [Hi|(c' & f' & Hc' & Hf' & Hi)].
    + by left; left.
    + apply elem_of_cons in Hc' as [->|Hc'].
      * left; right. congruence.
      * right. eauto.
Qed.

Lemma startUnmap_decodes (m : sparseMapping) si r dest (row : Row)
    (columns : list Column) (signal : error) :
  sameShape dest r ->
  marshalsTo si r (m_key m) (Key row) ->
  (forall f, goFields si !! m_key m = Some f -> fieldRoundTrips r f) ->
  exists v,
    startUnmap m (StructPointer si dest)
      (newSliceProvider (Key row) columns signal) = Ok (v, si)
    /\ decodedOn (fun i => exists f, goFields si !! m_key m = Some f
                                     /\ index f = i) r v.
Proof.
  intros Hshape (fk & Hfk & Hbk) Hcodec. unfold startUnmap.
  cbn [validateAndInspectStruct bind ProviderKey sliceRowProvider
       newSliceProvider sp_key].
  rewrite Hfk.
  destruct (unmarshalValue_decodes _ r dest fk (Key row)
              (decodedOn_start _ _ Hshape) (Hcodec fk Hfk) Hbk)
    as (v & -> & Hv).
  cbn [bind]. exists v. split; [reflexivity|].
  eapply decodedOn_weaken; [|exact Hv].
  intros i (f & Hf & <-). right. congruence.
Qed.

Lemma marshalsTo_fit si r (names : list string) (bs : list bytes) :
  componentsFit si names r ->
  Forall2 (marshalsTo si r) names bs -> Forall fitsUint16 bs.
Proof.
  intros Hfit Hbs. induction Hbs as [|c b names bs (f & Hf & Hb) Hbs IH];
    constructor.
  - eapply Hfit; [apply list_elem_of_here|done|done].
  - apply IH. intros c' f' b' Hc'. apply Hfit. by apply list_elem_of_further.
Qed.

(** *** The compact mapping *)

Lemma compactMapping_Map_one_column (cm : compactMapping)
    (source : GoInterface) (row : Row) :
  compactMapping_Map cm source = Ok row ->
  exists column, Columns row = [column].
Proof.
  unfold compactMapping_Map.
  destruct (startMap (m_sparse cm) source) as [[[[row0 v] si] c]| |] eqn:Hs;
    try discriminate.
  cbn [bind].
  assert (Columns row0 = []) as ->.
  { destruct source as [|si0 r]; [discriminate|].
    by apply startMap_spec in Hs as (_ & _ & ? & _). }
  destruct (goFields si !! m_value cm) as [fv|].
  - destruct (marshalValue fv v); try discriminate.
    cbn [bind]. intros [= <-]. cbn. eauto.
  - intros [= <-]. cbn. eauto.
Qed.

(** X18: Map of a compact mapping gives a row with exactly one column; and
    for a compact mapping with at least one component field,
    a record whose fields are the key field, the component fields and the
    value field, component values that marshal to fewer than 65536 bytes,
    and a codec that gives the fields back, Unmap of that one column into
    a fresh destination of the record type gives the record back. *)
Theorem compactMapping_round_trip (cm : compactMapping) si r dest
    (row : Row) (signal : error) :
  compactMapping_Map cm (StructPointer si r) = Ok row ->
  (exists column, Columns row = [column])
  /\ (m_components (m_sparse cm) <> [] ->
      fieldsAmong si
        (m_key (m_sparse cm) :: m_value cm :: m_components (m_sparse cm))
        r ->
      componentsFit si (m_components (m_sparse cm)) r ->
      (forall n f,
          n ∈ m_key (m_sparse cm) :: m_value cm
              :: m_components (m_sparse cm) ->
          goFields si !! n = Some f -> fieldRoundTrips r f) ->
      sameShape dest r ->
      compactMapping_Unmap cm (StructPointer si dest)
        (newSliceProvider (Key row) (Columns row) signal)
      = (Ok r, sliceAt (newSliceProvider (Key row) (Columns row) signal) 1)).
Proof.
  intros Hmap. split; [exact (compactMapping_Map_one_column _ _ _ Hmap)|].
  intros Hsome Hamong Hfit Hcodec Hshape.
  destruct cm as [m value]. cbn [m_sparse m_value] in *.
  unfold compactMapping_Map in Hmap. cbn [m_sparse m_value] in Hmap.
  destruct (startMap m (StructPointer si r))
    as [[[[row0 v0] si0] composite]| |] eqn:Hs; try discriminate.
  apply startMap_spec in Hs as (-> & -> & Hnil & Hkey & bs & -> & Hbs).
  cbn [bind] in Hmap. rewrite Hnil in Hmap. cbn [app] in Hmap.
  destruct (startUnmap_decodes m si r dest row0 (Columns row) signal
              Hshape Hkey) as (v1 & Hstart & Hv1).
  { intros f Hf. apply (Hcodec (m_key m)); [apply list_elem_of_here|done]. }
  assert (Hkeyrow : Key row = Key row0).
  { destruct (goFields si !! value); [|by injection Hmap as <-].
    destruct (marshalValue f r); try discriminate. by injection Hmap as <-. }
  rewrite Hkeyrow. unfold compactMapping_Unmap. cbn [m_sparse m_value].
  rewrite Hstart.
  assert (Hextract : forall x,
             extractComponents m (mkColumn (pack eocEquals bs) x)
               (rtypeName si) 0 = Ok bs).
  { intros x. unfold extractComponents. cbn [mkColumn Name].
    destruct (decide (0 < length (m_components m))) as [_|Hno];
      [|destruct (m_components m); [done|cbn in Hno; lia]].
    rewrite unpackComposite_pack by (eapply marshalsTo_fit; eauto).
    destruct (decide _) as [Hne|_]; [|reflexivity].
    exfalso. apply Hne. rewrite Nat.add_0_r. symmetry.
    exact (Forall2_length _ _ _ Hbs). }
  assert (Hcodec' : forall c f, c ∈ m_components m ->
                      goFields si !! c = Some f -> fieldRoundTrips r f).
  { intros c f Hc. apply Hcodec. by do 2 apply list_elem_of_further. }
  destruct (unmapComponentsFrom_decodes _ r v1 si (m_components m) bs [] []
              Hbs Hcodec' Hv1) as (v2 & Hun & Hv2).
  cbn [length app] in Hun. rewrite app_nil_r in Hun.
  destruct (goFields si !! value) as [fv|] eqn:Hfv.
  - destruct (marshalValue fv r) as [bv| |] eqn:Hbv; try discriminate.
    cbn [bind] in Hmap. injection Hmap as <-.
    cbn [Columns NextColumn sliceRowProvider newSliceProvider sp_columns
         sp_position lookup list_lookup].
    rewrite Hextract. unfold unmapComponents. rewrite Hun. cbn [bind].
    assert (Hcodecv : fieldRoundTrips r fv).
    { apply (Hcodec value);
        [apply list_elem_of_further, list_elem_of_here|done]. }
    destruct (unmarshalValue_decodes _ r v2 fv bv Hv2 Hcodecv Hbv)
      as (v3 & Hv & Hv3).
    cbn [mkColumn Value]. rewrite Hv. f_equal. f_equal.
    eapply decodedOn_all; [|exact Hv3].
    intros i Hi. destruct (Hamong i Hi) as (n & f & Hn & Hf & <-).
    apply elem_of_cons in Hn as [->|Hn]; [left; left; eauto|].
    apply elem_of_cons in Hn as [->|Hn]; [right; congruence|].
    left; right. eauto.
  - injection Hmap as <-.
    cbn [Columns NextColumn sliceRowProvider newSliceProvider sp_columns
         sp_position lookup list_lookup].
    rewrite Hextract. unfold unmapComponents. rewrite Hun. cbn [bind].
    f_equal. f_equal.
    eapply decodedOn_all; [|exact Hv2].
    intros i Hi. destruct (Hamong i Hi) as (n & f & Hn & Hf & <-).
    apply elem_of_cons in Hn as [->|Hn]; [left; eauto|].
    apply elem_of_cons in Hn as [->|Hn]; [congruence|].
    right. eauto.
Qed.

(** *** The sparse mapping *)

Lemma mapColumns_spec (m : sparseMapping) r (composite : bytes)
    (fields : list field) (acc columns : list Column) :
  mapColumns m r composite fields acc = Ok columns ->
  exists new, columns = acc ++ new
              /\ Forall2 (columnOf r composite)
                   (filter (isDataField m) fields) new.
Proof.
  revert acc. induction fields as [|f fields IH]; intros acc;
    cbn [mapColumns].
  - intros [= <-]. exists []. by rewrite app_nil_r.
  - destruct (decide (name f = m_key m)) as [Hkey|Hkey].
    { rewrite filter_cons_False by (intros [? _]; done). apply IH. }
    destruct (decide (is_Some (m_componentsMap m !! name f))) as [Hc|Hc].
    { rewrite filter_cons_False by (intros [_ ?]; done). apply IH. }
    rewrite filter_cons_True by done.
    destruct (marshalName f) as [nb| |] eqn:Hnb; try discriminate.
    cbn [bind].
    destruct (marshalValue f r) as [vb| |] eqn:Hvb; try discriminate.
    cbn [bind]. intros (new & -> & Hnew)%IH.
    eexists (_ :: new). split; [by rewrite <- app_assoc|].
    constructor; [|exact Hnew]. exists nb. done.
Qed.

Lemma sparseMapping_Map_spec (m : sparseMapping) si r (row : Row) :
  sparseMapping_Map m (StructPointer si r) = Ok row ->
  marshalsTo si r (m_key m) (Key row)
  /\ exists bs,
       Forall2 (marshalsTo si r) (m_components m) bs
       /\ Forall2 (columnOf r (pack eocEquals bs))
            (filter (isDataField m) (orderedFields si)) (Columns row).
Proof.
  unfold sparseMapping_Map.
  destruct (startMap m (StructPointer si r))
    as [[[[row0 v0] si0] composite]| |] eqn:Hs; try discriminate.
  apply startMap_spec in Hs as (-> & -> & Hnil & Hkey & bs & -> & Hbs).
  cbn [bind]. rewrite Hnil.
  destruct (mapColumns m r (pack eocEquals bs) (orderedFields si) [])
    as [columns| |] eqn:Hc; try discriminate.
  cbn [bind]. intros [= <-]. cbn [Key Columns].
  apply mapColumns_spec in Hc as (new & -> & Hnew). eauto.
Qed.

Lemma NextColumn_sliceAt (p : sliceProvider) (k : nat) :
  NextColumn (sliceAt p k)
  = match sp_columns p !! k with
    | Some column => (Ok column, sliceAt p (S k))
    | None => (Err (sp_end p), sliceAt p k)
    end.
Proof.
  cbn [NextColumn sliceRowProvider sliceAt sp_columns sp_position].
  destruct (sp_columns p !! k); reflexivity.
Qed.

Lemma groupOf_snoc (bs : list bytes) (b : bytes) : groupOf (bs ++ [b]) = bs.
Proof.
  unfold groupOf. rewrite length_app. cbn [length].
  replace (length bs + 1 - 1) with (length bs) by lia.
  apply take_app_length.
Qed.

Section Group.

Variables (m : sparseMapping) (si : structInspection) (r : structValue).
Variable bs : list bytes.

Hypothesis Hregistry : registryConsistent si.
Hypothesis Hcodec :
  forall f, f ∈ orderedFields si -> fieldRoundTrips r f /\ nameRoundTrips f.
Hypothesis Hbs : Forall2 (marshalsTo si r) (m_components m) bs.
Hypothesis Hfit :
  m_components m <> [] ->
  componentsFit si (m_components m) r
  /\ forall f b, f ∈ orderedFields si -> marshalName f = Ok b ->
                 fitsUint16 b.

Lemma extractComponents_columnOf f (column : Column) (nb : bytes) :
  f ∈ orderedFields si ->
  marshalName f = Ok nb ->
  Name column
  = (if decide (0 < length (pack eocEquals bs))
     then pack eocEquals bs ++ packComposite nb eocEquals
     else nb) ->
  extractComponents m column (rtypeName si) 1 = Ok (bs ++ [nb]).
Proof.
  intros Hf Hnb Hname. unfold extractComponents.
  pose proof (Forall2_length _ _ _ Hbs) as Hlen.
  destruct (decide (0 < length (m_components m))) as [Hpos|Hzero].
  - assert (Hne : m_components m <> [])
      by (intros Hnil; rewrite Hnil in Hpos; cbn in Hpos; lia).
    destruct (Hfit Hne) as [Hfitc Hfitn].
    assert (0 < length (pack eocEquals bs)).
    { destruct bs as [|b0 bs0]; [cbn in Hlen; lia|].
      rewrite pack_cons, length_app, length_packComposite. lia. }
    rewrite decide_True in Hname by done. rewrite Hname.
    replace (pack eocEquals bs ++ packComposite nb eocEquals)
      with (pack eocEquals (bs ++ [nb]))
      by (rewrite pack_app; unfold pack; cbn; by rewrite app_nil_r).
    rewrite unpackComposite_pack.
    + rewrite decide_False; [reflexivity|].
      rewrite length_app. cbn [length]. lia.
    + apply Forall_app. split; [eapply marshalsTo_fit; eauto|].
      constructor; [|constructor]. eapply Hfitn; eauto.
  - assert (bs = []) as ->
      by (destruct bs; [done|cbn in Hlen; lia]).
    cbn in Hname. rewrite Hname.
    rewrite decide_False; [reflexivity|].
    cbn [length app]. lia.
Qed.

Lemma lookupFieldByName_columnOf I v f (column : Column) (nb : bytes)
    (p : sliceProvider) :
  f ∈ orderedFields si ->
  marshalName f = Ok nb ->
  marshalValue f r = Ok (Value column) ->
  decodedOn I r v ->
  exists v',
    lookupFieldByName si column (bs ++ [nb]) v p
    = Continue {| us_v := v'; us_provider := p;
                  compositeFieldsAreSet := true;
                  previousComponents := bs ++ [nb] |}
    /\ decodedOn (fun i => I i \/ i = index f) r v'.
Proof.
  intros Hf Hnb Hvb Hv. unfold lookupFieldByName.
  rewrite last_snoc.
  destruct (Hcodec f Hf) as [Hfield Hname].
  unfold marshalName in Hnb.
  destruct (Marshal (VString (cassandraName f)) UTF8Type) as [b| |] eqn:Hb;
    try discriminate.
  injection Hnb as ->. rewrite (Hname nb Hb).
  rewrite (proj2 (proj1 Hregistry f Hf)).
  destruct (unmarshalValue_decodes I r v f (Value column) Hv Hfield Hvb)
    as (v' & -> & Hv').
  eauto.
Qed.

(** The rounds of the loop over the columns of the group that are left
    in the provider. *)
Lemma unmapLoop_group (p : sliceProvider) (fs : list field)
    (rest : list Column) :
  sp_end p = EndBeforeLimit ->
  Forall2 (columnOf r (pack eocEquals bs)) fs rest ->
  forall (pre : list Column) I v (nb0 : bytes) (fuel : nat),
    sp_columns p = pre ++ rest ->
    (forall f, f ∈ fs -> f ∈ orderedFields si) ->
    decodedOn I r v ->
    length rest < fuel ->
    exists v',
      unmapLoop fuel m si
        {| us_v := v; us_provider := sliceAt p (length pre);
           compositeFieldsAreSet := true;
           previousComponents := bs ++ [nb0] |}
      = Some (Ok v', sliceAt p (length (sp_columns p)))
      /\ decodedOn (fun i => I i \/ exists f, f ∈ fs /\ index f = i) r v'.
Proof.
  intros Hend Hrest.
  induction Hrest as [|f column fs rest (nb & Hnb & Hvb & Hname) Hrest IH];
    intros pre I v nb0 fuel Hcols Hfs Hv Hfuel;
    (destruct fuel as [|fuel]; [cbn in Hfuel; lia|]);
    cbn [unmapLoop]; unfold unmapBody;
    cbn [us_v us_provider compositeFieldsAreSet previousComponents negb];
    rewrite NextColumn_sliceAt, Hcols.
  - rewrite app_nil_r, lookup_ge_None_2 by done. rewrite Hend.
    exists v. split; [reflexivity|].
    eapply decodedOn_weaken; [|exact Hv].
    intros i [Hi|(f & Hf & _)]; [done|by apply elem_of_nil in Hf].
  - rewrite lookup_app_r, Nat.sub_diag by done. cbn [lookup list_lookup].
    assert (Hf : f ∈ orderedFields si) by apply Hfs, list_elem_of_here.
    rewrite (extractComponents_columnOf f column nb Hf Hnb Hname).
    replace (isNewComponents (bs ++ [nb0]) (bs ++ [nb]) 1) with false.
    2:{ symmetry. apply isNewComponents_false.
        rewrite !groupOf_snoc, !length_app. done. }
    destruct (lookupFieldByName_columnOf I v f column nb
                (sliceAt p (S (length pre))) Hf Hnb Hvb Hv)
      as (v1 & -> & Hv1).
    destruct (IH (pre ++ [column]) (fun i => I i \/ i = index f) v1 nb fuel)
      as (v2 & Hloop & Hv2);
      [by rewrite <- app_assoc
      |intros f' Hf'; by apply Hfs, list_elem_of_further
      |exact Hv1|cbn in Hfuel; lia|].
    rewrite length_app, Nat.add_1_r in Hloop. rewrite <- Hcols.
    exists v2. split; [exact Hloop|].
    eapply decodedOn_weaken; [|exact Hv2].
    intros i [Hi|(f' & Hf' & Hi)].
    + by left; left.
    + apply elem_of_cons in Hf' as [->|Hf'].
      * left; right. done.
      * right. eauto.
Qed.

(** The loop of Unmap over the columns of one group, from the first
    round on. *)
Lemma unmapLoop_first (p : sliceProvider) (fs : list field) I v
    (fuel : nat) :
  sp_end p = EndBeforeLimit ->
  fs <> [] ->
  Forall2 (columnOf r (pack eocEquals bs)) fs (sp_columns p) ->
  (forall f, f ∈ fs -> f ∈ orderedFields si) ->
  decodedOn I r v ->
  length (sp_columns p) < fuel ->
  exists v',
    unmapLoop fuel m si (unmapStart v (sliceAt p 0))
    = Some (Ok v', sliceAt p (length (sp_columns p)))
    /\ decodedOn
         (fun i => (I i \/ exists c f, c ∈ m_components m
                               /\ goFields si !! c = Some f /\ index f = i)
                   \/ exists f, f ∈ fs /\ index f = i) r v'.
Proof.
  intros Hend Hsome Hcols Hfs Hv Hfuel.
  destruct (sp_columns p) as [|column rest] eqn:Ecols;
    [by apply Forall2_nil_inv_r in Hcols|].
  destruct fs as [|f fs]; [done|].
  apply Forall2_cons in Hcols as [(nb & Hnb & Hvb & Hname) Hrest].
  destruct fuel as [|fuel]; [cbn in Hfuel; lia|].
  cbn [unmapLoop]. unfold unmapBody.
  cbn [unmapStart us_v us_provider compositeFieldsAreSet
       previousComponents negb].
  rewrite NextColumn_sliceAt, Ecols. cbn [lookup list_lookup].
  assert (Hf : f ∈ orderedFields si) by apply Hfs, list_elem_of_here.
  rewrite (extractComponents_columnOf f column nb Hf Hnb Hname).
  assert (Hcodec' : forall c f', c ∈ m_components m ->
                      goFields si !! c = Some f' -> fieldRoundTrips r f').
  { intros c f' _ Hf'. apply Hcodec. exact (proj2 Hregistry c f' Hf'). }
  destruct (unmapComponentsFrom_decodes I r v si (m_components m) bs []
              [nb] Hbs Hcodec' Hv) as (v1 & Hun & Hv1).
  cbn [length app] in Hun. unfold unmapComponents. rewrite Hun.
  destruct (lookupFieldByName_columnOf _ v1 f column nb (sliceAt p 1)
              Hf Hnb Hvb Hv1) as (v2 & -> & Hv2).
  assert (Hfs' : forall f', f' ∈ fs -> f' ∈ orderedFields si)
    by (intros f' Hf'; by apply Hfs, list_elem_of_further).
  assert (Hfuel' : length rest < fuel) by (cbn in Hfuel; lia).
  destruct (unmapLoop_group p fs rest Hend Hrest [column] _ v2 nb fuel
              Ecols Hfs' Hv2 Hfuel') as (v3 & Hloop & Hv3).
  rewrite Ecols in Hloop. exists v3. split; [exact Hloop|].
  eapply decodedOn_weaken; [|exact Hv3].
  intros i [Hi|(f' & Hf' & Hi)]; [by left; left|].
  apply elem_of_cons in Hf' as [->|Hf']; [by left; right|right; eauto].
Qed.

End Group.

Lemma Forall2_Permutation {A B : Type} (R : A -> B -> Prop)
    (xs : list A) (ys ys' : list B) :
  Forall2 R xs ys -> Permutation ys ys' ->
  exists xs', Permutation xs xs' /\ Forall2 R xs' ys'.
Proof.
  intros HR Hperm. revert xs HR.
  induction Hperm as [|y l l' _ IH|x y l|l l' l'' _ IH1 _ IH2]; intros xs HR.
  - apply Forall2_nil_inv_r in HR as ->. exists []. by split.
  - apply Forall2_cons_inv_r in HR as (a & xs0 & Ha & HR & ->).
    destruct (IH _ HR) as (xs' & Hp & HR').
    exists (a :: xs'). split; [by constructor|by constructor].
  - apply Forall2_cons_inv_r in HR as (a & xs0 & Ha & HR & ->).
    apply Forall2_cons_inv_r in HR as (b & xs1 & Hb & HR & ->).
    exists (b :: a :: xs1). split; [apply perm_swap|by repeat constructor].
  - destruct (IH1 _ HR) as (xs' & Hp & HR').
    destruct (IH2 _ HR') as (xs'' & Hp' & HR'').
    exists xs''. split; [by etrans|done].
Qed.

Lemma componentsMap_foldl (names : list string) (acc : gmap string bool)
    (n : string) :
  is_Some (foldl (fun cm c => <[c := true]> cm) acc names !! n)
  <-> n ∈ names \/ is_Some (acc !! n).
Proof.
  revert acc. induction names as [|c names IH]; intros acc; cbn [foldl].
  - split; [by right|]. intros [Hn|Hn]; [by apply elem_of_nil in Hn|done].
  - rewrite IH, lookup_insert_is_Some, elem_of_cons.
    destruct (decide (c = n)) as [->|Hne]; [tauto|].
    split; [intros [?|[?|[_ ?]]]; tauto|intros [[?|?]|?]; try tauto].
    congruence.
Qed.

Lemma newSparseMapping_componentsMap si (cf key : string)
    (names : list string) (n : string) :
  is_Some (m_componentsMap (newSparseMapping si cf key names) !! n)
  <-> n ∈ names.
Proof.
  cbn [newSparseMapping m_componentsMap]. rewrite componentsMap_foldl.
  rewrite lookup_empty. split; [intros [?|[? ?]]; done|by left].
Qed.

(** C1, as amended: for a record with at least one field that is neither
    the key nor a component, of a type whose registry indexes its declared
    fields, with a codec that gives the fields and their names back and
    component values and field names that marshal to fewer than 65536
    bytes when there are component fields, Unmap of the sparse mapping,
    fed the columns of Map of the record in any order by a provider that
    signals [EndBeforeLimit] after the last one, returns without error and
    leaves in a fresh destination of the record type a record equal to
    the one mapped. *)
Theorem sparseMapping_round_trip si (cf key : string) (names : list string)
    r dest (row : Row) (columns : list Column) (fuel : nat) :
  sparseMapping_Map (newSparseMapping si cf key names) (StructPointer si r)
  = Ok row ->
  Permutation columns (Columns row) ->
  (exists f, f ∈ orderedFields si /\ name f <> key /\ name f ∉ names) ->
  registryConsistent si ->
  (forall i, i < length r -> exists f, f ∈ orderedFields si /\ index f = i) ->
  (forall f, f ∈ orderedFields si ->
             fieldRoundTrips r f /\ nameRoundTrips f) ->
  (names <> [] ->
   componentsFit si names r
   /\ forall f b, f ∈ orderedFields si -> marshalName f = Ok b ->
                  fitsUint16 b) ->
  sameShape dest r ->
  length columns < fuel ->
  sparseMapping_Unmap fuel (newSparseMapping si cf key names)
    (StructPointer si dest)
    (newSliceProvider (Key row) columns EndBeforeLimit)
  = Some (Ok r, sliceAt (newSliceProvider (Key row) columns EndBeforeLimit)
                  (length columns)).
Proof.
  set (m := newSparseMapping si cf key names).
  intros Hmap Hperm (f0 & Hf0 & Hf0key & Hf0comp) Hregistry Hcover Hcodec
    Hfit Hshape Hfuel.
  apply sparseMapping_Map_spec in Hmap as (Hkey & bs & Hbs & Hcols).
  destruct (Forall2_Permutation _ _ _ _ Hcols (Permutation_sym Hperm))
    as (fs & Hfs & Hcolumns).
  assert (Hdata : forall f, f ∈ fs <-> f ∈ orderedFields si /\ isDataField m f).
  { intros f. rewrite <- Hfs, list_elem_of_filter. tauto. }
  assert (Hkeycodec : forall f, goFields si !! m_key m = Some f ->
                                fieldRoundTrips r f).
  { intros f Hf. apply Hcodec. exact (proj2 Hregistry _ _ Hf). }
  destruct (startUnmap_decodes m si r dest row columns EndBeforeLimit
              Hshape Hkey Hkeycodec) as (v1 & Hstart & Hv1).
  unfold sparseMapping_Unmap. rewrite Hstart.
  set (p := newSliceProvider (Key row) columns EndBeforeLimit).
  assert (Hsome : fs <> []).
  { intros ->. apply (elem_of_nil f0), Hdata. split; [done|].
    split; [done|]. intros Hc. apply Hf0comp.
    by apply (newSparseMapping_componentsMap si cf key names). }
  assert (Hordered : forall f, f ∈ fs -> f ∈ orderedFields si)
    by (intros f Hf; by apply Hdata in Hf as [? _]).
  destruct (unmapLoop_first m si r bs Hregistry Hcodec Hbs Hfit p fs _ v1
              fuel eq_refl Hsome Hcolumns Hordered Hv1 Hfuel)
    as (v2 & Hloop & Hv2).
  change (sliceAt p 0) with p in Hloop. cbn [p newSliceProvider sp_columns]
    in Hloop. rewrite Hloop. f_equal. f_equal. f_equal.
  eapply decodedOn_all; [|exact Hv2].
  intros i Hi. destruct (Hcover i Hi) as (f & Hf & <-).
  destruct (proj1 Hregistry f Hf) as [Hgo _].
  destruct (decide (name f = m_key m)) as [Hk|Hk].
  { left; left. exists f. by rewrite <- Hk. }
  destruct (decide (is_Some (m_componentsMap m !! name f))) as [Hc|Hc].
  { left; right. exists (name f), f.
    apply (newSparseMapping_componentsMap si cf key names) in Hc. done. }
  right. exists f. split; [|done]. apply Hdata. done.
Qed.

End RoundTrip.

(** ** The compact mapping without component fields *)

(** C10: for a compact mapping with no component field, every call of Unmap
    that is given a column returns the shape-mismatch error, because
    extractComponents takes the whole name as one component and expects
    none; this holds of the one column that Map of the same mapping
    writes. *)
Theorem compactMapping_Unmap_no_components `{Primitives}
    (cm : compactMapping) :
  m_components (m_sparse cm) = [] ->
  (forall (P : Type) (provider : RowProvider P) (dest : GoInterface) (p : P)
          (v : structValue) (si : structInspection) (column : Column) (p' : P),
      startUnmap (m_sparse cm) dest p = Ok (v, si) ->
      NextColumn p = (Ok column, p') ->
      componentsFound (m_sparse cm) column = Some [Name column]
      /\ length [Name column] <> length (m_components (m_sparse cm)) + 0
      /\ compactMapping_Unmap cm dest p
         = (Err (ErrComponentCount (rtypeName si)), p'))
  /\ (forall (source dest : GoInterface) (row : Row) (signal : error)
             (v : structValue) (si : structInspection),
         compactMapping_Map cm source = Ok row ->
         startUnmap (m_sparse cm) dest
           (newSliceProvider (Key row) (Columns row) signal) = Ok (v, si) ->
         (exists column, Columns row = [column])
         /\ compactMapping_Unmap cm dest
              (newSliceProvider (Key row) (Columns row) signal)
            = (Err (ErrComponentCount (rtypeName si)),
               sliceAt (newSliceProvider (Key row) (Columns row) signal) 1)).
Proof.
  intros Hnone. split.
  - intros P provider dest p v si column p' Hstart Hnext.
    destruct (compactMapping_Unmap_whole_name cm dest p v si column p'
                Hnone Hstart Hnext) as [Hfound Hunmap].
    split; [exact Hfound|]. split; [rewrite Hnone; discriminate|exact Hunmap].
  - intros source dest row signal v si Hmap Hstart.
    destruct (compactMapping_Map_one_column cm source row Hmap)
      as [column Hcolumn].
    split; [by exists column|].
    refine (proj2 (compactMapping_Unmap_whole_name cm dest _ v si column _
                     Hnone Hstart _)).
    rewrite Hcolumn. reflexivity.
Qed.

(** ** The theorems at the record types of the examples *)

Lemma sliceProvider_Rewind (q : sliceProvider) (c : Column)
    (q' : sliceProvider) :
  NextColumn q = (Ok c, q') -> NextColumn (Rewind q') = (Ok c, q').
Proof.
  cbn [NextColumn Rewind sliceRowProvider].
  destruct (sp_columns q !! sp_position q) as [column|] eqn:E; [|discriminate].
  intros [= <- <-]. cbn [sliceAt sp_columns sp_position pred].
  rewrite E. reflexivity.
Qed.

Lemma sparseMapping_Unmap_exhaustion_witness :
  @sparseMapping_Unmap wirePrimitives sliceProvider sliceRowProvider 3 Users.mapping
    (StructPointer Users.inspection Users.blank)
    (Users.provider (Columns Users.aliceRow) EndBeforeLimit)
  = Some (Ok Users.alice,
          sliceAt (Users.provider (Columns Users.aliceRow) EndBeforeLimit) 2).
Proof.
  refine (proj1 (proj2 (proj2
    (@sparseMapping_Unmap_exhaustion wirePrimitives sliceProvider sliceRowProvider Users.mapping
       (StructPointer Users.inspection Users.blank)
       (Users.provider (Columns Users.aliceRow) EndBeforeLimit)
       Users.keyed Users.inspection 2 3
       {| us_v := Users.alice;
          us_provider :=
            sliceAt (Users.provider (Columns Users.aliceRow) EndBeforeLimit) 2;
          compositeFieldsAreSet := true;
          previousComponents :=
            [list_byte_of_string "profile"; list_byte_of_string "Age"] |}
       EndBeforeLimit
       (sliceAt (Users.provider (Columns Users.aliceRow) EndBeforeLimit) 2)
       _ _ _ _))) eq_refl _).
  - vm_compute. reflexivity.
  - vm_compute. reflexivity.
  - vm_compute. reflexivity.
  - lia.
  - lia.
Defined.

Lemma Unmap_shape_mismatch_witness :
  @sparseMapping_Unmap wirePrimitives sliceProvider sliceRowProvider 1 Users.mapping
    (StructPointer Users.inspection Users.blank)
    (Users.provider [Users.short] EndBeforeLimit)
  = Some (Err (ErrComponentCount "User"),
          sliceAt (Users.provider [Users.short] EndBeforeLimit) 1)
  /\ @compactMapping_Unmap wirePrimitives sliceProvider sliceRowProvider Readings.mapping
       (StructPointer Readings.inspection Readings.blank)
       (newSliceProvider (list_byte_of_string "r1")
          [Users.column "temp" "extra" Users.long30] EndBeforeLimit)
     = (Err (ErrComponentCount "Reading"),
        sliceAt (newSliceProvider (list_byte_of_string "r1")
                   [Users.column "temp" "extra" Users.long30] EndBeforeLimit)
          1).
Proof.
  split.
  - refine (proj1
      (@Unmap_shape_mismatch wirePrimitives sliceProvider sliceRowProvider Users.mapping ""
         (StructPointer Users.inspection Users.blank)
         (Users.provider [Users.short] EndBeforeLimit)
         Users.keyed Users.inspection Users.short
         [list_byte_of_string "profile"]
         (sliceAt (Users.provider [Users.short] EndBeforeLimit) 1) _ _)
      0 1 (unmapStart Users.keyed
             (Users.provider [Users.short] EndBeforeLimit)) _ _ _ _).
    + vm_compute. reflexivity.
    + vm_compute. reflexivity.
    + reflexivity.
    + vm_compute. reflexivity.
    + vm_compute. lia.
    + lia.
  - refine (proj2
      (@Unmap_shape_mismatch wirePrimitives sliceProvider sliceRowProvider (m_sparse Readings.mapping)
         "Val" (StructPointer Readings.inspection Readings.blank)
         (newSliceProvider (list_byte_of_string "r1")
            [Users.column "temp" "extra" Users.long30] EndBeforeLimit)
         [VString "r1"; VString ""; VInt 0] Readings.inspection
         (Users.column "temp" "extra" Users.long30)
         [list_byte_of_string "temp"; list_byte_of_string "extra"]
         (sliceAt (newSliceProvider (list_byte_of_string "r1")
                     [Users.column "temp" "extra" Users.long30]
                     EndBeforeLimit) 1) _ _) _ _).
    + vm_compute. reflexivity.
    + vm_compute. reflexivity.
    + vm_compute. reflexivity.
    + vm_compute. lia.
Defined.

Lemma compactMapping_Unmap_no_components_witness :
  (exists column, Columns Events.row = [column])
  /\ @compactMapping_Unmap wirePrimitives sliceProvider sliceRowProvider Events.mapping
       (StructPointer Events.inspection Events.blank)
       (newSliceProvider (Key Events.row) (Columns Events.row) EndBeforeLimit)
     = (Err (ErrComponentCount "Event"),
        sliceAt (newSliceProvider (Key Events.row) (Columns Events.row)
                   EndBeforeLimit) 1).
Proof.
  refine (proj2
    (@compactMapping_Unmap_no_components wirePrimitives Events.mapping _)
    (StructPointer Events.inspection Events.record)
    (StructPointer Events.inspection Events.blank)
    Events.row EndBeforeLimit [VString "e1"; VString ""] Events.inspection
    _ _).
  - reflexivity.
  - vm_compute. reflexivity.
  - vm_compute. reflexivity.
Defined.

Lemma sparseMapping_Unmap_unknown_column_witness :
  @unmapBody wirePrimitives sliceProvider sliceRowProvider Users.mapping Users.inspection
    {| us_v := Users.named;
       us_provider := sliceAt (Users.provider Users.withEmail EndBeforeLimit) 1;
       compositeFieldsAreSet := true;
       previousComponents :=
         [list_byte_of_string "profile"; list_byte_of_string "Name"] |}
  = Continue
      {| us_v := Users.named;
         us_provider :=
           sliceAt (Users.provider Users.withEmail EndBeforeLimit) 2;
         compositeFieldsAreSet := true;
         previousComponents :=
           [list_byte_of_string "profile"; list_byte_of_string "Email"] |}
  /\ @unmapLoop wirePrimitives sliceProvider sliceRowProvider 3 Users.mapping Users.inspection
       {| us_v := Users.named;
          us_provider :=
            sliceAt (Users.provider Users.withEmail EndBeforeLimit) 1;
          compositeFieldsAreSet := true;
          previousComponents :=
            [list_byte_of_string "profile"; list_byte_of_string "Name"] |}
     = @unmapLoop wirePrimitives sliceProvider sliceRowProvider 2 Users.mapping Users.inspection
         {| us_v := Users.named;
            us_provider :=
              sliceAt (Users.provider Users.withEmail EndBeforeLimit) 2;
            compositeFieldsAreSet := true;
            previousComponents :=
              [list_byte_of_string "profile"; list_byte_of_string "Name"] |}.
Proof.
  destruct (proj1
    (@sparseMapping_Unmap_unknown_column wirePrimitives sliceProvider sliceRowProvider Users.mapping
       Users.inspection
       {| us_v := Users.named;
          us_provider :=
            sliceAt (Users.provider Users.withEmail EndBeforeLimit) 1;
          compositeFieldsAreSet := true;
          previousComponents :=
            [list_byte_of_string "profile"; list_byte_of_string "Name"] |}
       (Users.column "profile" "Email" (list_byte_of_string "a@example.org"))
       (sliceAt (Users.provider Users.withEmail EndBeforeLimit) 2)
       [list_byte_of_string "profile"; list_byte_of_string "Email"]
       (list_byte_of_string "Email") "Email"
       ltac:(vm_compute; reflexivity) ltac:(vm_compute; reflexivity)
       ltac:(vm_compute; reflexivity) ltac:(vm_compute; reflexivity)
       ltac:(vm_compute; reflexivity))
    ltac:(reflexivity) ltac:(vm_compute; reflexivity)) as [Hbody Hloop].
  split; [exact Hbody|exact (Hloop 2)].
Defined.

Lemma sparseMapping_Unmap_next_group_witness :
  @sparseMapping_Unmap wirePrimitives sliceProvider sliceRowProvider 3 Users.mapping
    (StructPointer Users.inspection Users.blank)
    (Users.provider Users.twoGroups EndBeforeLimit)
  = Some (Ok Users.alice,
          Rewind (sliceAt (Users.provider Users.twoGroups EndBeforeLimit) 3))
  /\ NextColumn
       (Rewind (sliceAt (Users.provider Users.twoGroups EndBeforeLimit) 3))
     = (Ok (Users.column "settings" "Name" (list_byte_of_string "Al")),
        sliceAt (Users.provider Users.twoGroups EndBeforeLimit) 3).
Proof.
  refine (@sparseMapping_Unmap_next_group wirePrimitives sliceProvider sliceRowProvider Users.mapping
    (StructPointer Users.inspection Users.blank)
    (Users.provider Users.twoGroups EndBeforeLimit)
    Users.keyed Users.inspection 1 3
    {| us_v := Users.alice;
       us_provider := sliceAt (Users.provider Users.twoGroups EndBeforeLimit) 2;
       compositeFieldsAreSet := true;
       previousComponents :=
         [list_byte_of_string "profile"; list_byte_of_string "Age"] |}
    (Users.column "profile" "Name" (list_byte_of_string "Alice"))
    (Users.column "settings" "Name" (list_byte_of_string "Al"))
    (sliceAt (Users.provider Users.twoGroups EndBeforeLimit) 1)
    (sliceAt (Users.provider Users.twoGroups EndBeforeLimit) 3)
    [list_byte_of_string "profile"; list_byte_of_string "Name"]
    [list_byte_of_string "settings"; list_byte_of_string "Name"]
    sliceProvider_Rewind _ _ _ _ _ _ _ _).
  - vm_compute. reflexivity.
  - vm_compute. reflexivity.
  - vm_compute. reflexivity.
  - vm_compute. reflexivity.
  - vm_compute. reflexivity.
  - vm_compute. reflexivity.
  - vm_compute. intros Heq. discriminate Heq.
  - lia.
Defined.

(** The second call of Unmap on the provider left by the first one decodes
    the second record of the row. *)
Example sparseMapping_Unmap_second_call :
  @sparseMapping_Unmap wirePrimitives sliceProvider sliceRowProvider 3 Users.mapping
    (StructPointer Users.inspection Users.blank)
    (Rewind (sliceAt (Users.provider Users.twoGroups EndBeforeLimit) 3))
  = Some (Ok [VString "u1"; VString "settings"; VString "Al"; VInt 31],
          sliceAt (Users.provider Users.twoGroups EndBeforeLimit) 4).
Proof. vm_compute. reflexivity. Qed.

(** The look-up tables built by [newStructInspection] index the fields when
    no two of them share a Go name or a store-facing name. *)
Section Registry.

Variable key : field -> string.

Lemma fieldTable_lookup_Some (fields : list field) (acc : gmap string field)
    (n : string) (f : field) :
  fieldTable key acc fields !! n = Some f ->
  (f ∈ fields /\ key f = n) \/ acc !! n = Some f.
Proof.
  revert acc. induction fields as [|x fields IH]; intros acc; cbn;
    [by right|].
  intros [[Hf Hn]|Hacc]%IH.
  - left. split; [by apply list_elem_of_further|done].
  - apply lookup_insert_Some in Hacc as [[<- <-]|[_ Hacc]].
    + left. split; [apply list_elem_of_here|done].
    + by right.
Qed.

Lemma fieldTable_lookup_other (fields : list field) (acc : gmap string field)
    (n : string) :
  n ∉ map key fields -> fieldTable key acc fields !! n = acc !! n.
Proof.
  revert acc. induction fields as [|x fields IH]; intros acc; cbn;
    [done|].
  intros Hn. apply not_elem_of_cons in Hn as [Hne Hn].
  change (fieldTable key (<[key x := x]> acc) fields !! n = acc !! n).
  rewrite IH by done. by apply lookup_insert_ne.
Qed.

Lemma fieldTable_lookup_field (fields : list field) (acc : gmap string field)
    (f : field) :
  NoDup (map key fields) -> f ∈ fields ->
  fieldTable key acc fields !! key f = Some f.
Proof.
  revert acc. induction fields as [|x fields IH]; intros acc Hnodup Hf;
    [by apply elem_of_nil in Hf|].
  cbn in Hnodup. apply NoDup_cons in Hnodup as [Hx Hnodup].
  change (fieldTable key (<[key x := x]> acc) fields !! key f = Some f).
  apply elem_of_cons in Hf as [->|Hf]; [|by apply IH].
  rewrite fieldTable_lookup_other by done. apply lookup_insert_eq.
Qed.

End Registry.

Lemma newStructInspection_consistent (typeName : string)
    (fields : list field) (tags : list (string * string)) :
  NoDup (map name fields) -> NoDup (map cassandraName fields) ->
  registryConsistent (newStructInspection typeName fields tags).
Proof.
  intros Hgo Hstore. split.
  - intros f Hf. cbn [newStructInspection goFields cassandraFields
                       orderedFields] in *.
    split; [exact (fieldTable_lookup_field name fields ∅ f Hgo Hf)
           |exact (fieldTable_lookup_field cassandraName fields ∅ f Hstore Hf)].
  - intros n f Hf. cbn [newStructInspection goFields orderedFields] in *.
    apply (fieldTable_lookup_Some name) in Hf as [[Hin _]|Hempty]; [done|].
    by rewrite lookup_empty in Hempty.
Qed.

Lemma sparseMapping_round_trip_witness :
  @sparseMapping_Unmap wirePrimitives sliceProvider sliceRowProvider 3
    (newSparseMapping Users.inspection "users" "Id" ["Kind"])
    (StructPointer Users.inspection Users.blank)
    (newSliceProvider (Key Users.aliceRow) (rev (Columns Users.aliceRow))
       EndBeforeLimit)
  = Some (Ok Users.alice,
          sliceAt (newSliceProvider (Key Users.aliceRow)
                     (rev (Columns Users.aliceRow)) EndBeforeLimit)
            (length (rev (Columns Users.aliceRow)))).
Proof.
  apply (@sparseMapping_round_trip wirePrimitives Users.inspection "users"
           "Id" ["Kind"] Users.alice Users.blank Users.aliceRow
           (rev (Columns Users.aliceRow)) 3).
  - vm_compute. reflexivity.
  - symmetry. apply Permutation_rev.
  - exists (newField "Name" 2 UTF8Type).
    split; [do 2 apply list_elem_of_further; apply list_elem_of_here|].
    split; [discriminate|].
    intros Hin%list_elem_of_singleton. discriminate Hin.
  - apply newStructInspection_consistent;
      apply (bool_decide_unpack _); vm_compute; exact I.
  - intros i Hi.
    destruct i as [|[|[|[|i]]]];
      [exists (newField "Id" 0 UTF8Type)
      |exists (newField "Kind" 1 UTF8Type)
      |exists (newField "Name" 2 UTF8Type)
      |exists (newField "Age" 3 LongType)
      |cbn in Hi; lia];
      (split; [|reflexivity]);
      repeat first [apply list_elem_of_here|apply list_elem_of_further].
  - intros f Hf.
    cbn [Users.inspection newStructInspection orderedFields Users.fields]
      in Hf.
    each_field Hf; (split; [wire_field_round_trips|wire_name_round_trips]).
  - intros _. split.
    + intros c f b Hc%list_elem_of_singleton Hf Hb. subst c.
      vm_compute in Hf. injection Hf as <-.
      vm_compute in Hb. injection Hb as <-. vm_compute. reflexivity.
    + intros f b Hf Hb.
      cbn [Users.inspection newStructInspection orderedFields Users.fields]
        in Hf.
      each_field Hf; vm_compute in Hb; injection Hb as <-;
        vm_compute; reflexivity.
  - repeat constructor.
  - cbn. lia.
Defined.

(** C1, as stated, fails on a record type with a key field, a component
    field and no other field: Map writes no column, and Unmap, whatever the
    provider signals after these no columns, returns [Done] instead of the
    record. *)
Lemma sparseMapping_round_trip_no_columns :
  NewMapping (StructPointer Tags.inspection Tags.record)
  = Ok (Sparse Tags.mapping)
  /\ @sparseMapping_Map wirePrimitives Tags.mapping
       (StructPointer Tags.inspection Tags.record)
     = Ok {| Key := list_byte_of_string "t1"; Columns := [] |}
  /\ @sparseMapping_Unmap wirePrimitives sliceProvider sliceRowProvider 1
       Tags.mapping (StructPointer Tags.inspection Tags.blank)
       (newSliceProvider (list_byte_of_string "t1") [] EndBeforeLimit)
     = Some (Err Done,
             newSliceProvider (list_byte_of_string "t1") [] EndBeforeLimit)
  /\ @sparseMapping_Unmap wirePrimitives sliceProvider sliceRowProvider 1
       Tags.mapping (StructPointer Tags.inspection Tags.blank)
       (newSliceProvider (list_byte_of_string "t1") [] EndAtLimit)
     = Some (Err Done,
             newSliceProvider (list_byte_of_string "t1") [] EndAtLimit)
  /\ @sparseMapping_Unmap wirePrimitives sliceProvider sliceRowProvider 1
       Tags.mapping (StructPointer Tags.inspection Tags.blank)
       (newSliceProvider (list_byte_of_string "t1") [] Done)
     = Some (Err Done, newSliceProvider (list_byte_of_string "t1") [] Done).
Proof. repeat split; vm_compute; reflexivity. Qed.

Lemma compactMapping_round_trip_witness :
  @compactMapping_Unmap wirePrimitives sliceProvider sliceRowProvider
    Readings.mapping (StructPointer Readings.inspection Readings.blank)
    (newSliceProvider (Key Readings.row) (Columns Readings.row) EndBeforeLimit)
  = (Ok Readings.record,
     sliceAt (newSliceProvider (Key Readings.row) (Columns Readings.row)
                EndBeforeLimit) 1).
Proof.
  apply (proj2 (@compactMapping_round_trip wirePrimitives Readings.mapping
                  Readings.inspection Readings.record Readings.blank
                  Readings.row EndBeforeLimit
                  ltac:(vm_compute; reflexivity))).
  - discriminate.
  - intros i Hi.
    destruct i as [|[|[|i]]]; [..|cbn in Hi; lia].
    + exists "Id". eexists.
      split; [apply list_elem_of_here|]. split; vm_compute; reflexivity.
    + exists "Kind". eexists.
      split; [do 2 apply list_elem_of_further; apply list_elem_of_here|].
      split; vm_compute; reflexivity.
    + exists "Val". eexists.
      split; [apply list_elem_of_further, list_elem_of_here|].
      split; vm_compute; reflexivity.
  - intros c f b Hc%list_elem_of_singleton Hf Hb. subst c.
    vm_compute in Hf. injection Hf as <-.
    vm_compute in Hb. injection Hb as <-. vm_compute. reflexivity.
  - intros n f Hn Hf.
    cbn [Readings.mapping newCompactMapping newSparseMapping m_sparse m_key
         m_value m_components] in Hn.
    each_field Hn; vm_compute in Hf; injection Hf as <-;
      wire_field_round_trips.
  - repeat constructor.
Defined.

(** C2: the code at a compact mapping without component fields, where the
    round trip of the claim is lost.  Map writes one column with the empty
    name, which packs no component, as many as the mapping has; Unmap of
    that column takes the whole name for one component, as the sparse
    mapping does for a bare field name, and returns the shape-mismatch
    error instead of the record. *)
Lemma compactMapping_round_trip_no_components :
  NewMapping (StructPointer Events.inspection Events.record)
  = Ok (Compact Events.mapping)
  /\ @compactMapping_Map wirePrimitives Events.mapping
       (StructPointer Events.inspection Events.record)
     = Ok Events.row
  /\ @compactMapping_Unmap wirePrimitives sliceProvider sliceRowProvider
       Events.mapping (StructPointer Events.inspection Events.blank)
       (newSliceProvider (Key Events.row) (Columns Events.row) EndBeforeLimit)
     = (Err (ErrComponentCount "Event"),
        sliceAt (newSliceProvider (Key Events.row) (Columns Events.row)
                   EndBeforeLimit) 1).
Proof. repeat split; vm_compute; reflexivity. Qed.

(** * Further properties *)

(** ** The test for a new group *)

(** X1: isNewComponents answers false exactly when the two sequences have
    the same number of components and agree, byte for byte, on all but the
    last [bias] components; with bias 0 that is equality of the sequences,
    and a sequence never starts a new group after itself. *)
Theorem isNewComponents_iff (prev next : list bytes) (bias : nat) :
  (isNewComponents prev next bias = false <->
   length prev = length next
   /\ take (length prev - bias) prev = take (length prev - bias) next)
  /\ (isNewComponents prev next 0 = false <-> prev = next)
  /\ isNewComponents prev prev bias = false.
Proof.
  assert (Hiff : forall p n b,
             isNewComponents p n b = false <->
             length p = length n
             /\ take (length p - b) p = take (length p - b) n).
  { intros p n b. unfold isNewComponents.
    destruct (decide (length p ≠ length n)) as [Hne|He].
    - split; [discriminate|]. intros [? _]. contradiction.
    - apply dec_stable in He. rewrite componentsDiffer_false by lia.
      split; [by intros ->|by intros [_ ->]]. }
  split; [apply Hiff|]. split.
  - rewrite Hiff, Nat.sub_0_r. split.
    + intros [Hlen Htake]. rewrite firstn_all in Htake.
      rewrite Hlen, firstn_all in Htake. exact Htake.
    + intros ->. done.
  - apply Hiff. done.
Qed.

(** ** What NewMapping builds *)

Lemma NewMapping_Ok_sparsePart (si : structInspection) (v : structValue)
    (m : Mapping) :
  NewMapping (StructPointer si v) = Ok m ->
  exists cf key,
    globalTags si !! "cf" = Some cf
    /\ globalTags si !! "key" = Some key
    /\ is_Some (goFields si !! key)
    /\ firstMissing (goFields si)
         match globalTags si !! "cols" with
         | Some cols => splitComma cols
         | None => []
         end = None
    /\ sparsePart m
       = newSparseMapping si cf key
           match globalTags si !! "cols" with
           | Some cols => splitComma cols
           | None => []
           end.
Proof.
  unfold NewMapping. cbn [validateAndInspectStruct bind].
  destruct (globalTags si !! "cf") as [cf|]; [|discriminate].
  destruct (globalTags si !! "key") as [key|]; [|discriminate].
  destruct (goFields si !! key) as [fk|] eqn:Efk; [|discriminate].
  destruct (firstMissing (goFields si) _) as [c|] eqn:Emiss; [discriminate|].
  intros Hm. exists cf, key. rewrite Efk.
  repeat split; [done|].
  revert Hm.
  destruct (globalTags si !! "value") as [value|];
    cbn [default from_option id];
    [destruct (goFields si !! value); [|discriminate]
    |destruct (goFields si !! "")];
    repeat case_decide; try discriminate; intros [= <-]; reflexivity.
Qed.

(** X2: the mapping NewMapping builds for a struct type keeps the inspection
    of the type, takes its column family and its key from the tags 'cf' and
    'key', has as components the names of the tag 'cols' split at the
    commas (none without the tag), which all name fields as the key does,
    is compact exactly when the tag 'mapping' is 'compact', and then has the
    tag 'value' as value field (the empty name without the tag). *)
Theorem NewMapping_Ok (si : structInspection) (v : structValue)
    (m : Mapping) :
  NewMapping (StructPointer si v) = Ok m ->
  m_si (sparsePart m) = si
  /\ globalTags si !! "cf" = Some (Cf m)
  /\ globalTags si !! "key" = Some (m_key (sparsePart m))
  /\ is_Some (goFields si !! m_key (sparsePart m))
  /\ m_components (sparsePart m)
     = match globalTags si !! "cols" with
       | Some cols => splitComma cols
       | None => []
       end
  /\ (forall c, c ∈ m_components (sparsePart m) ->
                is_Some (goFields si !! c))
  /\ (forall n, is_Some (m_componentsMap (sparsePart m) !! n)
                <-> n ∈ m_components (sparsePart m))
  /\ match m with
     | Sparse _ =>
         globalTags si !! "mapping" = None
         \/ globalTags si !! "mapping" = Some "sparse"
     | Compact cm =>
         globalTags si !! "mapping" = Some "compact"
         /\ m_value cm = default "" (globalTags si !! "value")
         /\ (is_Some (globalTags si !! "value") ->
             is_Some (goFields si !! m_value cm))
     end.
Proof.
  intros Hm.
  destruct (NewMapping_Ok_sparsePart si v m Hm)
    as (cf & key & Hcf & Hkey & Hfk & Hmiss & Hsm).
  unfold Cf. rewrite Hsm. cbn [newSparseMapping m_si m_cf m_key m_components].
  repeat split; try done.
  - intros c Hc. pose proof (firstMissing_None _ _ Hmiss c Hc) as Hsome.
    destruct (goFields si !! c); [done|congruence].
  - by intros ?%newSparseMapping_componentsMap.
  - by intros ?%(newSparseMapping_componentsMap si cf key).
  - revert Hm. unfold NewMapping. cbn [validateAndInspectStruct bind].
    rewrite Hcf, Hkey. destruct Hfk as [fk ->]. rewrite Hmiss.
    destruct (globalTags si !! "value") as [value|] eqn:Evalue;
      cbn [default from_option id].
    + destruct (goFields si !! value) as [fv|] eqn:Efv; [|discriminate].
      destruct (globalTags si !! "mapping") as [mp|];
        cbn [default from_option id]; repeat case_decide;
        try discriminate; intros [= <-]; subst;
        cbn [newCompactMapping m_value]; try tauto; try congruence.
      rewrite Efv. done.
    + destruct (goFields si !! "");
        destruct (globalTags si !! "mapping") as [mp|];
        cbn [default from_option id]; repeat case_decide;
        try discriminate; intros [= <-]; subst;
        cbn [newCompactMapping m_value]; try tauto; try congruence;
        (repeat split; try done; by intros [? ?]).
Qed.

(** ** Map, MarshalKey and MarshalComponent of a mapping built by NewMapping *)

Section Built.

Context `{Primitives}.

Lemma marshalValue_Err (f : field) (v : structValue) (e : error) :
  marshalValue f v = Err e -> exists cause, e = ErrField (name f) cause.
Proof.
  unfold marshalValue. destruct (v !! index f); [|discriminate].
  destruct (Marshal _ _); try discriminate. intros [= <-]. eauto.
Qed.

Lemma marshalName_Err (f : field) (e : error) :
  marshalName f = Err e -> exists cause, e = ErrField (name f) cause.
Proof.
  unfold marshalName. destruct (Marshal _ _); try discriminate.
  intros [= <-]. eauto.
Qed.

Lemma marshalComponents_Err (si : structInspection) (v : structValue)
    (names : list string) (acc : bytes) (e : error) :
  (forall c, c ∈ names -> is_Some (goFields si !! c)) ->
  marshalComponents si v names acc = Err e ->
  exists fieldName cause, e = ErrField fieldName cause.
Proof.
  revert acc. induction names as [|c names IH]; intros acc Hnames;
    cbn [marshalComponents]; [discriminate|].
  destruct (Hnames c (list_elem_of_here _ _)) as [f ->].
  destruct (marshalValue f v) as [b|e'|] eqn:Hb; cbn [bind].
  - apply IH. intros c' Hc'. by apply Hnames, list_elem_of_further.
  - intros [= <-]. destruct (marshalValue_Err _ _ _ Hb). eauto.
  - discriminate.
Qed.

Lemma startMap_Err (m : sparseMapping) (si : structInspection)
    (r : structValue) (e : error) :
  is_Some (goFields si !! m_key m) ->
  (forall c, c ∈ m_components m -> is_Some (goFields si !! c)) ->
  startMap m (StructPointer si r) = Err e ->
  exists fieldName cause, e = ErrField fieldName cause.
Proof.
  intros [fk Hfk] Hnames. unfold startMap.
  cbn [validateAndInspectStruct bind]. rewrite Hfk.
  destruct (marshalValue fk r) as [b|e'|] eqn:Hb; cbn [bind];
    [|intros [= <-]; destruct (marshalValue_Err _ _ _ Hb); eauto
     |discriminate].
  destruct (marshalComponents si r (m_components m) []) as [c|e'|] eqn:Hc;
    cbn [bind]; try discriminate.
  intros [= <-]. exact (marshalComponents_Err _ _ _ _ _ Hnames Hc).
Qed.

Lemma mapColumns_Err (m : sparseMapping) (r : structValue)
    (composite : bytes) (fields : list field) (acc : list Column)
    (e : error) :
  mapColumns m r composite fields acc = Err e ->
  exists fieldName cause, e = ErrField fieldName cause.
Proof.
  revert acc. induction fields as [|f fields IH]; intros acc;
    cbn [mapColumns]; [discriminate|].
  destruct (decide (name f = m_key m)); [apply IH|].
  destruct (decide (is_Some (m_componentsMap m !! name f))); [apply IH|].
  destruct (marshalName f) as [nb|e'|] eqn:Hnb; cbn [bind];
    [|intros [= <-]; destruct (marshalName_Err _ _ Hnb); eauto|discriminate].
  destruct (marshalValue f r) as [vb|e'|] eqn:Hvb; cbn [bind];
    [apply IH|intros [= <-]; destruct (marshalValue_Err _ _ _ Hvb); eauto
    |discriminate].
Qed.

(** X3: for a mapping that NewMapping built for a struct type, Map of a
    record of that type returns no other error than one of the primitive
    codec for a field: the key field and the component fields are found. *)
Theorem Map_after_NewMapping (si : structInspection) (v r : structValue)
    (m : Mapping) (e : error) :
  NewMapping (StructPointer si v) = Ok m ->
  Map m (StructPointer si r) = Err e ->
  exists fieldName cause, e = ErrField fieldName cause.
Proof.
  intros Hm.
  destruct (NewMapping_Ok_sparsePart si v m Hm)
    as (cf & key & _ & _ & Hfk & Hmiss & Hsm).
  assert (Hnames : forall c, c ∈ m_components (sparsePart m) ->
                             is_Some (goFields si !! c)).
  { rewrite Hsm. cbn [newSparseMapping m_components]. intros c Hc.
    pose proof (firstMissing_None _ _ Hmiss c Hc).
    destruct (goFields si !! c); [done|congruence]. }
  assert (Hkey : is_Some (goFields si !! m_key (sparsePart m)))
    by (by rewrite Hsm).
  clear Hsm Hm. destruct m as [sm|cm]; cbn [Map sparsePart] in *.
  - unfold sparseMapping_Map.
    destruct (startMap sm (StructPointer si r))
      as [[[[row0 v0] si0] composite]|e'|] eqn:Hs; cbn [bind];
      [|intros [= <-]; exact (startMap_Err _ _ _ _ Hkey Hnames Hs)
       |discriminate].
    destruct (mapColumns sm v0 composite (orderedFields si0) (Columns row0))
      as [cols|e'|] eqn:Hc; cbn [bind]; try discriminate.
    intros [= <-]. exact (mapColumns_Err _ _ _ _ _ _ Hc).
  - unfold compactMapping_Map.
    destruct (startMap (m_sparse cm) (StructPointer si r))
      as [[[[row0 v0] si0] composite]|e'|] eqn:Hs; cbn [bind];
      [|intros [= <-]; exact (startMap_Err _ _ _ _ Hkey Hnames Hs)
       |discriminate].
    destruct (goFields si0 !! m_value cm) as [fv|]; [|discriminate].
    destruct (marshalValue fv v0) as [b|e'|] eqn:Hb; cbn [bind];
      try discriminate.
    intros [= <-]. destruct (marshalValue_Err _ _ _ Hb). eauto.
Qed.

(** The key of the row Map writes, for either mapping. *)
Lemma Map_Key (m : Mapping) (si : structInspection) (r : structValue)
    (row : Row) :
  Map m (StructPointer si r) = Ok row ->
  marshalsTo si r (m_key (sparsePart m)) (Key row)
  /\ exists bs,
       Forall2 (marshalsTo si r) (m_components (sparsePart m)) bs
       /\ match m with
          | Sparse sm =>
              Forall2 (columnOf r (pack eocEquals bs))
                (filter (isDataField sm) (orderedFields si)) (Columns row)
          | Compact cm =>
              exists value, Columns row = [mkColumn (pack eocEquals bs) value]
          end.
Proof.
  destruct m as [sm|cm]; cbn [Map sparsePart].
  - apply sparseMapping_Map_spec.
  - unfold compactMapping_Map.
    destruct (startMap (m_sparse cm) (StructPointer si r))
      as [[[[row0 v0] si0] composite]| |] eqn:Hs; try discriminate.
    apply startMap_spec in Hs as (-> & -> & Hnil & Hkey & bs & -> & Hbs).
    cbn [bind]. rewrite Hnil. cbn [app].
    destruct (goFields si !! m_value cm) as [fv|].
    + destruct (marshalValue fv r); try discriminate. cbn [bind].
      intros [= <-]. cbn [Key Columns]. eauto 6.
    + intros [= <-]. cbn [Key Columns]. eauto 6.
Qed.

(** X4: MarshalKey of the value of the key field of a record gives the key
    of the row that Map writes for the record: a row written by Map is found
    under the key MarshalKey computes. *)
Theorem MarshalKey_Map (m : Mapping) (si : structInspection)
    (r : structValue) (row : Row) (f : field) (x : GoValue) :
  m_si (sparsePart m) = si ->
  Map m (StructPointer si r) = Ok row ->
  goFields si !! m_key (sparsePart m) = Some f ->
  r !! index f = Some x ->
  MarshalKey m x = Returns (Key row).
Proof.
  intros Hsi Hmap Hf Hx.
  apply Map_Key in Hmap as [(f' & Hf' & Hb) _].
  rewrite Hf in Hf'. injection Hf' as <-.
  unfold MarshalKey, sparseMapping_MarshalKey. rewrite Hsi, Hf.
  unfold marshalValue in Hb. rewrite Hx in Hb.
  destruct (Marshal x (cassandraType f)); try discriminate.
  by injection Hb as ->.
Qed.

(** X5: MarshalComponent returns the out-of-range error for a position at or
    beyond the number of component fields and panics on a negative one; and
    for a record that Map has written, the component packed at position [i]
    of the name of every column of the row is MarshalComponent of the value
    of the [i]-th component field, at position [i]. *)
Theorem MarshalComponent_Map (m : Mapping) :
  (forall (component : GoValue) (position : Z),
      (Z.of_nat (length (m_components (sparsePart m))) <= position)%Z ->
      MarshalComponent m component position
      = Fails (MsgComponentPosition (length (m_components (sparsePart m)))
                 position))
  /\ (forall (component : GoValue) (position : Z),
         (position < 0)%Z -> MarshalComponent m component position = Panics)
  /\ (forall (si : structInspection) (r : structValue) (row : Row),
         m_si (sparsePart m) = si ->
         Map m (StructPointer si r) = Ok row ->
         exists bs,
           length bs = length (m_components (sparsePart m))
           /\ (forall (i : nat) (c : string) (f : field) (x : GoValue)
                      (b : bytes),
                  m_components (sparsePart m) !! i = Some c ->
                  goFields si !! c = Some f ->
                  r !! index f = Some x ->
                  bs !! i = Some b ->
                  MarshalComponent m x (Z.of_nat i) = Returns b)
           /\ (forall column, column ∈ Columns row ->
                 match m with
                 | Sparse _ =>
                     m_components (sparsePart m) <> [] ->
                     exists columnName,
                       Name column = pack eocEquals (bs ++ [columnName])
                 | Compact _ => Name column = pack eocEquals bs
                 end)).
Proof.
  split; [|split].
  - intros component position Hpos.
    unfold MarshalComponent, sparseMapping_MarshalComponent.
    by rewrite decide_True.
  - intros component position Hneg.
    unfold MarshalComponent, sparseMapping_MarshalComponent.
    rewrite decide_False by lia. by rewrite decide_True.
  - intros si r row Hsi Hmap.
    apply Map_Key in Hmap as (_ & bs & Hbs & Hcols).
    exists bs. split; [symmetry; exact (Forall2_length _ _ _ Hbs)|]. split.
    + intros i c f x b Hc Hf Hx Hb.
      destruct (Forall2_lookup_lr _ _ _ _ _ _ Hbs Hc Hb) as (f' & Hf' & Hm).
      rewrite Hf in Hf'. injection Hf' as <-.
      unfold MarshalComponent, sparseMapping_MarshalComponent.
      apply lookup_lt_Some in Hc as Hlt.
      rewrite decide_False by lia. rewrite decide_False by lia.
      rewrite Nat2Z.id, Hc, Hsi, Hf.
      unfold marshalValue in Hm. rewrite Hx in Hm.
      destruct (Marshal x (cassandraType f)); try discriminate.
      by injection Hm as ->.
    + intros column Hcolumn. destruct m as [sm|cm]; cbn [sparsePart] in *.
      * intros Hsome.
        apply list_elem_of_lookup in Hcolumn as [k Hk].
        destruct (Forall2_lookup_r _ _ _ _ _ Hcols Hk)
          as (f & _ & nb & _ & _ & Hname).
        exists nb. rewrite Hname, decide_True.
        -- rewrite pack_app. unfold pack at 3. cbn [map concat].
           by rewrite app_nil_r.
        -- pose proof (Forall2_length _ _ _ Hbs) as Hlen.
           destruct bs as [|b0 bs0];
             [destruct (m_components sm); [done|discriminate Hlen]|].
           rewrite pack_cons, length_app, length_packComposite. lia.
      * destruct Hcols as [value Hcols]. rewrite Hcols in Hcolumn.
        apply list_elem_of_singleton in Hcolumn as ->. reflexivity.
Qed.

End Built.

(** ** The provider under Unmap *)

Section Provider.

Context `{Primitives} {P : Type} `{RowProvider P}.

Implicit Types (m : sparseMapping) (si : structInspection).
Implicit Types (st : unmapState P) (p : P).

(** X6: an error of the provider that is none of the three exhaustion
    signals comes out of Unmap of the sparse mapping unchanged, at whatever
    round NextColumn returns it; and an error of Key comes out unchanged
    before any column is asked for. *)
Theorem sparseMapping_Unmap_provider_error m (dest : GoInterface) p
    (fuel : nat) :
  (forall v si (n : nat) st (e : error) p',
      startUnmap m dest p = Ok (v, si) ->
      unmapRounds n m si (unmapStart v p) = Some st ->
      NextColumn (us_provider st) = (Err e, p') ->
      e <> Done -> e <> EndBeforeLimit -> e <> EndAtLimit ->
      n < fuel ->
      sparseMapping_Unmap fuel m dest p = Some (Err e, p'))
  /\ (forall si v (e : error),
         dest = StructPointer si v ->
         is_Some (goFields si !! m_key m) ->
         ProviderKey p = Err e ->
         sparseMapping_Unmap fuel m dest p = Some (Err e, p)).
Proof.
  split.
  - intros v si n st e p' Hstart Hrounds Hnext H1 H2 H3 Hfuel.
    eapply sparseMapping_Unmap_return; eauto.
    unfold unmapBody. rewrite Hnext. destruct e; done.
  - intros si v e -> [f Hf] Hkey. unfold sparseMapping_Unmap, startUnmap.
    cbn [validateAndInspectStruct bind]. rewrite Hf, Hkey. reflexivity.
Qed.

(** X7: Unmap of the compact mapping asks the provider for exactly one
    column and never rewinds it; each of the three exhaustion signals makes
    it return [Done], and any other error of the provider comes out
    unchanged. *)
Theorem compactMapping_Unmap_one_column (cm : compactMapping)
    (dest : GoInterface) p v si :
  startUnmap (m_sparse cm) dest p = Ok (v, si) ->
  snd (compactMapping_Unmap cm dest p) = snd (NextColumn p)
  /\ (forall (e : error) p',
         NextColumn p = (Err e, p') ->
         compactMapping_Unmap cm dest p
         = (Err match e with
                | EndBeforeLimit | EndAtLimit => Done
                | _ => e
                end, p')).
Proof.
  intros Hstart. unfold compactMapping_Unmap. rewrite Hstart.
  destruct (NextColumn p) as [[column|e|] p1] eqn:Hnext.
  - split; [reflexivity|]. intros e p' [=].
  - split; [by destruct e|]. intros e' p' [= <- <-].
    by destruct e.
  - split; [reflexivity|]. intros e p' [=].
Qed.

Lemma lookupFieldByName_provider si (column : Column)
    (components : list bytes) (v : structValue) p :
  match lookupFieldByName si column components v p with
  | Continue st' => us_provider st' = p
  | Return _ p' => p' = p
  end.
Proof.
  unfold lookupFieldByName.
  repeat match goal with
  | |- context [match ?x with _ => _ end] =>
      lazymatch x with
      | context [match _ with _ => _ end] => fail
      | _ => destruct x eqn:?
      end
  end; reflexivity.
Qed.

Lemma unmapBody_Return m si st (r : result structValue) p' :
  unmapBody m si st = Return r p' ->
  p' = snd (NextColumn (us_provider st))
  \/ (compositeFieldsAreSet st = true
      /\ p' = Rewind (snd (NextColumn (us_provider st)))
      /\ r = Ok (us_v st)).
Proof.
  unfold unmapBody.
  destruct (NextColumn (us_provider st)) as [[column|e|] p1]; cbn [snd].
  - destruct (extractComponents m column (rtypeName si) 1)
      as [components|e|]; [|by intros [= _ <-]; left..].
    destruct (compositeFieldsAreSet st); cbn [negb].
    + destruct (isNewComponents _ _ _); [intros [= <- <-]; right; done|].
      pose proof (lookupFieldByName_provider si column components (us_v st) p1)
        as Hp.
      destruct (lookupFieldByName _ _ _ _ _); [discriminate|].
      intros [= _ <-]. by left.
    + destruct (unmapComponents m (us_v st) si components) as [v1|e|];
        [|by intros [= _ <-]; left..].
      pose proof (lookupFieldByName_provider si column components v1 p1)
        as Hp.
      destruct (lookupFieldByName _ _ _ _ _); [discriminate|].
      intros [= _ <-]. by left.
  - destruct e; try (by intros [= _ <-]; left).
    destruct (compositeFieldsAreSet st); by intros [= _ <-]; left.
  - by intros [= _ <-]; left.
Qed.

Lemma unmapLoop_advance m si (fuel : nat) st (r : result structValue) p' :
  unmapLoop fuel m si st = Some (r, p') ->
  exists k,
    1 <= k <= fuel
    /\ (p' = advance k (us_provider st)
        \/ ((compositeFieldsAreSet st = true \/ 2 <= k)
            /\ p' = Rewind (advance k (us_provider st))
            /\ exists v', r = Ok v')).
Proof.
  revert st. induction fuel as [|fuel IH]; intros st; cbn [unmapLoop];
    [discriminate|].
  destruct (unmapBody m si st) as [st1|r1 p1] eqn:Hbody.
  - intros (k & Hk & Hp)%IH.
    apply unmapBody_Continue in Hbody
      as (column & components & Hnext & _ & _ & _ & _).
    exists (S k). split; [lia|]. cbn [advance]. rewrite Hnext. cbn [snd].
    destruct Hp as [Hp|(_ & Hp & Hr)]; [by left|right].
    split; [right; lia|done].
  - intros [= <- <-]. exists 1. split; [lia|]. cbn [advance].
    apply unmapBody_Return in Hbody as [Hp|(Hset & Hp & Hr)]; [by left|].
    right. split; [by left|]. split; [done|]. eauto.
Qed.

(** X8: Unmap of the sparse mapping moves the provider back at most once,
    as the last thing it does and only when it returns without error after
    having consumed a column: the provider it leaves is the one after [k]
    calls of NextColumn, or, when it returns [nil] and [k] is at least 2,
    that one rewound once. *)
Theorem sparseMapping_Unmap_rewinds_once m (dest : GoInterface) p v si
    (fuel : nat) (r : result structValue) p' :
  startUnmap m dest p = Ok (v, si) ->
  sparseMapping_Unmap fuel m dest p = Some (r, p') ->
  exists k,
    1 <= k <= fuel
    /\ (p' = advance k p
        \/ (2 <= k /\ p' = Rewind (advance k p) /\ exists v', r = Ok v')).
Proof.
  intros Hstart. unfold sparseMapping_Unmap. rewrite Hstart.
  intros (k & Hk & Hp)%unmapLoop_advance. exists k. split; [done|].
  cbn [unmapStart us_provider compositeFieldsAreSet] in Hp.
  destruct Hp as [Hp|([Hset|Hk2] & Hp & Hr)]; [by left|discriminate|].
  by right.
Qed.

(** *** The fields Unmap leaves alone *)

Lemma unchangedOutside_refl (T : nat -> Prop) (v : structValue) :
  unchangedOutside T v v.
Proof. by split. Qed.

Lemma unchangedOutside_trans (T : nat -> Prop) (v1 v2 v3 : structValue) :
  unchangedOutside T v1 v2 -> unchangedOutside T v2 v3 ->
  unchangedOutside T v1 v3.
Proof.
  intros [Hl1 H1] [Hl2 H2]. split; [congruence|].
  intros i Hi. rewrite H2, H1; done.
Qed.

Lemma unmarshalValue_unchanged (T : nat -> Prop) (f : field) (b : bytes)
    (v v' : structValue) :
  T (index f) -> unmarshalValue f b v = Ok v' -> unchangedOutside T v v'.
Proof.
  intros HT. unfold unmarshalValue.
  destruct (v !! index f) as [d|]; [|discriminate].
  destruct (Unmarshal b (cassandraType f) d); try discriminate.
  intros [= <-]. split; [apply length_insert|].
  intros i Hi. apply list_lookup_insert_ne. by intros <-.
Qed.

Lemma unmapComponentsFrom_unchanged (T : nat -> Prop) si (i : nat)
    (names : list string) (components : list bytes) (v v' : structValue) :
  (forall c f, c ∈ names -> goFields si !! c = Some f -> T (index f)) ->
  unmapComponentsFrom si i names components v = Ok v' ->
  unchangedOutside T v v'.
Proof.
  revert i v. induction names as [|c names IH]; intros i v HT;
    cbn [unmapComponentsFrom].
  - intros [= <-]. apply unchangedOutside_refl.
  - destruct (goFields si !! c) as [f|] eqn:Hf; [|discriminate].
    destruct (components !! i) as [b|]; [|discriminate].
    destruct (unmarshalValue f b v) as [v1| |] eqn:Hv1; try discriminate.
    cbn [bind]. intros Hrest.
    eapply unchangedOutside_trans.
    + eapply unmarshalValue_unchanged; [|exact Hv1].
      eapply HT; [apply list_elem_of_here|exact Hf].
    + eapply IH; [|exact Hrest].
      intros c' f' Hc'. apply HT. by apply list_elem_of_further.
Qed.

Lemma startUnmap_unchanged (T : nat -> Prop) m si (dest v : structValue)
    si' p :
  (forall f, goFields si !! m_key m = Some f -> T (index f)) ->
  startUnmap m (StructPointer si dest) p = Ok (v, si') ->
  si' = si /\ unchangedOutside T dest v.
Proof.
  intros HT. unfold startUnmap. cbn [validateAndInspectStruct bind].
  destruct (goFields si !! m_key m) as [f|] eqn:Hf; [|discriminate].
  destruct (ProviderKey p); try discriminate. cbn [bind].
  destruct (unmarshalValue f a dest) as [v1| |] eqn:Hv1; try discriminate.
  cbn [bind]. intros [= <- <-]. split; [reflexivity|].
  eapply unmarshalValue_unchanged; [|exact Hv1]. by apply HT.
Qed.

Lemma unmapBody_unchanged (T : nat -> Prop) m si st :
  (forall c f, c ∈ m_components m -> goFields si !! c = Some f ->
               T (index f)) ->
  (forall n f, cassandraFields si !! n = Some f -> T (index f)) ->
  match unmapBody m si st with
  | Continue st' => unchangedOutside T (us_v st) (us_v st')
  | Return (Ok v') _ => unchangedOutside T (us_v st) v'
  | Return _ _ => True
  end.
Proof.
  intros Hcomponents Hnamed.
  assert (Hlookup : forall column components v p,
             match lookupFieldByName si column components v p with
             | Continue st' => unchangedOutside T v (us_v st')
             | Return (Ok v') _ => unchangedOutside T v v'
             | Return _ _ => True
             end).
  { intros column components v p. unfold lookupFieldByName.
    destruct (last components); [|done].
    destruct (Unmarshal _ _ _) as [[name| | |]| |]; try done.
    destruct (cassandraFields si !! name) as [f|] eqn:Hf;
      [|apply unchangedOutside_refl].
    destruct (unmarshalValue f (Value column) v) as [v1| |] eqn:Hv1;
      try done.
    eapply unmarshalValue_unchanged; [|exact Hv1]. by eapply Hnamed. }
  unfold unmapBody.
  destruct (NextColumn (us_provider st)) as [[column|e|] p1]; [| |done].
  - destruct (extractComponents m column (rtypeName si) 1)
      as [components|e|]; try done.
    destruct (compositeFieldsAreSet st); cbn [negb].
    + destruct (isNewComponents _ _ _); [apply unchangedOutside_refl|].
      apply Hlookup.
    + destruct (unmapComponents m (us_v st) si components) as [v1|e|] eqn:Hv1;
        try done.
      apply (unmapComponentsFrom_unchanged T) in Hv1; [|done].
      specialize (Hlookup column components v1 p1).
      destruct (lookupFieldByName si column components v1 p1) as [st'|[v'| |] ?];
        try done; by eapply unchangedOutside_trans.
  - destruct e; try done.
    destruct (compositeFieldsAreSet st); [apply unchangedOutside_refl|done].
Qed.

Lemma unmapLoop_unchanged (T : nat -> Prop) m si (fuel : nat) st
    (v' : structValue) p' :
  (forall c f, c ∈ m_components m -> goFields si !! c = Some f ->
               T (index f)) ->
  (forall n f, cassandraFields si !! n = Some f -> T (index f)) ->
  unmapLoop fuel m si st = Some (Ok v', p') ->
  unchangedOutside T (us_v st) v'.
Proof.
  intros Hcomponents Hnamed. revert st.
  induction fuel as [|fuel IH]; intros st; cbn [unmapLoop]; [discriminate|].
  pose proof (unmapBody_unchanged T m si st Hcomponents Hnamed) as Hbody.
  destruct (unmapBody m si st) as [st1|r1 p1].
  - intros Hloop%IH. by eapply unchangedOutside_trans.
  - intros [= -> ->]. exact Hbody.
Qed.

(** X9: when Unmap returns without error, the destination has as many
    fields as before, and every field that is neither the key field, nor a
    component field, nor (sparse mapping) a field known by a store-facing
    name or (compact mapping) the value field holds the value it held
    before the call: Unmap does not reset the destination. *)
Theorem Unmap_unchangedOutside (fuel : nat) (mp : Mapping) si
    (dest v' : structValue) p p' :
  Unmap fuel mp (StructPointer si dest) p = Some (Ok v', p') ->
  unchangedOutside (writtenBy mp si) dest v'.
Proof.
  assert (Hkey : forall f, goFields si !! m_key (sparsePart mp) = Some f ->
                           writtenBy mp si (index f)).
  { intros f Hf. exists f. split; [done|by left]. }
  assert (Hcomponents : forall c f, c ∈ m_components (sparsePart mp) ->
                          goFields si !! c = Some f ->
                          writtenBy mp si (index f)).
  { intros c f Hc Hf. exists f. split; [done|]. right; left. eauto. }
  destruct mp as [sm|cm]; cbn [Unmap sparsePart] in *.
  - unfold sparseMapping_Unmap.
    destruct (startUnmap sm (StructPointer si dest) p) as [[v si']| |] eqn:Hs;
      try discriminate.
    apply (startUnmap_unchanged _ _ _ _ _ _ _ Hkey) in Hs as [-> Hv].
    intros Hloop. eapply unchangedOutside_trans; [exact Hv|].
    refine (unmapLoop_unchanged _ sm si fuel (unmapStart v p) v' p'
              Hcomponents _ Hloop).
    intros n f Hf. exists f. split; [done|]. right; right. eauto.
  - unfold compactMapping_Unmap.
    destruct (startUnmap (m_sparse cm) (StructPointer si dest) p)
      as [[v si']| |] eqn:Hs; try discriminate.
    apply (startUnmap_unchanged _ _ _ _ _ _ _ Hkey) in Hs as [-> Hv].
    destruct (NextColumn p) as [[column|e|] p1];
      [|destruct e; discriminate|discriminate].
    destruct (extractComponents (m_sparse cm) column (rtypeName si) 0)
      as [components|e|]; try discriminate.
    destruct (unmapComponents (m_sparse cm) v si components)
      as [v1|e|] eqn:Hv1; try discriminate.
    apply (unmapComponentsFrom_unchanged _ _ _ _ _ _ _ Hcomponents) in Hv1.
    cbn [bind].
    destruct (goFields si !! m_value cm) as [fv|] eqn:Hfv.
    + destruct (unmarshalValue fv (Value column) v1) as [v2|e|] eqn:Hv2;
        try discriminate.
      intros [= <- _].
      eapply unchangedOutside_trans; [exact Hv|].
      eapply unchangedOutside_trans; [exact Hv1|].
      eapply unmarshalValue_unchanged; [|exact Hv2].
      exists fv. split; [done|]. right; right. done.
    + intros [= <- _]. by eapply unchangedOutside_trans.
Qed.

End Provider.

(** ** MapToRow and RowToMap *)

Section Untyped.

Context `{Primitives} `{Defaults}.

Lemma mapToColumns_Returns (timeStamp : Z) (entries : list (string * GoValue))
    (acc columns : list Column) :
  mapToColumns timeStamp entries acc = Returns columns ->
  exists new, columns = acc ++ new
              /\ Forall2 (columnOfEntry timeStamp) entries new.
Proof.
  revert acc. induction entries as [|[k v] entries IH]; intros acc;
    cbn [mapToColumns].
  - intros [= <-]. exists []. by rewrite app_nil_r.
  - destruct (Marshal v (defaultType (goTypeOf v))) as [sv| |] eqn:Hv;
      try discriminate.
    destruct (Marshal (VString k) UTF8Type) as [sk| |] eqn:Hk;
      try discriminate.
    intros (new & -> & Hnew)%IH. eexists (_ :: new).
    split; [by rewrite <- app_assoc|]. constructor; [|exact Hnew].
    by repeat split.
Qed.

Lemma MapToRow_Returns_columns (timeStamp : Z) (key : string)
    (entries : list (string * GoValue)) (row : Row) :
  MapToRow timeStamp key entries = Returns row ->
  Forall2 (columnOfEntry timeStamp) entries (Columns row).
Proof.
  unfold MapToRow.
  destruct (Marshal (VString key) UTF8Type) as [sk| |]; try discriminate.
  destruct (mapToColumns timeStamp entries []) as [cols| |] eqn:Hcols;
    try discriminate.
  intros [= <-]. cbn [Columns].
  by apply mapToColumns_Returns in Hcols as (new & -> & Hnew).
Qed.

(** X10: when MapToRow succeeds, the key of the row is the marshalled key,
    and the row has one column per entry of the map, in the order in which
    the entries were visited: its name is the marshalled key of the entry,
    its value the value marshalled with the default type of its Go type,
    its Ttl 0, and its timestamp the one time read at the start of the
    call. *)
Theorem MapToRow_Returns (timeStamp : Z) (key : string)
    (entries : list (string * GoValue)) (row : Row) :
  MapToRow timeStamp key entries = Returns row ->
  Marshal (VString key) UTF8Type = Ok (Key row)
  /\ length (Columns row) = length entries
  /\ Forall2 (columnOfEntry timeStamp) entries (Columns row).
Proof.
  unfold MapToRow.
  destruct (Marshal (VString key) UTF8Type) as [sk| |]; try discriminate.
  destruct (mapToColumns timeStamp entries []) as [cols| |] eqn:Hcols;
    try discriminate.
  intros [= <-]. cbn [Key Columns].
  apply mapToColumns_Returns in Hcols as (new & -> & Hnew). cbn [app].
  split; [reflexivity|]. split; [|exact Hnew].
  symmetry. exact (Forall2_length _ _ _ Hnew).
Qed.

Lemma rowToMapColumns_filter (scheme : gmap string GoValue)
    (columns : list Column) (ret : gmap string GoValue) :
  rowToMapColumns scheme columns ret
  = rowToMapColumns scheme
      (filter (fun column =>
                 is_Some (scheme !! string_of_list_byte (Name column)))
         columns) ret.
Proof.
  revert ret. induction columns as [|column columns IH]; intros ret;
    [reflexivity|].
  destruct (scheme !! string_of_list_byte (Name column)) as [schVal|] eqn:Hs.
  - rewrite filter_cons_True by (by rewrite Hs).
    cbn [rowToMapColumns]. rewrite Hs.
    destruct (Unmarshal _ _ _); try reflexivity.
    destruct (Unmarshal _ _ _) as [[mapKey| | |]| |]; try reflexivity.
    apply IH.
  - rewrite filter_cons_False by (rewrite Hs; by intros [? ?]).
    cbn [rowToMapColumns]. rewrite Hs. apply IH.
Qed.

(** X11: RowToMap returns an error for a nil row, and otherwise ignores the
    key of the row and every column whose name, read as a string, is not a
    key of the scheme: it returns what it returns for the row with these
    columns left out, whatever their values are. *)
Theorem RowToMap_ignores (scheme : gmap string GoValue) (row : Row)
    (key : bytes) :
  RowToMap scheme None = Fails MsgRowNil
  /\ RowToMap scheme (Some row)
     = RowToMap scheme
         (Some {| Key := key;
                  Columns :=
                    filter (fun column =>
                              is_Some (scheme
                                         !! string_of_list_byte (Name column)))
                      (Columns row) |}).
Proof.
  split; [reflexivity|]. cbn [RowToMap Columns]. apply rowToMapColumns_filter.
Qed.

Lemma foldl_insert_list_to_map (entries : list (string * GoValue))
    (ret : gmap string GoValue) :
  NoDup entries.*1 ->
  foldl (fun acc entry => <[entry.1 := entry.2]> acc) ret entries
  = list_to_map entries ∪ ret.
Proof.
  revert ret. induction entries as [|[k v] entries IH]; intros ret Hnodup;
    cbn [foldl list_to_map foldr fst snd].
  - by rewrite (left_id_L ∅ (∪)).
  - cbn in Hnodup. apply NoDup_cons in Hnodup as [Hk Hnodup].
    rewrite IH by done. unfold uncurry. cbn [fst snd].
    rewrite <- insert_union_l. symmetry. apply insert_union_r.
    by apply not_elem_of_list_to_map_1.
Qed.

Lemma rowToMapColumns_entries (timeStamp : Z) (scheme : gmap string GoValue)
    (entries : list (string * GoValue)) (columns : list Column)
    (ret : gmap string GoValue) :
  Forall2 (columnOfEntry timeStamp) entries columns ->
  (forall k v b, (k, v) ∈ entries ->
     Marshal (VString k) UTF8Type = Ok b ->
     string_of_list_byte b = k
     /\ Unmarshal b UTF8Type (VString "") = Ok (VString k)) ->
  (forall k v b, (k, v) ∈ entries ->
     Marshal v (defaultType (goTypeOf v)) = Ok b ->
     Unmarshal b (defaultType (goTypeOf v)) (zeroValue (goTypeOf v)) = Ok v) ->
  (forall k v, (k, v) ∈ entries ->
     exists s, scheme !! k = Some s /\ goTypeOf s = goTypeOf v) ->
  rowToMapColumns scheme columns ret
  = Returns (foldl (fun acc entry => <[entry.1 := entry.2]> acc) ret entries).
Proof.
  intros Hcols. revert ret.
  induction Hcols as [|[k v] column entries columns (Hk & Hv & _ & _) _ IH];
    intros ret Hnames Hvalues Hscheme; [reflexivity|].
  cbn [fst snd] in Hk, Hv. cbn [rowToMapColumns foldl fst snd].
  destruct (Hnames k v (Name column) (list_elem_of_here _ _) Hk)
    as [Hstring Hname].
  destruct (Hscheme k v (list_elem_of_here _ _)) as (s & Hs & Hty).
  rewrite Hstring, Hs, Hty.
  rewrite (Hvalues k v (Value column) (list_elem_of_here _ _) Hv), Hname.
  apply IH.
  - intros k' v' b Hin. apply (Hnames k' v'). by apply list_elem_of_further.
  - intros k' v' b Hin. apply (Hvalues k' v'). by apply list_elem_of_further.
  - intros k' v' Hin. apply Hscheme. by apply list_elem_of_further.
Qed.

(** X12: RowToMap gives back the map that MapToRow wrote, when the scheme
    has, for every key of the map, a value of the Go type of the value in
    the map, the codec gives the values back at their default types, and
    the codec of UTF8Type writes the bytes of a key and reads them back
    (RowToMap looks the scheme up under the raw bytes of the column
    name). *)
Theorem RowToMap_MapToRow (timeStamp : Z) (key : string)
    (entries : list (string * GoValue)) (scheme : gmap string GoValue)
    (row : Row) :
  NoDup entries.*1 ->
  (forall k v b, (k, v) ∈ entries ->
     Marshal (VString k) UTF8Type = Ok b ->
     string_of_list_byte b = k
     /\ Unmarshal b UTF8Type (VString "") = Ok (VString k)) ->
  (forall k v b, (k, v) ∈ entries ->
     Marshal v (defaultType (goTypeOf v)) = Ok b ->
     Unmarshal b (defaultType (goTypeOf v)) (zeroValue (goTypeOf v)) = Ok v) ->
  (forall k v, (k, v) ∈ entries ->
     exists s, scheme !! k = Some s /\ goTypeOf s = goTypeOf v) ->
  MapToRow timeStamp key entries = Returns row ->
  RowToMap scheme (Some row) = Returns (list_to_map entries).
Proof.
  intros Hnodup Hnames Hvalues Hscheme Hrow.
  apply MapToRow_Returns_columns in Hrow.
  cbn [RowToMap].
  rewrite (rowToMapColumns_entries timeStamp scheme entries (Columns row) ∅
             Hrow Hnames Hvalues Hscheme).
  rewrite foldl_insert_list_to_map by done.
  by rewrite (right_id_L ∅ (∪)).
Qed.

End Untyped.

(** ** newSchema *)

Section Translation.

Context `{TypeClasses}.

Lemma columnFamilies_cons_Some (cfDef : CfDef) (rest : list (option CfDef))
    (families : gmap string ColumnFamily) :
  columnFamilies (Some cfDef :: rest) families
  = match ColumnType cfDef with
    | None => None
    | Some columnType =>
        if decide (columnType <> "Standard")
        then columnFamilies rest families
        else match translate cfDef with
             | Some cf => columnFamilies rest (<[CfDef_Name cfDef := cf]> families)
             | None => None
             end
    end.
Proof.
  cbn [columnFamilies]. unfold translate.
  destruct (ColumnType cfDef); [|reflexivity].
  destruct (decide _); [reflexivity|].
  destruct (ComparatorType cfDef), (DefaultValidationClass cfDef),
    (KeyValidationClass cfDef), (ColumnMetadata cfDef); reflexivity.
Qed.

Lemma readable_translate (cfDef : CfDef) :
  readable cfDef <->
  exists columnType, ColumnType cfDef = Some columnType
    /\ (columnType = "Standard" -> is_Some (translate cfDef)).
Proof.
  unfold readable, translate.
  destruct (ColumnType cfDef) as [columnType|];
    [|split; [intros []|intros (? & [=] & _)]].
  split.
  - intros Hr. exists columnType. split; [done|]. intros Hs.
    destruct (Hr Hs) as ([? ->] & [? ->] & [? ->] & [? ->]). done.
  - intros (ct & [= <-] & Hr) Hs. specialize (Hr Hs).
    destruct (ComparatorType cfDef), (DefaultValidationClass cfDef),
      (KeyValidationClass cfDef), (ColumnMetadata cfDef);
      try (by destruct Hr as [? [=]]); done.
Qed.

Lemma columnFamilies_None (cfDefs : list (option CfDef))
    (families : gmap string ColumnFamily) :
  columnFamilies cfDefs families = None <->
  exists cfDef, Some cfDef ∈ cfDefs /\ ~ readable cfDef.
Proof.
  revert families.
  induction cfDefs as [|[cfDef|] cfDefs IH]; intros families.
  - split; [discriminate|]. intros (d & Hd & _). by apply elem_of_nil in Hd.
  - rewrite columnFamilies_cons_Some.
    assert (Hhere : ~ readable cfDef ->
                    exists d, Some d ∈ Some cfDef :: cfDefs /\ ~ readable d)
      by (intros Hn; exists cfDef; split; [apply list_elem_of_here|done]).
    assert (Hrest : readable cfDef ->
                    (exists d, Some d ∈ Some cfDef :: cfDefs /\ ~ readable d)
                    <-> exists d, Some d ∈ cfDefs /\ ~ readable d).
    { intros Hr. split; intros (d & Hd & Hn).
      - apply elem_of_cons in Hd as [[= ->]|Hd]; [done|eauto].
      - exists d. split; [by apply list_elem_of_further|done]. }
    destruct (ColumnType cfDef) as [columnType|] eqn:Hct.
    + destruct (decide (columnType <> "Standard")) as [Hne|Heq].
      * rewrite IH, Hrest; [done|].
        apply readable_translate. exists columnType. split; [done|]. done.
      * apply dec_stable in Heq.
        destruct (translate cfDef) as [cf|] eqn:Htr.
        -- rewrite IH, Hrest; [done|].
           apply readable_translate. exists columnType. rewrite Htr. eauto.
        -- split; [|done]. intros _. apply Hhere.
           intros (ct & Hct' & Hr)%readable_translate.
           rewrite Hct in Hct'. injection Hct' as <-.
           rewrite Htr in Hr. by destruct (Hr Heq).
    + split; [|done]. intros _. apply Hhere.
      intros (ct & Hct' & _)%readable_translate. congruence.
  - cbn [columnFamilies]. rewrite IH. split; intros (d & Hd & Hn).
    + exists d. split; [by apply list_elem_of_further|done].
    + apply elem_of_cons in Hd as [[=]|Hd]. eauto.
Qed.

(** X13: newSchema panics exactly when the pointer to the keyspace
    definition is nil, or the keyspace definition holds a column-family
    definition (not nil) whose column type is a nil pointer, or whose
    column type is "Standard" while its comparator, its default validation
    class, its key validation class or its column metadata is a nil
    pointer; nil entries, and nil pointers in a definition of another
    column type, do no harm. *)
Theorem newSchema_panics_iff (ksDef : option KsDef) :
  newSchema ksDef = None <->
  ksDef = None
  \/ exists definition cfDef,
       ksDef = Some definition
       /\ Some cfDef ∈ CfDefs definition /\ ~ readable cfDef.
Proof.
  destruct ksDef as [definition|]; cbn [newSchema]; [|by split; [left|]].
  pose proof (columnFamilies_None (CfDefs definition) ∅) as Hnone.
  destruct (columnFamilies (CfDefs definition) ∅) as [families|].
  - split; [discriminate|].
    intros [[=]|(d & cfDef & [= <-] & Hin & Hread)].
    assert (Hex : exists cfDef, Some cfDef ∈ CfDefs definition
                                /\ ~ readable cfDef) by eauto.
    apply Hnone in Hex. discriminate Hex.
  - split; [|done]. intros _. right.
    destruct (proj1 Hnone eq_refl) as (cfDef & Hin & Hread). eauto.
Qed.

Lemma columnFamilies_is_Some (cfDefs : list (option CfDef))
    (families out : gmap string ColumnFamily) (n : string) :
  columnFamilies cfDefs families = Some out ->
  is_Some (out !! n) <->
  is_Some (families !! n)
  \/ exists cfDef, Some cfDef ∈ cfDefs /\ isStandard cfDef
                   /\ CfDef_Name cfDef = n.
Proof.
  revert families.
  induction cfDefs as [|[cfDef|] cfDefs IH]; intros families.
  - intros [= <-]. split; [by left|].
    intros [?|(d & Hd & _)]; [done|by apply elem_of_nil in Hd].
  - rewrite columnFamilies_cons_Some. unfold isStandard in *.
    destruct (ColumnType cfDef) as [columnType|] eqn:Hct; [|discriminate].
    destruct (decide (columnType <> "Standard")) as [Hne|Heq].
    + intros Hout. rewrite (IH _ Hout). split.
      * intros [?|(d & Hd & Hs & Hn)]; [by left|right].
        exists d. split; [by apply list_elem_of_further|done].
      * intros [?|(d & Hd & Hs & Hn)]; [by left|right].
        apply elem_of_cons in Hd as [[= ->]|Hd]; [congruence|eauto].
    + apply dec_stable in Heq. subst columnType.
      destruct (translate cfDef) as [cf|]; [|discriminate].
      intros Hout. rewrite (IH _ Hout), lookup_insert_is_Some. split.
      * intros [[<-|[_ ?]]|(d & Hd & Hs & Hn)].
        -- right. exists cfDef. split; [apply list_elem_of_here|done].
        -- by left.
        -- right. exists d. split; [by apply list_elem_of_further|done].
      * intros [?|(d & Hd & Hs & Hn)].
        -- destruct (decide (CfDef_Name cfDef = n)); [by left; left|].
           left; right. done.
        -- apply elem_of_cons in Hd as [[= ->]|Hd]; [by left; left|].
           right. eauto.
  - cbn [columnFamilies]. intros Hout. rewrite (IH _ Hout). split.
    + intros [?|(d & Hd & Hs)]; [by left|right].
      exists d. split; [by apply list_elem_of_further|done].
    + intros [?|(d & Hd & Hs)]; [by left|right].
      apply elem_of_cons in Hd as [[=]|Hd]. eauto.
Qed.

(** X14: the schema newSchema returns has a column family under a name
    exactly when the keyspace definition holds a definition (not nil) of
    that name whose column type is "Standard". *)
Theorem newSchema_ColumnFamilies (ksDef : KsDef) (schema : Schema)
    (n : string) :
  newSchema (Some ksDef) = Some schema ->
  is_Some (ColumnFamilies schema !! n) <->
  exists cfDef, Some cfDef ∈ CfDefs ksDef /\ isStandard cfDef
                /\ CfDef_Name cfDef = n.
Proof.
  cbn [newSchema].
  destruct (columnFamilies (CfDefs ksDef) ∅) as [out|] eqn:Hout;
    [|discriminate].
  intros [= <-]. cbn [ColumnFamilies].
  rewrite (columnFamilies_is_Some _ _ _ n Hout), lookup_empty.
  split; [intros [[? [=]]|?]; done|by right].
Qed.

Lemma columnFamilies_app (before after : list (option CfDef))
    (families : gmap string ColumnFamily) :
  columnFamilies (before ++ after) families
  = match columnFamilies before families with
    | Some middle => columnFamilies after middle
    | None => None
    end.
Proof.
  revert families.
  induction before as [|[cfDef|] before IH]; intros families;
    [reflexivity| |apply IH].
  cbn [app]. rewrite !columnFamilies_cons_Some.
  destruct (ColumnType cfDef); [|reflexivity].
  destruct (decide _); [apply IH|].
  destruct (translate cfDef); [apply IH|reflexivity].
Qed.

Lemma columnFamilies_other (cfDefs : list (option CfDef))
    (families out : gmap string ColumnFamily) (n : string) :
  (forall cfDef, Some cfDef ∈ cfDefs -> isStandard cfDef ->
                 CfDef_Name cfDef <> n) ->
  columnFamilies cfDefs families = Some out ->
  out !! n = families !! n.
Proof.
  revert families.
  induction cfDefs as [|[cfDef|] cfDefs IH]; intros families Hother.
  - by intros [= <-].
  - rewrite columnFamilies_cons_Some.
    assert (Hrest : forall d, Some d ∈ cfDefs -> isStandard d ->
                              CfDef_Name d <> n)
      by (intros d Hd; apply Hother; by apply list_elem_of_further).
    destruct (ColumnType cfDef) as [columnType|] eqn:Hct; [|discriminate].
    destruct (decide (columnType <> "Standard")) as [Hne|Heq];
      [by apply IH|].
    apply dec_stable in Heq. subst columnType.
    destruct (translate cfDef) as [cf|]; [|discriminate].
    intros Hout. rewrite (IH _ Hrest Hout). apply lookup_insert_ne.
    apply Hother; [apply list_elem_of_here|exact Hct].
  - cbn [columnFamilies]. apply IH. intros d Hd. apply Hother.
    by apply list_elem_of_further.
Qed.

(** X15: the column family the schema holds under a name is the translation
    of the last "Standard" definition of that name in the keyspace
    definition: its three type classes are parsed from the comparator, the
    default validation class and the key validation class of that
    definition, and its named columns are read from its column metadata. *)
Theorem newSchema_last_definition (before after : list (option CfDef))
    (cfDef : CfDef) (schema : Schema) :
  newSchema (Some {| CfDefs := before ++ Some cfDef :: after |})
  = Some schema ->
  isStandard cfDef ->
  (forall later, Some later ∈ after -> isStandard later ->
                 CfDef_Name later <> CfDef_Name cfDef) ->
  is_Some (translate cfDef)
  /\ ColumnFamilies schema !! CfDef_Name cfDef = translate cfDef.
Proof.
  unfold isStandard. cbn [newSchema CfDefs]. intros Hschema Hs Hafter.
  rewrite columnFamilies_app in Hschema.
  destruct (columnFamilies before ∅) as [middle|]; [|discriminate].
  rewrite columnFamilies_cons_Some, Hs in Hschema.
  rewrite decide_False in Hschema by (by intros ?).
  destruct (translate cfDef) as [cf|]; [|discriminate].
  destruct (columnFamilies after _) as [out|] eqn:Hout; [|discriminate].
  injection Hschema as <-. cbn [ColumnFamilies]. split; [done|].
  rewrite (columnFamilies_other _ _ _ _ Hafter Hout).
  apply lookup_insert_eq.
Qed.

Lemma namedColumns_other (metadata : list (option ColumnDef))
    (named : gmap string TypeClass) (n : string) :
  (forall colDef, Some colDef ∈ metadata ->
                  string_of_list_byte (ColumnDef_Name colDef) <> n) ->
  namedColumns metadata named !! n = named !! n.
Proof.
  revert named.
  induction metadata as [|[colDef|] metadata IH]; intros named Hother;
    cbn [namedColumns]; [reflexivity| |].
  - rewrite IH by (intros c Hc; apply Hother; by apply list_elem_of_further).
    apply lookup_insert_ne. apply Hother, list_elem_of_here.
  - apply IH. intros c Hc. apply Hother. by apply list_elem_of_further.
Qed.

Lemma namedColumns_app (before after : list (option ColumnDef))
    (named : gmap string TypeClass) :
  namedColumns (before ++ after) named
  = namedColumns after (namedColumns before named).
Proof.
  revert named. induction before as [|[colDef|] before IH]; intros named;
    cbn [app namedColumns]; [reflexivity|apply IH..].
Qed.

(** X16: the named columns of a translated column family hold, under the
    name of a column definition read as a string, the parsed validation
    class of the last definition (not nil) of that name in the metadata,
    and hold nothing under a name no definition has. *)
Theorem namedColumns_lookup (metadata : list (option ColumnDef))
    (n : string) :
  (forall before after colDef,
      metadata = before ++ Some colDef :: after ->
      (forall later, Some later ∈ after ->
         string_of_list_byte (ColumnDef_Name later)
         <> string_of_list_byte (ColumnDef_Name colDef)) ->
      namedColumns metadata ∅ !! string_of_list_byte (ColumnDef_Name colDef)
      = Some (parseTypeClass (ValidationClass colDef)))
  /\ ((forall colDef, Some colDef ∈ metadata ->
         string_of_list_byte (ColumnDef_Name colDef) <> n) ->
      namedColumns metadata ∅ !! n = None).
Proof.
  split.
  - intros before after colDef -> Hafter.
    rewrite namedColumns_app. cbn [namedColumns].
    rewrite (namedColumns_other _ _ _ Hafter). apply lookup_insert_eq.
  - intros Hother. by rewrite namedColumns_other.
Qed.

End Translation.

(** ** Two records in one row *)

Section Groups.

Context `{Primitives}.

Implicit Types (r v dest : structValue) (si : structInspection).
Implicit Types (f : field) (I : nat -> Prop) (p : sliceProvider).

Lemma startUnmap_decodes_key (m : sparseMapping) si r dest p (key : bytes) :
  sameShape dest r ->
  marshalsTo si r (m_key m) key ->
  sp_key p = key ->
  (forall f, goFields si !! m_key m = Some f -> fieldRoundTrips r f) ->
  exists v,
    startUnmap m (StructPointer si dest) p = Ok (v, si)
    /\ decodedOn (fun i => exists f, goFields si !! m_key m = Some f
                                     /\ index f = i) r v.
Proof.
  intros Hshape (fk & Hfk & Hbk) Hkey Hcodec. unfold startUnmap.
  cbn [validateAndInspectStruct bind ProviderKey sliceRowProvider].
  rewrite Hfk, Hkey.
  destruct (unmarshalValue_decodes _ r dest fk key
              (decodedOn_start _ _ Hshape) (Hcodec fk Hfk) Hbk)
    as (v & -> & Hv).
  cbn [bind]. exists v. split; [reflexivity|].
  eapply decodedOn_weaken; [|exact Hv].
  intros i (f & Hf & <-). right. congruence.
Qed.

Lemma unmapRounds_add {P : Type} `{RowProvider P} (a b : nat)
    (m : sparseMapping) si (st st' : unmapState P) :
  unmapRounds a m si st = Some st' ->
  unmapRounds (a + b) m si st = unmapRounds b m si st'.
Proof.
  revert st. induction a as [|a IH]; intros st; cbn [unmapRounds Nat.add].
  - by intros [= ->].
  - destruct (unmapBody m si st); [apply IH|discriminate].
Qed.

Section OneGroup.

Variables (m : sparseMapping) (si : structInspection) (r : structValue).
Variable bs : list bytes.

Hypothesis Hregistry : registryConsistent si.
Hypothesis Hcodec :
  forall f, f ∈ orderedFields si -> fieldRoundTrips r f /\ nameRoundTrips f.
Hypothesis Hbs : Forall2 (marshalsTo si r) (m_components m) bs.
Hypothesis Hfit :
  m_components m <> [] ->
  componentsFit si (m_components m) r
  /\ forall f b, f ∈ orderedFields si -> marshalName f = Ok b ->
                 fitsUint16 b.

(** The rounds of the loop over columns of the record [r] that follow one
    another in the provider, after a first column of the group. *)
Lemma unmapRounds_columns p (fs : list field) (rest : list Column) :
  Forall2 (columnOf r (pack eocEquals bs)) fs rest ->
  forall (pre post : list Column) I v (nb0 : bytes),
    sp_columns p = pre ++ rest ++ post ->
    (forall f, f ∈ fs -> f ∈ orderedFields si) ->
    decodedOn I r v ->
    exists v' nb,
      unmapRounds (length rest) m si
        {| us_v := v; us_provider := sliceAt p (length pre);
           compositeFieldsAreSet := true;
           previousComponents := bs ++ [nb0] |}
      = Some {| us_v := v';
                us_provider := sliceAt p (length pre + length rest);
                compositeFieldsAreSet := true;
                previousComponents := bs ++ [nb] |}
      /\ decodedOn (fun i => I i \/ exists f, f ∈ fs /\ index f = i) r v'.
Proof.
  intros Hrest.
  induction Hrest as [|f column fs rest (nb & Hnb & Hvb & Hname) Hrest IH];
    intros pre post I v nb0 Hcols Hfs Hv; cbn [length unmapRounds].
  - exists v, nb0. rewrite Nat.add_0_r. split; [reflexivity|].
    eapply decodedOn_weaken; [|exact Hv].
    intros i [Hi|(f & Hf & _)]; [done|by apply elem_of_nil in Hf].
  - unfold unmapBody.
    cbn [us_v us_provider compositeFieldsAreSet previousComponents negb].
    rewrite NextColumn_sliceAt, Hcols.
    rewrite lookup_app_r, Nat.sub_diag by done. cbn [app lookup list_lookup].
    assert (Hf : f ∈ orderedFields si) by apply Hfs, list_elem_of_here.
    rewrite (extractComponents_columnOf m si r bs Hbs Hfit f column nb Hf
               Hnb Hname).
    replace (isNewComponents (bs ++ [nb0]) (bs ++ [nb]) 1) with false.
    2:{ symmetry. apply isNewComponents_false.
        rewrite !groupOf_snoc, !length_app. done. }
    destruct (lookupFieldByName_columnOf si r bs Hregistry Hcodec I v f column
                nb (sliceAt p (S (length pre))) Hf Hnb Hvb Hv)
      as (v1 & -> & Hv1).
    assert (Hcols' : sp_columns p = (pre ++ [column]) ++ rest ++ post)
      by (by rewrite <- app_assoc).
    assert (Hfs' : forall f', f' ∈ fs -> f' ∈ orderedFields si)
      by (intros f' Hf'; by apply Hfs, list_elem_of_further).
    destruct (IH (pre ++ [column]) post _ v1 nb Hcols' Hfs' Hv1)
      as (v2 & nb2 & Hrounds & Hv2).
    rewrite length_app, Nat.add_1_r in Hrounds.
    exists v2, nb2. split.
    + rewrite Hrounds. do 3 f_equal. lia.
    + eapply decodedOn_weaken; [|exact Hv2].
      intros i [Hi|(f' & Hf' & Hi)]; [by left; left|].
      apply elem_of_cons in Hf' as [->|Hf']; [by left; right|right; eauto].
Qed.

(** The rounds of one call over all the columns of the record [r], which
    the provider holds from position [length pre] on. *)
Lemma unmapRounds_record p (fs : list field) (columns : list Column)
    (pre post : list Column) I v :
  fs <> [] ->
  Forall2 (columnOf r (pack eocEquals bs)) fs columns ->
  sp_columns p = pre ++ columns ++ post ->
  (forall f, f ∈ fs -> f ∈ orderedFields si) ->
  decodedOn I r v ->
  exists v' nb,
    unmapRounds (length columns) m si (unmapStart v (sliceAt p (length pre)))
    = Some {| us_v := v';
              us_provider := sliceAt p (length pre + length columns);
              compositeFieldsAreSet := true;
              previousComponents := bs ++ [nb] |}
    /\ decodedOn
         (fun i => (I i \/ exists c f, c ∈ m_components m
                               /\ goFields si !! c = Some f /\ index f = i)
                   \/ exists f, f ∈ fs /\ index f = i) r v'.
Proof.
  intros Hsome Hcolumns Hcols Hfs Hv.
  destruct Hcolumns as [|f column fs rest (nb & Hnb & Hvb & Hname) Hrest];
    [done|].
  assert (Hf : f ∈ orderedFields si) by apply Hfs, list_elem_of_here.
  assert (Hcodec' : forall c f', c ∈ m_components m ->
                      goFields si !! c = Some f' -> fieldRoundTrips r f').
  { intros c f' _ Hf'. apply Hcodec. exact (proj2 Hregistry c f' Hf'). }
  destruct (unmapComponentsFrom_decodes I r v si (m_components m) bs []
              [nb] Hbs Hcodec' Hv) as (v1 & Hun & Hv1).
  cbn [length app] in Hun.
  destruct (lookupFieldByName_columnOf si r bs Hregistry Hcodec _ v1 f column
              nb (sliceAt p (S (length pre))) Hf Hnb Hvb Hv1)
    as (v2 & Hlookup & Hv2).
  assert (Hcols' : sp_columns p = (pre ++ [column]) ++ rest ++ post)
    by (by rewrite Hcols, <- app_assoc).
  assert (Hfs' : forall f', f' ∈ fs -> f' ∈ orderedFields si)
    by (intros f' Hf'; by apply Hfs, list_elem_of_further).
  destruct (unmapRounds_columns p fs rest Hrest (pre ++ [column]) post _ v2 nb
              Hcols' Hfs' Hv2) as (v3 & nb3 & Hrounds & Hv3).
  rewrite length_app, Nat.add_1_r in Hrounds.
  exists v3, nb3. split.
  - cbn [length unmapRounds]. unfold unmapBody.
    cbn [unmapStart us_v us_provider compositeFieldsAreSet
         previousComponents negb].
    rewrite NextColumn_sliceAt, Hcols.
    rewrite lookup_app_r, Nat.sub_diag by done. cbn [app lookup list_lookup].
    rewrite (extractComponents_columnOf m si r bs Hbs Hfit f column nb Hf
               Hnb Hname).
    unfold unmapComponents. rewrite Hun, Hlookup, Hrounds.
    do 3 f_equal. lia.
  - eapply decodedOn_weaken; [|exact Hv3].
    intros i [Hi|(f' & Hf' & Hi)]; [by left; left|].
    apply elem_of_cons in Hf' as [->|Hf']; [by left; right|right; eauto].
Qed.

End OneGroup.

(** Records that differ in a component field have different packed
    components, when the codec gives the field back. *)
Lemma marshalsTo_differ si r1 r2 (names : list string) (bs1 bs2 : list bytes)
    (c : string) f :
  Forall2 (marshalsTo si r1) names bs1 ->
  Forall2 (marshalsTo si r2) names bs2 ->
  sameShape r1 r2 ->
  fieldRoundTrips r1 f -> fieldRoundTrips r2 f ->
  c ∈ names -> goFields si !! c = Some f ->
  r1 !! index f <> r2 !! index f ->
  bs1 <> bs2.
Proof.
  intros Hbs1 Hbs2 Hshape Hcodec1 Hcodec2 Hc Hf Hdiff <-.
  apply list_elem_of_lookup in Hc as [i Hi].
  destruct (Forall2_lookup_l _ _ _ _ _ Hbs1 Hi) as (b & Hb & f1 & Hf1 & Hm1).
  destruct (Forall2_lookup_lr _ _ _ _ _ _ Hbs2 Hi Hb) as (f2 & Hf2 & Hm2).
  rewrite Hf in Hf1, Hf2. injection Hf1 as <-. injection Hf2 as <-.
  unfold marshalValue in Hm1, Hm2.
  destruct (r1 !! index f) as [x1|] eqn:Hx1; [|discriminate].
  destruct (r2 !! index f) as [x2|] eqn:Hx2; [|discriminate].
  destruct (Marshal x1 (cassandraType f)) as [b1| |] eqn:Hb1;
    try discriminate.
  destruct (Marshal x2 (cassandraType f)) as [b2| |] eqn:Hb2;
    try discriminate.
  injection Hm1 as ->. injection Hm2 as ->.
  assert (Hty : goTypeOf x1 = goTypeOf x2).
  { destruct (Forall2_lookup_l _ _ _ _ _ Hshape Hx1) as (x2' & Hx2' & Hty).
    rewrite Hx2 in Hx2'. by injection Hx2' as <-. }
  pose proof (Hcodec1 x1 b x1 Hx1 Hb1 eq_refl) as Hu1.
  pose proof (Hcodec2 x2 b x1 Hx2 Hb2 Hty) as Hu2.
  rewrite Hu1 in Hu2. injection Hu2 as ->. by apply Hdiff.
Qed.

(** X17: two records of a sparse-mapped type with the same key and
    different values in a component field, written by Map and held one
    after the other in one row: a first call of Unmap gives the first
    record back and leaves the provider at the first column of the second,
    and a second call on that provider gives the second record back (the
    provider signals [EndBeforeLimit] after the last column; the fields, the
    codec and the lengths are as for the round trip of one record). *)
Theorem sparseMapping_Unmap_two_records si (cf key : string)
    (names : list string) r1 r2 dest1 dest2 (row1 row2 : Row) (fuel : nat) :
  sparseMapping_Map (newSparseMapping si cf key names) (StructPointer si r1)
  = Ok row1 ->
  sparseMapping_Map (newSparseMapping si cf key names) (StructPointer si r2)
  = Ok row2 ->
  Key row1 = Key row2 ->
  (exists c f, c ∈ names /\ goFields si !! c = Some f
               /\ r1 !! index f <> r2 !! index f) ->
  (exists f, f ∈ orderedFields si /\ name f <> key /\ name f ∉ names) ->
  registryConsistent si ->
  (forall i, i < length r1 -> exists f, f ∈ orderedFields si /\ index f = i) ->
  (forall f, f ∈ orderedFields si ->
             fieldRoundTrips r1 f /\ fieldRoundTrips r2 f
             /\ nameRoundTrips f) ->
  (componentsFit si names r1 /\ componentsFit si names r2
   /\ forall f b, f ∈ orderedFields si -> marshalName f = Ok b ->
                  fitsUint16 b) ->
  sameShape r1 r2 -> sameShape dest1 r1 -> sameShape dest2 r2 ->
  length (Columns row1) < fuel -> length (Columns row2) < fuel ->
  sparseMapping_Unmap fuel (newSparseMapping si cf key names)
    (StructPointer si dest1)
    (newSliceProvider (Key row1) (Columns row1 ++ Columns row2)
       EndBeforeLimit)
  = Some (Ok r1,
          sliceAt (newSliceProvider (Key row1)
                     (Columns row1 ++ Columns row2) EndBeforeLimit)
            (length (Columns row1)))
  /\ sparseMapping_Unmap fuel (newSparseMapping si cf key names)
       (StructPointer si dest2)
       (sliceAt (newSliceProvider (Key row1)
                   (Columns row1 ++ Columns row2) EndBeforeLimit)
          (length (Columns row1)))
     = Some (Ok r2,
             sliceAt (newSliceProvider (Key row1)
                        (Columns row1 ++ Columns row2) EndBeforeLimit)
               (length (Columns row1) + length (Columns row2))).
Proof.
  set (m := newSparseMapping si cf key names).
  set (p := newSliceProvider (Key row1) (Columns row1 ++ Columns row2)
              EndBeforeLimit).
  intros Hmap1 Hmap2 Hkeys (c & fc & Hc & Hfc & Hdiff)
    (f0 & Hf0 & Hf0key & Hf0comp) Hregistry Hcover Hcodec
    (Hfit1 & Hfit2 & Hfitn) Hshape Hshape1 Hshape2 Hfuel1 Hfuel2.
  apply sparseMapping_Map_spec in Hmap1 as (Hkey1 & bs1 & Hbs1 & Hcols1).
  apply sparseMapping_Map_spec in Hmap2 as (Hkey2 & bs2 & Hbs2 & Hcols2).
  set (fs := filter (isDataField m) (orderedFields si)) in *.
  assert (Hfs : forall f, f ∈ fs -> f ∈ orderedFields si)
    by (intros f [_ ?]%list_elem_of_filter; done).
  assert (Hsome : fs <> []).
  { intros Hnil. apply (elem_of_nil f0). rewrite <- Hnil.
    apply list_elem_of_filter. split; [|done]. split; [done|].
    intros Hin. apply Hf0comp.
    by apply (newSparseMapping_componentsMap si cf key names). }
  assert (Hcodec1 : forall f, f ∈ orderedFields si ->
                      fieldRoundTrips r1 f /\ nameRoundTrips f)
    by (intros f Hf; destruct (Hcodec f Hf) as (? & ? & ?); done).
  assert (Hcodec2 : forall f, f ∈ orderedFields si ->
                      fieldRoundTrips r2 f /\ nameRoundTrips f)
    by (intros f Hf; destruct (Hcodec f Hf) as (? & ? & ?); done).
  assert (Hfit1' : m_components m <> [] ->
            componentsFit si (m_components m) r1
            /\ forall f b, f ∈ orderedFields si -> marshalName f = Ok b ->
                           fitsUint16 b) by done.
  assert (Hfit2' : m_components m <> [] ->
            componentsFit si (m_components m) r2
            /\ forall f b, f ∈ orderedFields si -> marshalName f = Ok b ->
                           fitsUint16 b) by done.
  assert (Hbs : bs1 <> bs2).
  { assert (Hfc' : fc ∈ orderedFields si) by exact (proj2 Hregistry _ _ Hfc).
    destruct (Hcodec fc Hfc') as (? & ? & _).
    eapply (marshalsTo_differ si r1 r2 names bs1 bs2 c fc); eauto. }
  assert (Hlen : length r2 = length r1)
    by (symmetry; exact (Forall2_length _ _ _ Hshape)).
  assert (Hall : forall r v I,
             length r = length r1 ->
             decodedOn (fun i => (I i \/ exists c f, c ∈ m_components m
                                         /\ goFields si !! c = Some f
                                         /\ index f = i)
                                 \/ exists f, f ∈ fs /\ index f = i) r v ->
             (forall i, I i <-> exists f, goFields si !! m_key m = Some f
                                          /\ index f = i) ->
             v = r).
  { intros r v I Hr Hv HI. eapply decodedOn_all; [|exact Hv].
    intros i Hi. rewrite Hr in Hi. destruct (Hcover i Hi) as (f & Hf & <-).
    destruct (proj1 Hregistry f Hf) as [Hgo _].
    destruct (decide (name f = m_key m)) as [Hk|Hk].
    { left; left. apply HI. exists f. by rewrite <- Hk. }
    destruct (decide (is_Some (m_componentsMap m !! name f))) as [Hcm|Hcm].
    { left; right. exists (name f), f.
      apply (newSparseMapping_componentsMap si cf key names) in Hcm. done. }
    right. exists f. split; [|done]. apply list_elem_of_filter. done. }
  assert (Hkeycodec1 : forall f, goFields si !! m_key m = Some f ->
                                 fieldRoundTrips r1 f).
  { intros f Hf. apply Hcodec1. exact (proj2 Hregistry _ _ Hf). }
  assert (Hkeycodec2 : forall f, goFields si !! m_key m = Some f ->
                                 fieldRoundTrips r2 f).
  { intros f Hf. apply Hcodec2. exact (proj2 Hregistry _ _ Hf). }
  split.
  - destruct (startUnmap_decodes_key m si r1 dest1 p (Key row1) Hshape1 Hkey1
                eq_refl Hkeycodec1) as (v1 & Hstart & Hv1).
    destruct (unmapRounds_record m si r1 bs1 Hregistry Hcodec1 Hbs1 Hfit1' p
                fs (Columns row1) [] (Columns row2) _ v1 Hsome Hcols1 eq_refl
                Hfs Hv1) as (v2 & nb & Hrounds & Hv2).
    cbn [length Nat.add] in Hrounds.
    apply (Hall r1) in Hv2 as ->; [|done|done].
    eapply (sparseMapping_Unmap_return m _ p v1 si (length (Columns row1)));
      [exact Hstart|exact Hrounds| |exact Hfuel1].
    destruct Hcols2 as [|f2 column2 fs2 rest2 (nb2 & Hnb2 & Hvb2 & Hname2) _];
      [done|].
    unfold unmapBody.
    cbn [us_v us_provider compositeFieldsAreSet previousComponents negb].
    rewrite NextColumn_sliceAt.
    cbn [p newSliceProvider sp_columns].
    rewrite lookup_app_r, Nat.sub_diag by done. cbn [lookup list_lookup].
    rewrite (extractComponents_columnOf m si r2 bs2 Hbs2 Hfit2' f2 column2 nb2
               (Hfs f2 (list_elem_of_here _ _)) Hnb2 Hname2).
    destruct (isNewComponents (bs1 ++ [nb]) (bs2 ++ [nb2]) 1) eqn:Enew;
      [reflexivity|].
    apply isNewComponents_false in Enew as [_ Hg].
    rewrite !groupOf_snoc in Hg. contradiction.
  - destruct (startUnmap_decodes_key m si r2 dest2
                (sliceAt p (length (Columns row1))) (Key row2) Hshape2 Hkey2
                Hkeys Hkeycodec2) as (v1 & Hstart & Hv1).
    assert (Hcols : sp_columns p = Columns row1 ++ Columns row2 ++ [])
      by (by rewrite app_nil_r).
    destruct (unmapRounds_record m si r2 bs2 Hregistry Hcodec2 Hbs2 Hfit2' p
                fs (Columns row2) (Columns row1) [] _ v1 Hsome Hcols2 Hcols
                Hfs Hv1) as (v2 & nb & Hrounds & Hv2).
    apply (Hall r2) in Hv2 as ->; [|done|done].
    eapply (sparseMapping_Unmap_return m _ _ v1 si (length (Columns row2)));
      [exact Hstart|exact Hrounds| |exact Hfuel2].
    unfold unmapBody.
    cbn [us_v us_provider compositeFieldsAreSet previousComponents negb].
    rewrite NextColumn_sliceAt.
    cbn [p newSliceProvider sp_columns sp_end].
    rewrite lookup_ge_None_2 by (rewrite length_app; lia).
    reflexivity.
Qed.

End Groups.

(** ** The further properties on the examples *)

Lemma NewMapping_Ok_witness :
  globalTags Readings.inspection !! "cf" = Some (Cf (Compact Readings.mapping))
  /\ m_components (sparsePart (Compact Readings.mapping)) = splitComma "Kind"
  /\ globalTags Readings.inspection !! "mapping" = Some "compact"
  /\ m_value Readings.mapping = "Val".
Proof.
  destruct (NewMapping_Ok Readings.inspection Readings.record
              (Compact Readings.mapping))
    as (_ & Hcf & _ & _ & Hcols & _ & _ & Hcompact & Hvalue & _).
  - vm_compute. reflexivity.
  - repeat split; assumption.
Defined.

Lemma Map_after_NewMapping_witness :
  exists fieldName cause,
    ErrField "Age" (ErrCodec "type not supported") = ErrField fieldName cause.
Proof.
  apply (@Map_after_NewMapping wirePrimitives Users.inspection Users.alice
           Settings.mistyped (Sparse Users.mapping)).
  - vm_compute. reflexivity.
  - vm_compute. reflexivity.
Defined.

Lemma MarshalKey_Map_witness :
  @MarshalKey wirePrimitives (Sparse Users.mapping) (VString "u1")
  = Returns (Key Users.aliceRow).
Proof.
  apply (@MarshalKey_Map wirePrimitives (Sparse Users.mapping)
           Users.inspection Users.alice Users.aliceRow
           (newField "Id" 0 UTF8Type) (VString "u1")).
  - reflexivity.
  - vm_compute. reflexivity.
  - vm_compute. reflexivity.
  - reflexivity.
Defined.

Lemma MarshalComponent_Map_witness :
  @MarshalComponent wirePrimitives (Sparse Users.mapping) (VString "profile") 1
  = Fails (MsgComponentPosition 1 1)
  /\ @MarshalComponent wirePrimitives (Sparse Users.mapping)
       (VString "profile") (-1)
     = Panics.
Proof.
  destruct (@MarshalComponent_Map wirePrimitives (Sparse Users.mapping))
    as (Hbeyond & Hnegative & _).
  split.
  - apply (Hbeyond (VString "profile") 1%Z). vm_compute. discriminate.
  - apply (Hnegative (VString "profile") (-1)%Z). lia.
Defined.

Lemma sparseMapping_Unmap_provider_error_witness :
  @sparseMapping_Unmap wirePrimitives sliceProvider sliceRowProvider 3
    Users.mapping (StructPointer Users.inspection Users.blank)
    (Users.provider
       [Users.column "profile" "Name" (list_byte_of_string "Alice")]
       (ErrCodec "connection lost"))
  = Some (Err (ErrCodec "connection lost"),
          sliceAt
            (Users.provider
               [Users.column "profile" "Name" (list_byte_of_string "Alice")]
               (ErrCodec "connection lost")) 1).
Proof.
  refine (proj1
    (@sparseMapping_Unmap_provider_error wirePrimitives sliceProvider
       sliceRowProvider Users.mapping
       (StructPointer Users.inspection Users.blank)
       (Users.provider
          [Users.column "profile" "Name" (list_byte_of_string "Alice")]
          (ErrCodec "connection lost")) 3)
    Users.keyed Users.inspection 1
    {| us_v := Users.named;
       us_provider :=
         sliceAt
           (Users.provider
              [Users.column "profile" "Name" (list_byte_of_string "Alice")]
              (ErrCodec "connection lost")) 1;
       compositeFieldsAreSet := true;
       previousComponents :=
         [list_byte_of_string "profile"; list_byte_of_string "Name"] |}
    (ErrCodec "connection lost") _ _ _ _ _ _ _ _).
  - vm_compute. reflexivity.
  - vm_compute. reflexivity.
  - vm_compute. reflexivity.
  - discriminate.
  - discriminate.
  - discriminate.
  - lia.
Defined.

Lemma compactMapping_Unmap_one_column_witness :
  snd (@compactMapping_Unmap wirePrimitives sliceProvider sliceRowProvider
         Readings.mapping (StructPointer Readings.inspection Readings.blank)
         (newSliceProvider (list_byte_of_string "r1") [] EndAtLimit))
  = sliceAt (newSliceProvider (list_byte_of_string "r1") [] EndAtLimit) 0
  /\ @compactMapping_Unmap wirePrimitives sliceProvider sliceRowProvider
       Readings.mapping (StructPointer Readings.inspection Readings.blank)
       (newSliceProvider (list_byte_of_string "r1") [] EndAtLimit)
     = (Err Done,
        sliceAt (newSliceProvider (list_byte_of_string "r1") [] EndAtLimit)
          0).
Proof.
  destruct (@compactMapping_Unmap_one_column wirePrimitives sliceProvider
              sliceRowProvider Readings.mapping
              (StructPointer Readings.inspection Readings.blank)
              (newSliceProvider (list_byte_of_string "r1") [] EndAtLimit)
              [VString "r1"; VString ""; VInt 0] Readings.inspection)
    as [Hprovider Herror].
  - vm_compute. reflexivity.
  - split; [exact Hprovider|].
    apply (Herror EndAtLimit). vm_compute. reflexivity.
Defined.

Lemma sparseMapping_Unmap_rewinds_once_witness :
  exists k,
    1 <= k <= 3
    /\ (Rewind (sliceAt (Users.provider Users.twoGroups EndBeforeLimit) 3)
        = advance k (Users.provider Users.twoGroups EndBeforeLimit)
        \/ (2 <= k
            /\ Rewind (sliceAt (Users.provider Users.twoGroups EndBeforeLimit)
                         3)
               = Rewind
                   (advance k (Users.provider Users.twoGroups EndBeforeLimit))
            /\ exists v', Ok Users.alice = Ok v')).
Proof.
  apply (@sparseMapping_Unmap_rewinds_once wirePrimitives sliceProvider
           sliceRowProvider Users.mapping
           (StructPointer Users.inspection Users.blank)
           (Users.provider Users.twoGroups EndBeforeLimit)
           Users.keyed Users.inspection 3).
  - vm_compute. reflexivity.
  - vm_compute. reflexivity.
Defined.

Lemma Unmap_unchangedOutside_witness :
  unchangedOutside (writtenBy (Compact Notes.mapping) Notes.inspection)
    Notes.kept Notes.read.
Proof.
  apply (@Unmap_unchangedOutside wirePrimitives sliceProvider
           sliceRowProvider 1 (Compact Notes.mapping) Notes.inspection
           Notes.kept Notes.read
           (newSliceProvider (Key Notes.row) (Columns Notes.row)
              EndBeforeLimit)
           (sliceAt (newSliceProvider (Key Notes.row) (Columns Notes.row)
                       EndBeforeLimit) 1)).
  vm_compute. reflexivity.
Defined.

Lemma MapToRow_Returns_witness :
  @Marshal wirePrimitives (VString "u1") UTF8Type = Ok (Key Profile.row)
  /\ length (Columns Profile.row) = length Profile.entries
  /\ Forall2 (@columnOfEntry wirePrimitives wireDefaults 7) Profile.entries
       (Columns Profile.row).
Proof.
  apply (@MapToRow_Returns wirePrimitives wireDefaults 7 "u1"
           Profile.entries Profile.row).
  vm_compute. reflexivity.
Defined.

Lemma Profile_names (k : string) (v : GoValue) (b : bytes) :
  (k, v) ∈ Profile.entries ->
  @Marshal wirePrimitives (VString k) UTF8Type = Ok b ->
  string_of_list_byte b = k
  /\ @Unmarshal wirePrimitives b UTF8Type (VString "") = Ok (VString k).
Proof.
  intros Hin Hb. unfold Profile.entries in Hin.
  repeat (apply elem_of_cons in Hin as [[= -> ->]|Hin]);
    [..|by apply elem_of_nil in Hin];
    vm_compute in Hb; injection Hb as <-; split; vm_compute; reflexivity.
Qed.

Lemma Profile_values (k : string) (v : GoValue) (b : bytes) :
  (k, v) ∈ Profile.entries ->
  @Marshal wirePrimitives v (@defaultType wireDefaults (goTypeOf v)) = Ok b ->
  @Unmarshal wirePrimitives b (@defaultType wireDefaults (goTypeOf v))
    (zeroValue (goTypeOf v))
  = Ok v.
Proof.
  intros Hin Hb. unfold Profile.entries in Hin.
  repeat (apply elem_of_cons in Hin as [[= -> ->]|Hin]);
    [..|by apply elem_of_nil in Hin];
    vm_compute in Hb; injection Hb as <-; vm_compute; reflexivity.
Qed.

Lemma Profile_scheme (k : string) (v : GoValue) :
  (k, v) ∈ Profile.entries ->
  exists s, Profile.scheme !! k = Some s /\ goTypeOf s = goTypeOf v.
Proof.
  intros Hin. unfold Profile.entries in Hin.
  repeat (apply elem_of_cons in Hin as [[= -> ->]|Hin]);
    [..|by apply elem_of_nil in Hin];
    eexists; split; vm_compute; reflexivity.
Qed.

Lemma RowToMap_MapToRow_witness :
  @RowToMap wirePrimitives wireDefaults Profile.scheme (Some Profile.row)
  = Returns (list_to_map Profile.entries).
Proof.
  apply (@RowToMap_MapToRow wirePrimitives wireDefaults 7 "u1"
           Profile.entries Profile.scheme Profile.row).
  - apply (bool_decide_unpack _). vm_compute. exact I.
  - exact Profile_names.
  - exact Profile_values.
  - exact Profile_scheme.
  - vm_compute. reflexivity.
Defined.

Lemma newSchema_ColumnFamilies_witness :
  is_Some (ColumnFamilies Keyspace.schema !! "users") <->
  exists cfDef, Some cfDef ∈ CfDefs Keyspace.ksDef /\ isStandard cfDef
                /\ CfDef_Name cfDef = "users".
Proof.
  apply (@newSchema_ColumnFamilies classNames Keyspace.ksDef
           Keyspace.schema "users").
  vm_compute. reflexivity.
Defined.

Lemma newSchema_last_definition_witness :
  is_Some (@translate classNames Keyspace.users)
  /\ ColumnFamilies Keyspace.schema !! CfDef_Name Keyspace.users
     = @translate classNames Keyspace.users.
Proof.
  apply (@newSchema_last_definition classNames
           [None; Some Keyspace.early; Some Keyspace.counters] [None]
           Keyspace.users Keyspace.schema).
  - vm_compute. reflexivity.
  - reflexivity.
  - intros later Hin%list_elem_of_singleton. discriminate Hin.
Defined.

Lemma namedColumns_lookup_witness :
  @namedColumns classNames [Some Keyspace.email; None; Some Keyspace.age] ∅
    !! string_of_list_byte (ColumnDef_Name Keyspace.age)
  = Some (@parseTypeClass classNames (ValidationClass Keyspace.age))
  /\ @namedColumns classNames [Some Keyspace.email; None; Some Keyspace.age] ∅
       !! "name"
     = None.
Proof.
  destruct (@namedColumns_lookup classNames
              [Some Keyspace.email; None; Some Keyspace.age] "name")
    as [Hlast Hnone].
  split.
  - apply (Hlast [Some Keyspace.email; None] [] Keyspace.age).
    + reflexivity.
    + intros later Hin. by apply elem_of_nil in Hin.
  - apply Hnone. intros colDef Hin.
    repeat (apply elem_of_cons in Hin as [Hin|Hin]);
      [..|by apply elem_of_nil in Hin];
      try discriminate Hin; injection Hin as ->; vm_compute; discriminate.
Defined.

Lemma sparseMapping_Unmap_two_records_witness :
  @sparseMapping_Unmap wirePrimitives sliceProvider sliceRowProvider 3
    (newSparseMapping Users.inspection "users" "Id" ["Kind"])
    (StructPointer Users.inspection Users.blank)
    (newSliceProvider (Key Users.aliceRow)
       (Columns Users.aliceRow ++ Columns Settings.row) EndBeforeLimit)
  = Some (Ok Users.alice,
          sliceAt (newSliceProvider (Key Users.aliceRow)
                     (Columns Users.aliceRow ++ Columns Settings.row)
                     EndBeforeLimit)
            (length (Columns Users.aliceRow)))
  /\ @sparseMapping_Unmap wirePrimitives sliceProvider sliceRowProvider 3
       (newSparseMapping Users.inspection "users" "Id" ["Kind"])
       (StructPointer Users.inspection Users.blank)
       (sliceAt (newSliceProvider (Key Users.aliceRow)
                   (Columns Users.aliceRow ++ Columns Settings.row)
                   EndBeforeLimit)
          (length (Columns Users.aliceRow)))
     = Some (Ok Settings.record,
             sliceAt (newSliceProvider (Key Users.aliceRow)
                        (Columns Users.aliceRow ++ Columns Settings.row)
                        EndBeforeLimit)
               (length (Columns Users.aliceRow)
                + length (Columns Settings.row))).
Proof.
  apply (@sparseMapping_Unmap_two_records wirePrimitives Users.inspection
           "users" "Id" ["Kind"] Users.alice Settings.record Users.blank
           Users.blank Users.aliceRow Settings.row 3).
  - vm_compute. reflexivity.
  - vm_compute. reflexivity.
  - reflexivity.
  - exists "Kind", (newField "Kind" 1 UTF8Type).
    split; [apply list_elem_of_here|].
    split; [vm_compute; reflexivity|]. vm_compute. discriminate.
  - exists (newField "Name" 2 UTF8Type).
    split; [do 2 apply list_elem_of_further; apply list_elem_of_here|].
    split; [discriminate|].
    intros Hin%list_elem_of_singleton. discriminate Hin.
  - apply newStructInspection_consistent;
      apply (bool_decide_unpack _); vm_compute; exact I.
  - intros i Hi.
    destruct i as [|[|[|[|i]]]];
      [exists (newField "Id" 0 UTF8Type)
      |exists (newField "Kind" 1 UTF8Type)
      |exists (newField "Name" 2 UTF8Type)
      |exists (newField "Age" 3 LongType)
      |cbn in Hi; lia];
      (split; [|reflexivity]);
      repeat first [apply list_elem_of_here|apply list_elem_of_further].
  - intros f Hf.
    cbn [Users.inspection newStructInspection orderedFields Users.fields]
      in Hf.
    each_field Hf;
      (split; [wire_field_round_trips
              |split; [wire_field_round_trips|wire_name_round_trips]]).
  - split; [|split].
    + intros c f b Hc%list_elem_of_singleton Hf Hb. subst c.
      vm_compute in Hf. injection Hf as <-.
      vm_compute in Hb. injection Hb as <-. vm_compute. reflexivity.
    + intros c f b Hc%list_elem_of_singleton Hf Hb. subst c.
      vm_compute in Hf. injection Hf as <-.
      vm_compute in Hb. injection Hb as <-. vm_compute. reflexivity.
    + intros f b Hf Hb.
      cbn [Users.inspection newStructInspection orderedFields Users.fields]
        in Hf.
      each_field Hf; vm_compute in Hb; injection Hb as <-;
        vm_compute; reflexivity.
  - repeat constructor.
  - repeat constructor.
  - repeat constructor.
  - cbn. lia.
  - cbn. lia.
Defined.
